(** * Symbol Art Vault: the server's request handlers and their SQL

    A shallow embedding of [server/index.js] over the schema of the
    database dump ([files], [posts], [taggings], [tags], [users] and their
    sequences and constraints).

    - JavaScript strings are [string]s, one character per code unit, for
      text in the Latin-1 range.
    - A table is the list of its rows in scan order; [insert] appends.
    - A SQL statement runs against the snapshot taken when it starts.  Its
      data-modifying sub-statements build the new tables, primary keys are
      checked as rows go in, foreign keys when the statement ends, and the
      statement either commits the new tables or leaves the old ones.
      Sequences are not transactional: a value handed out stays handed out.
    - Row order where SQL leaves it open (joins, [group by], ties of an
      [order by]) is the order of a nested-loop plan with a stable sort. *)

From Stdlib Require Import List String Ascii ZArith QArith Bool Lia.
From Stdlib Require Import Permutation Sorted.
Import ListNotations.

Local Open Scope string_scope.
Local Open Scope Z_scope.
Local Open Scope list_scope.

(* ================================================================== *)
(** * JavaScript built-ins used by the handlers                        *)
(* ================================================================== *)

Module JS.

(** White space and line terminators removed by [String.prototype.trim]
    (TAB, LF, VT, FF, CR, SP, NBSP). *)
Definition is_white_space (c : ascii) : bool :=
  let n := nat_of_ascii c in
  existsb (Nat.eqb n) [9; 10; 11; 12; 13; 32; 160]%nat.

Fixpoint trimStart (s : string) : string :=
  match s with
  | EmptyString => EmptyString
  | String c r => if is_white_space c then trimStart r else s
  end.

Fixpoint trimEnd (s : string) : string :=
  match s with
  | EmptyString => EmptyString
  | String c r =>
      match trimEnd r with
      | EmptyString => if is_white_space c then EmptyString
                       else String c EmptyString
      | r' => String c r'
      end
  end.

(** [s.trim()] *)
Definition trim (s : string) : string := trimEnd (trimStart s).

(** [s.split(sep)] for a one-character separator: always at least one
    piece, the empty string splits into one empty piece. *)
Fixpoint split (sep : ascii) (s : string) : list string :=
  match s with
  | EmptyString => [EmptyString]
  | String c r =>
      if Ascii.eqb c sep then EmptyString :: split sep r
      else match split sep r with
           | piece :: rest => String c piece :: rest
           | [] => [String c EmptyString]
           end
  end.

(** [arr.includes(x)] on an array of strings. *)
Definition includes (arr : list string) (x : string) : bool :=
  existsb (String.eqb x) arr.

(** [!v] for a value that is [undefined] or a string: only [undefined] and
    the empty string are falsy. *)
Definition falsy (v : option string) : bool :=
  match v with
  | None => true
  | Some s => String.eqb s EmptyString
  end.

(** The string behind a value that is not [undefined]. *)
Definition value (v : option string) : string :=
  match v with Some s => s | None => EmptyString end.

(** The value of [Number(s)]: [NaN], a finite number or an infinity. *)
Inductive number : Type :=
  | NaN
  | Finite (q : Q)
  | Infinity (negative : bool).

(** [Number.isNaN(n)] *)
Definition isNaN (n : number) : bool :=
  match n with NaN => true | _ => false end.

(** [a >= b] and [a <= b] for a left operand already converted with
    ToNumber and an integer literal on the right; a comparison with [NaN]
    is false. *)
Definition ge (a : number) (b : Z) : bool :=
  match a with
  | NaN => false
  | Finite q => Qle_bool (inject_Z b) q
  | Infinity negative => negb negative
  end.

Definition le (a : number) (b : Z) : bool :=
  match a with
  | NaN => false
  | Finite q => Qle_bool q (inject_Z b)
  | Infinity negative => negative
  end.

(** What a handler throws or a promise rejects with: an error of the store,
    or the [TypeError] of the expression given. *)
Inductive rejection (E : Type) : Type :=
  | StoreError (e : E)
  | TypeError (expression : string).
Arguments StoreError {E} e.
Arguments TypeError {E} expression.

End JS.

(* ================================================================== *)
(** * The PostgreSQL store                                             *)
(* ================================================================== *)

Module PG.

(** SQLSTATE conditions the statements of the server can raise. *)
Inductive error : Type :=
  | invalid_text_representation
  | numeric_value_out_of_range
  | not_null_violation (column : string)
  | unique_violation (constraint : string)
  | foreign_key_violation (constraint : string)
  | sequence_generator_limit_exceeded (sequence : string)
  | invalid_row_count_in_result_offset_clause.

Inductive result (A : Type) : Type :=
  | Ok (a : A)
  | Err (e : error).
Arguments Ok {A} a.
Arguments Err {A} e.

(** ** Text input of integers

    Parameters arrive as text.  [integer] and [bigint] input skips white
    space at both ends, takes an optional sign and at least one decimal
    digit, and checks the range. *)

Definition isspace (c : ascii) : bool :=
  let n := nat_of_ascii c in
  existsb (Nat.eqb n) [9; 10; 11; 12; 13; 32]%nat.

Definition isdigit (c : ascii) : bool :=
  let n := nat_of_ascii c in ((48 <=? n) && (n <=? 57))%nat.

Fixpoint skip_space (s : string) : string :=
  match s with
  | EmptyString => EmptyString
  | String c r => if isspace c then skip_space r else s
  end.

Fixpoint read_digits (s : string) (acc : Z) : Z * string :=
  match s with
  | EmptyString => (acc, EmptyString)
  | String c r =>
      if isdigit c
      then read_digits r (acc * 10 + (Z.of_nat (nat_of_ascii c) - 48))
      else (acc, s)
  end.

Definition read_integer (s : string) : option Z :=
  let s1 := skip_space s in
  let '(negative, s2) :=
    match s1 with
    | String "-"%char r => (true, r)
    | String "+"%char r => (false, r)
    | _ => (false, s1)
    end in
  match s2 with
  | EmptyString => None
  | String c _ =>
      if isdigit c then
        let '(v, rest) := read_digits s2 0 in
        match skip_space rest with
        | EmptyString => Some (if negative then - v else v)
        | _ => None
        end
      else None
  end.

Definition int4_max : Z := 2147483647.
Definition int4_min : Z := -2147483648.
Definition int8_max : Z := 9223372036854775807.
Definition int8_min : Z := -9223372036854775808.

Definition in_int4 (v : Z) : bool := (int4_min <=? v) && (v <=? int4_max).

Definition int4in (s : string) : result Z :=
  match read_integer s with
  | None => Err invalid_text_representation
  | Some v => if in_int4 v then Ok v else Err numeric_value_out_of_range
  end.

Definition int8in (s : string) : result Z :=
  match read_integer s with
  | None => Err invalid_text_representation
  | Some v => if (int8_min <=? v) && (v <=? int8_max) then Ok v
              else Err numeric_value_out_of_range
  end.

(** A nullable [integer] parameter: [undefined] is sent as NULL. *)
Definition int4in_null (v : option string) : result (option Z) :=
  match v with
  | None => Ok None
  | Some s => match int4in s with
              | Ok n => Ok (Some n)
              | Err e => Err e
              end
  end.

(** ** Tables *)

Record file_row : Type := {
  fileId : Z;
  fileObjectKey : string;
  previewImagePath : string;
  filePropsName : option string;
  filePropsSound : option Z;
  filePropsLayerCount : option Z
}.

Record post_row : Type := {
  postId : Z;
  post_fileId : Z;
  post_userId : Z;
  createdAt : Z;
  title : string;
  description : option string
}.

Record tagging_row : Type := {
  tagName : string;
  tagging_postId : Z
}.

Record user_row : Type := {
  userId : Z;
  username : string;
  hashedPassword : string;
  user_createdAt : Z
}.

Record tables : Type := {
  files : list file_row;
  posts : list post_row;
  taggings : list tagging_row;
  tags : list string;
  users : list user_row
}.

(** Last value handed out by each sequence ([AS integer], increment 1). *)
Record sequences : Type := {
  files_fileId_seq : Z;
  posts_postId_seq : Z;
  users_userId_seq : Z
}.

Record db : Type := {
  db_tables : tables;
  db_sequences : sequences
}.

(** ** Statements

    A statement reads and advances the sequences, which keep their value
    when it fails, and yields a value or an error. *)

Definition stmt (A : Type) : Type := sequences -> sequences * result A.

Definition ret {A} (a : A) : stmt A := fun sq => (sq, Ok a).

Definition bind {A B} (m : stmt A) (k : A -> stmt B) : stmt B :=
  fun sq =>
    match m sq with
    | (sq', Ok a) => k a sq'
    | (sq', Err e) => (sq', Err e)
    end.

Definition lift {A} (r : result A) : stmt A := fun sq => (sq, r).

End PG.

Declare Scope stmt_scope.
Delimit Scope stmt_scope with stmt.
Notation "x <- m ;; k" := (PG.bind m (fun x => k))
  (at level 100, m at next level, right associativity) : stmt_scope.

(* ================================================================== *)
(** * The statements of the server                                     *)
(* ================================================================== *)

Module SQL.
Import PG.
Local Open Scope stmt_scope.

(** ** Sequences, inserts and constraints *)

(** [nextval] of a sequence [AS integer]: the value is consumed even when
    the statement later fails. *)
Definition nextval_files : stmt Z := fun sq =>
  let v := files_fileId_seq sq + 1 in
  if v <=? int4_max
  then ({| files_fileId_seq := v;
           posts_postId_seq := posts_postId_seq sq;
           users_userId_seq := users_userId_seq sq |}, Ok v)
  else (sq, Err (sequence_generator_limit_exceeded "files_fileId_seq")).

Definition nextval_posts : stmt Z := fun sq =>
  let v := posts_postId_seq sq + 1 in
  if v <=? int4_max
  then ({| files_fileId_seq := files_fileId_seq sq;
           posts_postId_seq := v;
           users_userId_seq := users_userId_seq sq |}, Ok v)
  else (sq, Err (sequence_generator_limit_exceeded "posts_postId_seq")).

(** An [integer] parameter given as a JavaScript number. *)
Definition int4_param (v : Z) : result Z :=
  if in_int4 v then Ok v else Err numeric_value_out_of_range.

(** [insert into "files"]: primary key [files_pkey]. *)
Definition insert_file (r : file_row) (t : tables) : result tables :=
  if existsb (fun f => fileId f =? fileId r) (files t)
  then Err (unique_violation "files_pkey")
  else Ok {| files := files t ++ [r]; posts := posts t;
             taggings := taggings t; tags := tags t; users := users t |}.

(** [insert into "posts"]: primary key [posts_pkey]. *)
Definition insert_post (r : post_row) (t : tables) : result tables :=
  if existsb (fun p => postId p =? postId r) (posts t)
  then Err (unique_violation "posts_pkey")
  else Ok {| files := files t; posts := posts t ++ [r];
             taggings := taggings t; tags := tags t; users := users t |}.

(** [insert into "tags" ... on conflict ("tagName") do nothing], one name
    at a time: a name already in the table, or put there by an earlier row
    of the same statement, is skipped. *)
Definition upsert_tag (vocabulary : list string) (name : string) : list string :=
  if existsb (String.eqb name) vocabulary then vocabulary
  else vocabulary ++ [name].

Definition upsert_tags (names : list string) (t : tables) : tables :=
  {| files := files t; posts := posts t; taggings := taggings t;
     tags := fold_left upsert_tag names (tags t); users := users t |}.

(** [insert into "taggings"]: the table has no key of its own. *)
Definition add_taggings (rows : list tagging_row) (t : tables) : tables :=
  {| files := files t; posts := posts t; taggings := taggings t ++ rows;
     tags := tags t; users := users t |}.

(** Foreign keys of a new post and of new taggings, checked on the tables
    as the statement leaves them. *)
Definition check_post_fkeys (r : post_row) (t : tables) : result unit :=
  if negb (existsb (fun f => fileId f =? post_fileId r) (files t))
  then Err (foreign_key_violation "posts_fileId_fkey")
  else if negb (existsb (fun u => userId u =? post_userId r) (users t))
  then Err (foreign_key_violation "posts_userId_fkey")
  else Ok tt.

Definition tagging_fkeys_ok (t : tables) (r : tagging_row) : result unit :=
  if negb (existsb (fun p => postId p =? tagging_postId r) (posts t))
  then Err (foreign_key_violation "taggings_postId_fkey")
  else if negb (existsb (String.eqb (tagName r)) (tags t))
  then Err (foreign_key_violation "taggings_tagName_fkey")
  else Ok tt.

Fixpoint check_tagging_fkeys (rows : list tagging_row) (t : tables)
  : result unit :=
  match rows with
  | [] => Ok tt
  | r :: rest => match tagging_fkeys_ok t r with
                 | Ok _ => check_tagging_fkeys rest t
                 | Err e => Err e
                 end
  end.

(** [db.query]: a statement commits its tables or leaves the old ones; the
    sequences keep whatever the statement consumed. *)
Definition query {A} (s : tables -> stmt (tables * A)) (d : db)
  : db * result A :=
  match s (db_tables d) (db_sequences d) with
  | (sq, Ok (t', a)) => ({| db_tables := t'; db_sequences := sq |}, Ok a)
  | (sq, Err e) =>
      ({| db_tables := db_tables d; db_sequences := sq |}, Err e)
  end.

(** A statement that only reads. *)
Definition reading {A} (f : tables -> result A) : tables -> stmt (tables * A) :=
  fun t => (a <- lift (f t) ;; ret (t, a)).

(** ** Shared pieces of the read statements *)

(** [order by]: a stable insertion sort. *)
Fixpoint insert_by {A} (leb : A -> A -> bool) (x : A) (l : list A) : list A :=
  match l with
  | [] => [x]
  | y :: r => if leb x y then x :: l else y :: insert_by leb x r
  end.

Fixpoint order_by {A} (leb : A -> A -> bool) (l : list A) : list A :=
  match l with
  | [] => []
  | x :: r => insert_by leb x (order_by leb r)
  end.

(** The keys of a [group by], in order of first appearance. *)
Fixpoint distinct (l : list Z) : list Z :=
  match l with
  | [] => []
  | x :: r => x :: filter (fun y => negb (y =? x)) (distinct r)
  end.

(** The CTE ["tag_arrays"]:
    [select "postId", array_agg("tagName") from "taggings" group by "postId"].
    A post without taggings has no group, hence no row. *)
Definition tag_arrays (ts : list tagging_row) : list (Z * list string) :=
  map (fun id =>
         (id, map tagName (filter (fun r => tagging_postId r =? id) ts)))
      (distinct (map tagging_postId ts)).

(** ** The projection of a post *)

Module Projection.
Record t : Type := {
  title : string;
  description : option string;
  username : string;
  fileObjectKey : string;
  previewImagePath : string;
  filePropsName : option string;
  filePropsSound : option Z;
  filePropsLayerCount : option Z;
  postId : Z;
  userId : Z;
  createdAt : Z;
  tags : option (list string)
}.
End Projection.

Definition project (p : post_row) (f : file_row) (u : user_row)
    (names : option (list string)) : Projection.t :=
  {| Projection.title := title p;
     Projection.description := description p;
     Projection.username := username u;
     Projection.fileObjectKey := fileObjectKey f;
     Projection.previewImagePath := previewImagePath f;
     Projection.filePropsName := filePropsName f;
     Projection.filePropsSound := filePropsSound f;
     Projection.filePropsLayerCount := filePropsLayerCount f;
     Projection.postId := postId p;
     Projection.userId := userId u;
     Projection.createdAt := createdAt p;
     Projection.tags := names |}.

(** ["posts" as "p" join "files" using ("fileId") join "users" using
    ("userId") join "tag_arrays" using ("postId")]: inner joins, so a post
    needs a row on every side to come out. *)
Definition joined_posts (t : tables) (arrays : list (Z * option (list string)))
  : list Projection.t :=
  flat_map (fun p =>
    flat_map (fun f =>
      flat_map (fun u =>
        map (fun a => project p f u (snd a))
            (filter (fun a => fst a =? postId p) arrays))
        (filter (fun u => userId u =? post_userId p) (users t)))
      (filter (fun f => fileId f =? post_fileId p) (files t)))
    (posts t).

Definition stored_arrays (t : tables) : list (Z * option (list string)) :=
  map (fun a => (fst a, Some (snd a))) (tag_arrays (taggings t)).

Definition formatted_posts (t : tables) : list Projection.t :=
  joined_posts t (stored_arrays t).

Definition newest_first (a b : Projection.t) : bool :=
  Projection.createdAt b <=? Projection.createdAt a.

Definition oldest_first (a b : Projection.t) : bool :=
  Projection.createdAt a <=? Projection.createdAt b.

(** ** [GET /api/catalog] *)
Definition catalog (t : tables) : result (list Projection.t) :=
  Ok (order_by newest_first (formatted_posts t)).

(** ** [GET /api/catalog/:offset]: [order by "createdAt" limit 20 offset $1] *)
Definition catalog_offset (offset : string) (t : tables)
  : result (list Projection.t) :=
  match int8in offset with
  | Err e => Err e
  | Ok n =>
      if n <? 0 then Err invalid_row_count_in_result_offset_clause
      else Ok (firstn 20 (skipn (Z.to_nat n)
                 (order_by oldest_first (formatted_posts t))))
  end.

(** ** [GET /api/catalog/user/:userId]

    ["users" left join "jsonify"]: a user without listed posts keeps a row,
    with NULL for ["posts"] (["userId"] is the primary key of ["users"], so
    ["jsonify"] has at most one group per user row). *)
Record user_catalog : Type := {
  uc_username : string;
  uc_userId : Z;
  uc_posts : option (list Projection.t)
}.

Definition jsonify (t : tables) (u : user_row) : option (list Projection.t) :=
  match filter (fun v => Projection.userId v =? userId u)
               (order_by newest_first (formatted_posts t)) with
  | [] => None
  | l => Some l
  end.

Definition catalog_user (id : string) (t : tables) : result (list user_catalog) :=
  match int4in id with
  | Err e => Err e
  | Ok n =>
      Ok (map (fun u => {| uc_username := username u; uc_userId := userId u;
                           uc_posts := jsonify t u |})
              (filter (fun u => userId u =? n) (users t)))
  end.

(** ** [GET /api/posts/view/:id]: [where "postId" = $1] *)
Definition view (id : string) (t : tables) : result (list Projection.t) :=
  match int4in id with
  | Err e => Err e
  | Ok n => Ok (filter (fun v => Projection.postId v =? n) (formatted_posts t))
  end.

(** ** [GET /api/posts/download/:id]:
    [select "fileObjectKey", "title" from "posts" join "files" using ("fileId")] *)
Definition download (id : string) (t : tables) : result (list (string * string)) :=
  match int4in id with
  | Err e => Err e
  | Ok n =>
      Ok (flat_map (fun p =>
            map (fun f => (fileObjectKey f, title p))
                (filter (fun f => fileId f =? post_fileId p) (files t)))
          (filter (fun p => postId p =? n) (posts t)))
  end.

(** ** [GET /api/posts/search] *)

Inductive weight : Type := A | B | C | D.

(** PostgreSQL's text search, which the statement calls and the
    repository does not define.  A rank is a [real], here the rational it
    stands for; no [real] lies between 1/100 and the [double precision]
    the literal [0.01] becomes, so the threshold is 1/100. *)
Record text_search : Type := {
  tsvector : Type;
  tsquery : Type;
  to_tsvector : string -> tsvector;
  setweight : tsvector -> weight -> tsvector;
  tsvector_concat : tsvector -> tsvector -> tsvector;
  tsvector_empty : tsvector;
  plainto_tsquery : string -> tsquery;
  ts_rank : tsvector -> tsquery -> Q
}.

Record columnsConfig : Type := {
  cfg_title : bool;
  cfg_description : bool;
  cfg_tags : bool;
  cfg_username : bool
}.

Record search_row : Type := {
  found : Projection.t;
  ranks : Q
}.

Section Search.
Variable fts : text_search.

(** [a || b] on values that may be NULL. *)
Definition concat_null (a b : option (tsvector fts)) : option (tsvector fts) :=
  match a, b with
  | Some x, Some y => Some (tsvector_concat fts x y)
  | _, _ => None
  end.

(** [setweight(to_tsvector(col), w)] on a column that may be NULL. *)
Definition weighted (col : option string) (w : weight) : option (tsvector fts) :=
  option_map (fun s => setweight fts (to_tsvector fts s) w) col.

(** [array_to_string(array_agg("tagName"), ' ')] *)
Definition tagSearch (names : list string) : string := String.concat " " names.

(** The expression ["weights"] the handler assembles: one operand per
    enabled column, in the order title, description, tags, username, then
    the literal [''], joined by [||] from the left. *)
Definition weights (cfg : columnsConfig) (p : post_row) (u : user_row)
    (names : list string) : option (tsvector fts) :=
  let operands :=
    (if cfg_title cfg then [weighted (Some (title p)) A] else []) ++
    (if cfg_description cfg then [weighted (description p) B] else []) ++
    (if cfg_tags cfg then [weighted (Some (tagSearch names)) C] else []) ++
    (if cfg_username cfg then [weighted (Some (username u)) D] else []) ++
    [Some (tsvector_empty fts)] in
  match operands with
  | [] => None
  | first :: rest => fold_left concat_null rest first
  end.

(** ["posts_with_tags"]: ["posts" join "users" join "tag_arrays"]. *)
Definition posts_with_tags (t : tables)
  : list (post_row * user_row * (Z * list string)) :=
  flat_map (fun p =>
    flat_map (fun u =>
      map (fun a => (p, u, a))
          (filter (fun a => fst a =? postId p) (tag_arrays (taggings t))))
      (filter (fun u => userId u =? post_userId p) (users t)))
    (posts t).

(** ["weighted_posts"]: the post identity and its ["weights"]. *)
Definition weighted_posts (cfg : columnsConfig) (t : tables)
  : list (Z * option (tsvector fts)) :=
  map (fun row => let '(p, u, a) := row in
                  (postId p, weights cfg p u (snd a)))
      (posts_with_tags t).

(** ["search_ranking"]:
    [ts_rank("weights", plainto_tsquery($1)) as "ranks"]. *)
Definition search_ranking (cfg : columnsConfig) (q : string) (t : tables)
  : list (Z * option Q) :=
  map (fun w =>
         (fst w,
          option_map (fun v => ts_rank fts v (plainto_tsquery fts q)) (snd w)))
      (weighted_posts cfg t).

(** [where "ranks" > 0.01]; a NULL rank is not greater than anything. *)
Definition above_threshold (r : option Q) : option Q :=
  match r with
  | Some q => if Qle_bool q (1 # 100) then None else Some q
  | None => None
  end.

Definition best_first (a b : search_row) : bool := Qle_bool (ranks b) (ranks a).

(** ["search_ranking" join "posts" join "files" join "users" join
    "tag_arrays" where "ranks" > 0.01 order by "ranks" desc limit 20] *)
Definition search (cfg : columnsConfig) (q : string) (t : tables)
  : result (list search_row) :=
  let hits :=
    flat_map (fun r =>
      match above_threshold (snd r) with
      | None => []
      | Some rank =>
          map (fun v => {| found := v; ranks := rank |})
              (filter (fun v => Projection.postId v =? fst r)
                      (formatted_posts t))
      end)
      (search_ranking cfg q t) in
  Ok (firstn 20 (order_by best_first hits)).

End Search.

(** ** [POST /api/upload] *)

Record upload_params : Type := {
  up_fileObjectKey : string;               (* $1 *)
  up_previewImagePath : string;            (* $2 *)
  up_filePropsSound : option string;       (* $3 *)
  up_filePropsName : option string;        (* $4 *)
  up_filePropsLayerCount : option string;  (* $5 *)
  up_userId : Z;                           (* $6 *)
  up_title : option string;                (* $7 *)
  up_description : string;                 (* $8 *)
  up_tags : list string                    (* $9 *)
}.

Definition not_null {V} (column : string) (v : option V) : result V :=
  match v with
  | Some x => Ok x
  | None => Err (not_null_violation column)
  end.

(** The parameters are converted first; then ["new_file"], ["new_post"],
    ["upsert_tags"] and ["add_taggings"] run, the foreign keys of the new
    rows are checked, and the statement returns
    ["new_post" join "new_file"]. *)
Definition upload (now : Z) (p : upload_params) (t : tables)
  : stmt (tables * list (post_row * file_row)) :=
  sound <- lift (int4in_null (up_filePropsSound p)) ;;
  layers <- lift (int4in_null (up_filePropsLayerCount p)) ;;
  uid <- lift (int4_param (up_userId p)) ;;
  fid <- nextval_files ;;
  let new_file :=
    {| fileId := fid;
       fileObjectKey := up_fileObjectKey p;
       previewImagePath := up_previewImagePath p;
       filePropsName := up_filePropsName p;
       filePropsSound := sound;
       filePropsLayerCount := layers |} in
  t1 <- lift (insert_file new_file t) ;;
  pid <- nextval_posts ;;
  ttl <- lift (not_null "title" (up_title p)) ;;
  let new_post :=
    {| postId := pid; post_fileId := fid; post_userId := uid;
       createdAt := now; title := ttl;
       description := Some (up_description p) |} in
  t2 <- lift (insert_post new_post t1) ;;
  let t3 := upsert_tags (up_tags p) t2 in
  let new_taggings :=
    map (fun name => {| tagName := name; tagging_postId := pid |})
        (up_tags p) in
  let t4 := add_taggings new_taggings t3 in
  _ <- lift (check_post_fkeys new_post t4) ;;
  _ <- lift (check_tagging_fkeys new_taggings t4) ;;
  ret (t4, [(new_post, new_file)]).

(** ** [PUT /api/posts/edit/:id] *)

Record edit_params : Type := {
  ed_title : option string;   (* $1 *)
  ed_description : string;    (* $2 *)
  ed_id : string;             (* $3 *)
  ed_tags : list string       (* $4 *)
}.

(** ["update_post"]: a row with the given identity gets the new ["title"]
    and ["description"], nothing else is assigned; ["title"] is [not null]. *)
Definition update_post (id : Z) (ttl : option string) (descr : string)
    (p : post_row) : result post_row :=
  if postId p =? id
  then match not_null "title" ttl with
       | Ok s => Ok {| postId := postId p; post_fileId := post_fileId p;
                       post_userId := post_userId p; createdAt := createdAt p;
                       title := s; description := Some descr |}
       | Err e => Err e
       end
  else Ok p.

Fixpoint update_posts (id : Z) (ttl : option string) (descr : string)
    (l : list post_row) : result (list post_row) :=
  match l with
  | [] => Ok []
  | p :: rest =>
      match update_post id ttl descr p with
      | Err e => Err e
      | Ok p' => match update_posts id ttl descr rest with
                 | Err e => Err e
                 | Ok rest' => Ok (p' :: rest')
                 end
      end
  end.

(** [array_agg] without [group by]: one row, NULL over no rows. *)
Definition array_agg (names : list string) : option (list string) :=
  match names with
  | [] => None
  | _ => Some names
  end.

(** ["update_post"], ["delete_taggings"], ["upsert_tags"] and
    ["add_taggings"] all work on the snapshot, and so does the final
    [select]: it reads ["posts"] as they were and sees the new taggings only
    through [returning]. *)
Definition edit (p : edit_params) (t : tables)
  : stmt (tables * list Projection.t) :=
  id <- lift (int4in (ed_id p)) ;;
  updated <- lift (update_posts id (ed_title p) (ed_description p) (posts t)) ;;
  let new_taggings :=
    map (fun name => {| tagName := name; tagging_postId := id |})
        (ed_tags p) in
  let t1 :=
    {| files := files t;
       posts := updated;
       taggings := filter (fun r => negb (tagging_postId r =? id)) (taggings t);
       tags := tags t;
       users := users t |} in
  let t2 := add_taggings new_taggings (upsert_tags (ed_tags p) t1) in
  _ <- lift (check_tagging_fkeys new_taggings t2) ;;
  let arrays := [(id, array_agg (map tagName new_taggings))] in
  ret (t2, filter (fun v => Projection.postId v =? id) (joined_posts t arrays)).

End SQL.

(* ================================================================== *)
(** * The request handlers                                             *)
(* ================================================================== *)

Module Server.
Import PG.

(** How a request ends. *)
Inductive outcome (Body : Type) : Type :=
  | Sent (status : nat) (body : Body)
      (* [res.json], [res.status(..).json] *)
  | Redirected (url : string)
      (* [res.redirect] *)
  | ClientError (status : nat) (message : string)
      (* a [ClientError] thrown, or handed to [next], for the error middleware *)
  | Errored (why : JS.rejection error)
      (* any other error thrown or handed to [next] *)
  | Unhandled (why : JS.rejection error).
      (* a promise rejected with no handler: no response is written *)
Arguments Sent {Body} status body.
Arguments Redirected {Body} url.
Arguments ClientError {Body} status message.
Arguments Errored {Body} why.
Arguments Unhandled {Body} why.

(** What a handler leaves behind: the outcome, the store, and how many
    statements it sent to the store. *)
Record reply (Body : Type) : Type := {
  response : outcome Body;
  store : db;
  queries : nat
}.
Arguments response {Body} r.
Arguments store {Body} r.
Arguments queries {Body} r.

Definition without_query {Body} (o : outcome Body) (d : db) : reply Body :=
  {| response := o; store := d; queries := 0 |}.

(** [db.query(sql, params)] followed by a continuation on the result. *)
Definition db_query {R Body} (s : tables -> stmt (tables * R)) (d : db)
    (k : result R -> outcome Body) : reply Body :=
  let '(d', r) := SQL.query s d in
  {| response := k r; store := d'; queries := 1 |}.

Section Handlers.

(** [Number(..)] applied to a route parameter, and [download] of
    [s3-middleware]. *)
Variable Number : string -> JS.number.
Variable download : string -> string -> string.

(** The checks at the head of the handlers that take an identity. *)
Definition check_id {Body} (id : string) : option (outcome Body) :=
  if JS.isNaN (Number id)
  then Some (ClientError 400 "please provide a valid post ID (number)")
  else if negb (JS.ge (Number id) 1) || negb (JS.le (Number id) 2147483647)
  then Some (ClientError 400 "integer out of bounds")
  else None.

(** [app.get('/api/catalog')] *)
Definition get_catalog (d : db) : reply (list SQL.Projection.t) :=
  db_query (SQL.reading SQL.catalog) d
    (fun r => match r with
              | Ok rows => Sent 200 rows
              | Err e => Unhandled (JS.StoreError e)
              end).

(** [app.get('/api/catalog/:offset')] *)
Definition get_catalog_offset (offset : string) (d : db)
  : reply (list SQL.Projection.t) :=
  db_query (SQL.reading (SQL.catalog_offset offset)) d
    (fun r => match r with
              | Ok rows => Sent 200 rows
              | Err e => Unhandled (JS.StoreError e)
              end).

(** [app.get('/api/catalog/user/:userId')] *)
Definition get_catalog_user (userId : string) (d : db)
  : reply SQL.user_catalog :=
  match check_id userId with
  | Some rejected => without_query rejected d
  | None =>
      db_query (SQL.reading (SQL.catalog_user userId)) d
        (fun r => match r with
                  | Err e => Errored (JS.StoreError e)
                  | Ok [] => ClientError 404
                               ("unable to find user with id: " ++ userId)%string
                  | Ok (user :: _) => Sent 200 user
                  end)
  end.

(** [app.get('/api/posts/view/:id')] *)
Definition get_posts_view (id : string) (d : db) : reply SQL.Projection.t :=
  match check_id id with
  | Some rejected => without_query rejected d
  | None =>
      db_query (SQL.reading (SQL.view id)) d
        (fun r => match r with
                  | Err e => Errored (JS.StoreError e)
                  | Ok [] => ClientError 404
                               ("unable to find entry with id: " ++ id)%string
                  | Ok (entry :: _) => Sent 200 entry
                  end)
  end.

(** [!reSQL.rows]: [rows] is an array, an object, and every object is
    truthy, the empty array too. *)
Definition not_rows {R} (rows : list R) : bool := false.

(** [app.get('/api/posts/download/:id')]: the promise chain has no [catch].
    After the [404] branch the handler goes on to take the first row
    apart, which throws when there is none. *)
Definition get_posts_download (id : string) (d : db) : reply string :=
  match check_id id with
  | Some rejected => without_query rejected d
  | None =>
      db_query (SQL.reading (SQL.download id)) d
        (fun r =>
           match r with
           | Err e => Unhandled (JS.StoreError e)
           | Ok rows =>
               if not_rows rows
               then Sent 404 ("unable to find entry with id: " ++ id)%string
               else match rows with
                    | [] => Unhandled (JS.TypeError
                              "[{ fileObjectKey, title }] = reSQL.rows")
                    | (fileObjectKey, title) :: _ =>
                        Redirected (download fileObjectKey (title ++ ".sar")%string)
                    end
           end)
  end.

(** [app.get('/api/posts/search')] *)

Definition dq : string := String (ascii_of_nat 34) EmptyString.

Definition missing_q : string :=
  ("provide query param " ++ dq ++ "q" ++ dq
   ++ " with text you want to search for")%string.

Definition missing_cols : string :=
  ("provide query param " ++ dq ++ "cols" ++ dq
   ++ " with columns you want to search for"
   ++ " (title, description, tags, username) separated by ,")%string.

Definition columns_of (columns : string) : SQL.columnsConfig :=
  let columnsArray := JS.split "," columns in
  {| SQL.cfg_title := JS.includes columnsArray "title";
     SQL.cfg_description := JS.includes columnsArray "description";
     SQL.cfg_tags := JS.includes columnsArray "tags";
     SQL.cfg_username := JS.includes columnsArray "username" |}.

Definition get_posts_search (fts : SQL.text_search)
    (q cols : option string) (d : db) : reply (list SQL.search_row) :=
  if JS.falsy q then without_query (ClientError 400 missing_q) d
  else if JS.falsy cols then without_query (ClientError 400 missing_cols) d
  else
    let columnsConfig := columns_of (JS.value cols) in
    if negb (SQL.cfg_title columnsConfig)
       && negb (SQL.cfg_description columnsConfig)
       && negb (SQL.cfg_tags columnsConfig)
       && negb (SQL.cfg_username columnsConfig)
    then without_query (ClientError 400 missing_cols) d
    else
      db_query (SQL.reading (SQL.search fts columnsConfig (JS.value q))) d
        (fun r => match r with
                  | Ok rows => Sent 200 rows
                  | Err e => Errored (JS.StoreError e)
                  end).

(** [app.post('/api/upload')], after [authMiddleware] and the S3 upload
    have filled [req.userId] and [req.files]. *)
Record upload_request : Type := {
  req_userId : option Z;                    (* [null] for an anonymous post *)
  sar_key : string;                         (* [req.files.sar[0].key] *)
  thumbnail_location : string;              (* [req.files.thumbnail[0].location] *)
  body_title : option string;
  body_tags : option string;
  body_filePropsSound : option string;
  body_filePropsLayerCount : option string;
  body_filePropsName : option string;
  body_description : option string
}.

(** [description], replaced by [''] when it is falsy. *)
Definition description_or_empty (v : option string) : string :=
  if JS.falsy v then EmptyString else JS.value v.

(** [rawTags.split(',').map(e => e.trim())] *)
Definition upload_tags (rawTags : string) : list string :=
  map JS.trim (JS.split "," rawTags).

Definition post_upload (now : Z) (req : upload_request) (d : db)
  : reply (list (post_row * file_row)) :=
  let userId := match req_userId req with None => 1 | Some u => u end in
  let description := description_or_empty (body_description req) in
  match body_tags req with
  | None =>
      without_query
        (Errored (JS.TypeError "rawTags.split(',')")) d
  | Some rawTags =>
      let tags := upload_tags rawTags in
      let params :=
        {| SQL.up_fileObjectKey := sar_key req;
           SQL.up_previewImagePath := thumbnail_location req;
           SQL.up_filePropsSound := body_filePropsSound req;
           SQL.up_filePropsName := body_filePropsName req;
           SQL.up_filePropsLayerCount := body_filePropsLayerCount req;
           SQL.up_userId := userId;
           SQL.up_title := body_title req;
           SQL.up_description := description;
           SQL.up_tags := tags |} in
      db_query (SQL.upload now params) d
        (fun r => match r with
                  | Ok rows => Sent 200 rows
                  | Err e => Unhandled (JS.StoreError e)
                  end)
  end.

(** [app.put('/api/posts/edit/:id')]: the route parameter goes to the
    statement as it comes. *)
Record edit_request : Type := {
  params_id : string;
  edit_title : option string;
  edit_tags : option (list string);
  edit_description : option string
}.

(** [rawTags.map(e => e.trim())] *)
Definition edit_tags_of (rawTags : list string) : list string :=
  map JS.trim rawTags.

Definition put_posts_edit (req : edit_request) (d : db)
  : reply (list SQL.Projection.t) :=
  let description := description_or_empty (edit_description req) in
  match edit_tags req with
  | None =>
      without_query
        (Errored (JS.TypeError "rawTags.map(e => e.trim())")) d
  | Some rawTags =>
      let tags := edit_tags_of rawTags in
      let params :=
        {| SQL.ed_title := edit_title req;
           SQL.ed_description := description;
           SQL.ed_id := params_id req;
           SQL.ed_tags := tags |} in
      db_query (SQL.edit params) d
        (fun r => match r with
                  | Ok rows => Sent 200 rows
                  | Err e => Unhandled (JS.StoreError e)
                  end)
  end.

End Handlers.

End Server.

(* ================================================================== *)
(** * Sequences of writes, and the words of the specification          *)
(* ================================================================== *)

Module Vault.
Import PG Server.

(** A create or an edit request. *)
Inductive operation : Type :=
  | Create (now : Z) (req : upload_request)
  | Edit (req : edit_request).

Definition step (d : db) (op : operation) : db :=
  match op with
  | Create now req => store (post_upload now req d)
  | Edit req => store (put_posts_edit req d)
  end.

Definition run (ops : list operation) (d : db) : db := fold_left step ops d.

(** The tag names an operation submits. *)
Definition submitted (op : operation) : list string :=
  match op with
  | Create _ req =>
      match body_tags req with
      | Some rawTags => upload_tags rawTags
      | None => []
      end
  | Edit req =>
      match edit_tags req with
      | Some rawTags => edit_tags_of rawTags
      | None => []
      end
  end.

(** The referential integrity the store keeps for ["taggings"."postId"]. *)
Definition taggings_reference_posts (t : tables) : bool :=
  forallb (fun r => existsb (fun p => postId p =? tagging_postId r) (posts t))
          (taggings t).

(** The Tag Normalizer in the words of the specification: tokens trimmed,
    empty ones discarded, duplicates removed keeping the first. *)
Fixpoint first_occurrences (l : list string) : list string :=
  match l with
  | [] => []
  | x :: r => x :: filter (fun y => negb (String.eqb y x)) (first_occurrences r)
  end.

Definition spec_normalize (tokens : list string) : list string :=
  first_occurrences
    (filter (fun s => negb (String.eqb s EmptyString)) (map JS.trim tokens)).

(** No name twice, as a check that computes. *)
Fixpoint distinct_names (l : list string) : bool :=
  match l with
  | [] => true
  | x :: r => negb (existsb (String.eqb x) r) && distinct_names r
  end.

(** Two stores that differ only in what the columns outside [cfg] hold,
    with taggings for the same posts. *)
Definition same_post (cfg : SQL.columnsConfig) (a b : post_row) : Prop :=
  postId a = postId b /\ post_fileId a = post_fileId b
  /\ post_userId a = post_userId b /\ createdAt a = createdAt b
  /\ (SQL.cfg_title cfg = true -> title a = title b)
  /\ (SQL.cfg_description cfg = true -> description a = description b).

Definition same_user (cfg : SQL.columnsConfig) (a b : user_row) : Prop :=
  userId a = userId b
  /\ (SQL.cfg_username cfg = true -> username a = username b).

Definition same_tags (cfg : SQL.columnsConfig) (a b : Z * list string) : Prop :=
  fst a = fst b /\ (SQL.cfg_tags cfg = true -> snd a = snd b).

Definition differ_in_disabled (cfg : SQL.columnsConfig) (t1 t2 : tables) : Prop :=
  Forall2 (same_post cfg) (posts t1) (posts t2)
  /\ files t1 = files t2
  /\ Forall2 (same_user cfg) (users t1) (users t2)
  /\ Forall2 (same_tags cfg) (SQL.tag_arrays (taggings t1))
                              (SQL.tag_arrays (taggings t2)).

(** Which posts a search found, with what rank, in what order. *)
Definition ranking (rows : list SQL.search_row) : list (Z * Q) :=
  map (fun r => (SQL.Projection.postId (SQL.found r), SQL.ranks r)) rows.

(** What an edit must leave alone in a post. *)
Definition references (p : post_row) : Z * Z * Z * Z :=
  (postId p, post_fileId p, post_userId p, createdAt p).

End Vault.

(* ================================================================== *)
(** * Data for the worked examples                                     *)
(* ================================================================== *)

Module Sample.
Import PG Server.

(** Rows 4 and 6 of the database dump, with the whole tag vocabulary. *)
Definition admin : user_row :=
  {| userId := 1; username := "admin"; hashedPassword := "fakepassword";
     user_createdAt := 1654213222 |}.

Definition drake_file : file_row :=
  {| fileId := 4;
     fileObjectKey := "d2b28056-4bf0-449b-9f98-e5f77ccaf9fc.sar";
     previewImagePath :=
       "https://symbol-art-vault.s3.us-west-1.amazonaws.com/d2b28056-4bf0-449b-9f98-e5f77ccaf9fc.png";
     filePropsName := Some "Drake";
     filePropsSound := Some 7;
     filePropsLayerCount := Some 79 |}.

Definition rappy_file : file_row :=
  {| fileId := 6;
     fileObjectKey := "fde5ca0a-61af-4e8b-8779-2b8fe3f177c0.sar";
     previewImagePath :=
       "https://symbol-art-vault.s3.us-west-1.amazonaws.com/fde5ca0a-61af-4e8b-8779-2b8fe3f177c0.png";
     filePropsName := Some "@Pikaboi 2021-02-21";
     filePropsSound := Some 11;
     filePropsLayerCount := Some 78 |}.

Definition drake_post : post_row :=
  {| postId := 4; post_fileId := 4; post_userId := 1;
     createdAt := 1654213670;
     title := "Lobby Grinding >>>>";
     description := Some "Drake Meme but epic" |}.

Definition rappy_post : post_row :=
  {| postId := 6; post_fileId := 6; post_userId := 1;
     createdAt := 1654213704;
     title := "rappy my beloved";
     description := Some EmptyString |}.

Definition dump : db :=
  {| db_tables :=
       {| files := [drake_file; rappy_file];
          posts := [drake_post; rappy_post];
          taggings :=
            [ {| tagName := "drake meme"; tagging_postId := 4 |};
              {| tagName := "meme forma"; tagging_postId := 4 |};
              {| tagName := "rappy"; tagging_postId := 6 |};
              {| tagName := "meme form"; tagging_postId := 6 |} ];
          tags :=
            [ "pso2"; "producer"; "pse burst"; "onemore"; "flash"; "2000s";
              "cast"; "meme"; "drake meme"; "meme forma"; "one more";
              "rappy"; "meme form"; "nyau"; "dudu"; "potepipi"; "gaming";
              "affix" ];
          users := [admin] |};
     db_sequences :=
       {| files_fileId_seq := 8; posts_postId_seq := 8;
          users_userId_seq := 1 |} |}.

(** [Number] on decimal integer literals with an optional sign, which is
    all the examples pass (it reads more: fractions, exponents, other
    radixes, the empty string); a word such as [abc] is [NaN]. *)
Definition Number (s : string) : JS.number :=
  match read_integer s with
  | Some v => JS.Finite (inject_Z v)
  | None => JS.NaN
  end.

(** A presigned-URL maker standing in for [download] of [s3-middleware]. *)
Definition download (key filename : string) : string :=
  ("https://symbol-art-vault.s3.us-west-1.amazonaws.com/" ++ key
   ++ "?filename=" ++ filename)%string.

(** A word-matching stand-in for PostgreSQL's text search, enough to run
    the search statement on the sample rows: a vector is the list of the
    words with their weights, and the rank adds up the weights of the words
    the query names (D 0.1, C 0.2, B 0.4, A 1.0). *)
Definition words (s : string) : list string :=
  filter (fun w => negb (String.eqb w EmptyString)) (JS.split " " s).

Definition weight_value (w : SQL.weight) : Q :=
  match w with
  | SQL.A => 1
  | SQL.B => 4 # 10
  | SQL.C => 2 # 10
  | SQL.D => 1 # 10
  end.

Definition word_rank (v : list (string * SQL.weight)) (q : list string) : Q :=
  Qred (fold_left
          (fun acc e => if JS.includes q (fst e)
                        then (acc + weight_value (snd e))%Q else acc)
          v 0%Q).

Definition word_search : SQL.text_search :=
  {| SQL.tsvector := list (string * SQL.weight);
     SQL.tsquery := list string;
     SQL.to_tsvector := fun s => map (fun w => (w, SQL.D)) (words s);
     SQL.setweight := fun v w => map (fun e => (fst e, w)) v;
     SQL.tsvector_concat := fun a b => a ++ b;
     SQL.tsvector_empty := [];
     SQL.plainto_tsquery := words;
     SQL.ts_rank := word_rank |}.

(** Requests. *)

(** A create-post request in the name of a user the store does not know. *)
Definition orphan_upload : upload_request :=
  {| req_userId := Some 7;
     sar_key := "0b5e.sar";
     thumbnail_location := "https://symbol-art-vault.s3.us-west-1.amazonaws.com/0b5e.png";
     body_title := Some "Quna";
     body_tags := Some "pso2,idol";
     body_filePropsSound := Some "3";
     body_filePropsLayerCount := Some "120";
     body_filePropsName := Some "Quna";
     body_description := None |}.

(** An anonymous create-post request with the tag string of the
    specification's example. *)
Definition tagged_upload : upload_request :=
  {| req_userId := None;
     sar_key := "77aa.sar";
     thumbnail_location := "https://symbol-art-vault.s3.us-west-1.amazonaws.com/77aa.png";
     body_title := Some "Matoi";
     body_tags := Some "pso2, pso2 , meme,  ";
     body_filePropsSound := Some "3";
     body_filePropsLayerCount := Some "64";
     body_filePropsName := None;
     body_description := Some "episode 2" |}.

Definition edit_of (id : string) (names : list string) : edit_request :=
  {| params_id := id;
     edit_title := Some "Lobby Grinding";
     edit_tags := Some names;
     edit_description := Some "Drake Meme" |}.

(** The edit that gives post 6 the title and description it already has
    and an empty tag list. *)
Definition untag_rappy : edit_request :=
  {| params_id := "6";
     edit_title := Some "rappy my beloved";
     edit_tags := Some [];
     edit_description := None |}.

(** [Number] also on the one fraction the examples use. *)
Definition Number_or_fraction (s : string) : JS.number :=
  if String.eqb s "1.5" then JS.Finite (3 # 2) else Number s.

(** The sample rows after post 4 has lost its tags. *)
Definition untagged_dump : db :=
  store (put_posts_edit (edit_of "4" []) dump).

End Sample.

(* ================================================================== *)
(** * The constraints of the schema                                    *)
(* ================================================================== *)

Module Schema.
Import PG.

(** No identity twice, as a check that computes. *)
Fixpoint distinct_ids (l : list Z) : bool :=
  match l with
  | [] => true
  | x :: r => negb (existsb (Z.eqb x) r) && distinct_ids r
  end.

(** The primary keys, unique keys and foreign keys the dump declares. *)
Definition consistent (t : tables) : bool :=
  distinct_ids (map fileId (files t))                          (* files_pkey *)
  && distinct_ids (map postId (posts t))                       (* posts_pkey *)
  && Vault.distinct_names (tags t)                             (* tags_pkey *)
  && distinct_ids (map userId (users t))                       (* users_pkey *)
  && Vault.distinct_names (map username (users t))             (* users_username_key *)
  && Vault.distinct_names (map hashedPassword (users t))       (* users_hashedPassword_key *)
  && forallb (fun p => existsb (fun f => fileId f =? post_fileId p) (files t))
             (posts t)                                         (* posts_fileId_fkey *)
  && forallb (fun p => existsb (fun u => userId u =? post_userId p) (users t))
             (posts t)                                         (* posts_userId_fkey *)
  && forallb (fun r => existsb (fun p => postId p =? tagging_postId r) (posts t))
             (taggings t)                                      (* taggings_postId_fkey *)
  && forallb (fun r => existsb (String.eqb (tagName r)) (tags t))
             (taggings t).                                     (* taggings_tagName_fkey *)

(** The same constraints as propositions. *)
Record Consistent (t : tables) : Prop := {
  files_pkey : NoDup (map fileId (files t));
  posts_pkey : NoDup (map postId (posts t));
  tags_pkey : NoDup (tags t);
  users_pkey : NoDup (map userId (users t));
  users_username_key : NoDup (map username (users t));
  users_hashedPassword_key : NoDup (map hashedPassword (users t));
  posts_fileId_fkey :
    forall p, In p (posts t) -> In (post_fileId p) (map fileId (files t));
  posts_userId_fkey :
    forall p, In p (posts t) -> In (post_userId p) (map userId (users t));
  taggings_postId_fkey :
    forall r, In r (taggings t) -> In (tagging_postId r) (map postId (posts t));
  taggings_tagName_fkey :
    forall r, In r (taggings t) -> In (tagName r) (tags t)
}.

(** No sequence has gone back from [sq] to [sq']. *)
Definition not_before (sq sq' : sequences) : Prop :=
  files_fileId_seq sq <= files_fileId_seq sq'
  /\ posts_postId_seq sq <= posts_postId_seq sq'
  /\ users_userId_seq sq <= users_userId_seq sq'.

(** The tag names of a post, in scan order. *)
Definition tags_of (id : Z) (t : tables) : list string :=
  map tagName (filter (fun r => tagging_postId r =? id) (taggings t)).

End Schema.

(* ================================================================== *)
(** * Sign-up and sign-in                                              *)
(* ================================================================== *)

Module Auth.
Import PG Server.
Local Open Scope stmt_scope.

Definition nextval_users : stmt Z := fun sq =>
  let v := users_userId_seq sq + 1 in
  if v <=? int4_max
  then ({| files_fileId_seq := files_fileId_seq sq;
           posts_postId_seq := posts_postId_seq sq;
           users_userId_seq := v |}, Ok v)
  else (sq, Err (sequence_generator_limit_exceeded "users_userId_seq")).

(** [insert into "users" ("username", "hashedPassword") values ($1, $2)
    on conflict ("username") do nothing returning "userId", "username"]:
    the row takes its identity from the sequence first; a taken username
    skips the row, the other two keys of the table raise. *)
Definition insert_user (now : Z) (name hashed : string) (t : tables)
  : stmt (tables * list (Z * string)) :=
  uid <- nextval_users ;;
  if existsb (fun u => String.eqb (username u) name) (users t)
  then ret (t, [])
  else if existsb (fun u => userId u =? uid) (users t)
  then lift (Err (unique_violation "users_pkey"))
  else if existsb (fun u => String.eqb (hashedPassword u) hashed) (users t)
  then lift (Err (unique_violation "users_hashedPassword_key"))
  else
    ret ({| files := files t; posts := posts t; taggings := taggings t;
            tags := tags t;
            users := users t ++ [ {| userId := uid; username := name;
                                     hashedPassword := hashed;
                                     user_createdAt := now |} ] |},
         [(uid, name)]).

(** [select * from "users" where "username" = $1] *)
Definition select_user (name : string) (t : tables) : result (list user_row) :=
  Ok (filter (fun u => String.eqb (username u) name) (users t)).

Section Handlers.

(** [argon2.hash], with the salt it draws made explicit; [argon2.verify],
    which may reject; [jwt.sign] of the payload under the token secret. *)
Variable hash : string -> string -> string.
Variable verify : string -> string -> option bool.
Variable sign : Z -> string -> string.

Definition required : string := "username and password are required fields".

(** [app.post('/api/auth/sign-up')] *)
Definition post_auth_sign_up (now : Z) (salt : string)
    (name password : option string) (d : db) : reply (string * Z) :=
  if JS.falsy name || JS.falsy password
  then without_query (ClientError 400 required) d
  else
    db_query (insert_user now (JS.value name) (hash salt (JS.value password))) d
      (fun r => match r with
                | Err e => Errored (JS.StoreError e)
                | Ok [] => ClientError 409 "username already taken"
                | Ok ((userId, username) :: _) => Sent 201 (username, userId)
                end).

(** What sign-in answers: the token and the payload it signs. *)
Record session : Type := {
  token : string;
  user : Z * string
}.

(** [app.post('/api/auth/sign-in')] *)
Definition post_auth_sign_in (name password : option string) (d : db)
  : reply session :=
  if JS.falsy name || JS.falsy password
  then without_query (ClientError 400 required) d
  else
    db_query (SQL.reading (select_user (JS.value name))) d
      (fun r =>
         match r with
         | Err e => Errored (JS.StoreError e)
         | Ok [] => ClientError 401 "invalid login"
         | Ok (found :: _) =>
             match verify (hashedPassword found) (JS.value password) with
             | None => Errored (JS.TypeError "argon2.verify(hashedPassword, password)")
             | Some false => ClientError 401 "invalid login"
             | Some true =>
                 Sent 200 {| token := sign (userId found) (username found);
                             user := (userId found, username found) |}
             end
         end).

End Handlers.

End Auth.

(* ================================================================== *)
(** * Every write of the server                                        *)
(* ================================================================== *)

Module Writes.
Import PG Server.

Section Writes.
Variable hash : string -> string -> string.

Inductive write : Type :=
  | Upload (now : Z) (req : upload_request)
  | EditPost (req : edit_request)
  | SignUp (now : Z) (salt : string) (name password : option string).

Definition apply (d : db) (w : write) : db :=
  match w with
  | Upload now req => store (post_upload now req d)
  | EditPost req => store (put_posts_edit req d)
  | SignUp now salt name password =>
      store (Auth.post_auth_sign_up hash now salt name password d)
  end.

Definition apply_all (ws : list write) (d : db) : db := fold_left apply ws d.

End Writes.

End Writes.

(* ================================================================== *)
(** * Data for the worked examples of sign-up and of mixed writes      *)
(* ================================================================== *)

Module Fixture.
Import PG Server Sample.

(** Stand-ins for [argon2.hash], [argon2.verify] and [jwt.sign], enough to
    run sign-up and sign-in on the sample rows: the digest keeps salt and
    password apart with [$], and a digest of another shape makes [verify]
    reject. *)
Definition hash (salt password : string) : string :=
  ("$" ++ salt ++ "$" ++ password)%string.

Definition verify (digest password : string) : option bool :=
  match JS.split "$" digest with
  | [_; _; stored] => Some (String.eqb stored password)
  | _ => None
  end.

Definition sign (userId : Z) (username : string) : string :=
  ("token of " ++ username)%string.

(** A sign-up, a create, an edit and a create that fails. *)
Definition busy_day : list Writes.write :=
  [ Writes.SignUp 1700000000 "c2FsdA" (Some "quna") (Some "idol");
    Writes.Upload 1700000100 tagged_upload;
    Writes.EditPost (edit_of "4" ["drake"; " meme "]);
    Writes.Upload 1700000200 orphan_upload ].

(** The sample rows with the description of post 6 left NULL, which the
    column allows. *)
Definition undescribed : db :=
  {| db_tables :=
       {| files := files (db_tables dump);
          posts :=
            [ drake_post;
              {| postId := 6; post_fileId := 6; post_userId := 1;
                 createdAt := 1654213704; title := "rappy my beloved";
                 description := None |} ];
          taggings := taggings (db_tables dump);
          tags := tags (db_tables dump);
          users := users (db_tables dump) |};
     db_sequences := db_sequences dump |}.

End Fixture.

(* ================================================================== *)
(** * Properties                                                       *)
(* ================================================================== *)

Import PG Server Vault.

(** ** The built-ins on small inputs *)

Example trim_example : JS.trim "  pso2 " = "pso2".
Proof. reflexivity. Qed.

Example trim_inner_space : JS.trim " pse burst " = "pse burst".
Proof. reflexivity. Qed.

Example split_example :
  JS.split "," "pso2, pso2 , meme,  " = ["pso2"; " pso2 "; " meme"; "  "].
Proof. reflexivity. Qed.

Example split_empty : JS.split "," EmptyString = [EmptyString].
Proof. reflexivity. Qed.

Example columns_example :
  columns_of "title,tags"
  = {| SQL.cfg_title := true; SQL.cfg_description := false;
       SQL.cfg_tags := true; SQL.cfg_username := false |}.
Proof. reflexivity. Qed.

Example int4in_examples :
  int4in "42" = Ok 42 /\ int4in " -7 " = Ok (-7)
  /\ int4in "2147483648" = Err numeric_value_out_of_range
  /\ int4in "1.5" = Err invalid_text_representation
  /\ int4in "abc" = Err invalid_text_representation.
Proof. repeat split. Qed.

(** ** [order by] *)

Section OrderBy.
Context {A : Type}.
Variable leb : A -> A -> bool.
Hypothesis leb_total : forall a b, leb a b = false -> leb b a = true.
Hypothesis leb_trans :
  forall a b c, leb a b = true -> leb b c = true -> leb a c = true.

Let precedes (a b : A) : Prop := leb a b = true.

Lemma insert_by_In (x y : A) (l : list A) :
  In y (SQL.insert_by leb x l) <-> y = x \/ In y l.
Proof.
  induction l as [|z l IH]; simpl.
  - intuition congruence.
  - destruct (leb x z); simpl; rewrite ?IH; intuition congruence.
Qed.

Lemma order_by_In (y : A) (l : list A) : In y (SQL.order_by leb l) <-> In y l.
Proof.
  induction l as [|x l IH]; simpl; [tauto|].
  rewrite insert_by_In, IH. intuition congruence.
Qed.

Lemma order_by_length (l : list A) :
  List.length (SQL.order_by leb l) = List.length l.
Proof.
  assert (ins : forall x m, List.length (SQL.insert_by leb x m) = S (List.length m)).
  { intros x m; induction m as [|z m IH]; simpl; [reflexivity|].
    destruct (leb x z); simpl; congruence. }
  induction l as [|x l IH]; simpl; [reflexivity|].
  now rewrite ins, IH.
Qed.

Lemma insert_by_sorted (x : A) (l : list A) :
  StronglySorted precedes l -> StronglySorted precedes (SQL.insert_by leb x l).
Proof.
  induction 1 as [|z l Hs IH Hz]; simpl.
  - repeat constructor.
  - destruct (leb x z) eqn:E.
    + constructor; [now constructor|].
      constructor; [exact E|].
      rewrite Forall_forall in *. intros y Hy.
      eapply leb_trans; [exact E | now apply Hz].
    + constructor; [exact IH|].
      rewrite Forall_forall in *. intros y Hy.
      apply insert_by_In in Hy as [->|Hy]; [now apply leb_total | now apply Hz].
Qed.

Lemma order_by_sorted (l : list A) : StronglySorted precedes (SQL.order_by leb l).
Proof.
  induction l as [|x l IH]; simpl; [constructor | now apply insert_by_sorted].
Qed.

End OrderBy.

Lemma firstn_sorted {A} (R : A -> A -> Prop) (n : nat) (l : list A) :
  StronglySorted R l -> StronglySorted R (firstn n l).
Proof.
  intros H; revert n; induction H as [|x l Hs IH Hx]; intros [|n]; simpl;
    try constructor; auto.
  rewrite Forall_forall in *; intros y Hy.
  apply Hx. rewrite <- (firstn_skipn n l). apply in_or_app; now left.
Qed.

Lemma firstn_In {A} (n : nat) (l : list A) (x : A) : In x (firstn n l) -> In x l.
Proof.
  intros H. rewrite <- (firstn_skipn n l). apply in_or_app; now left.
Qed.

(** ** [db.query] *)

Lemma query_failure_keeps_tables {R} (s : tables -> stmt (tables * R)) (d : db) e :
  snd (SQL.query s d) = Err e -> db_tables (fst (SQL.query s d)) = db_tables d.
Proof.
  unfold SQL.query.
  destruct (s (db_tables d) (db_sequences d)) as [sq [[t a]|e']]; simpl;
    [discriminate | reflexivity].
Qed.

Lemma db_query_response {R Body} (s : tables -> stmt (tables * R)) (d : db)
    (k : result R -> outcome Body) :
  response (db_query s d k) = k (snd (SQL.query s d))
  /\ store (db_query s d k) = fst (SQL.query s d)
  /\ queries (db_query s d k) = 1%nat.
Proof.
  unfold db_query. destruct (SQL.query s d) as [d' r]. simpl. auto.
Qed.

Lemma reading_keeps_tables {R} (f : tables -> result R) (d : db) :
  fst (SQL.query (SQL.reading f) d) = d
  /\ snd (SQL.query (SQL.reading f) d) = f (db_tables d).
Proof.
  unfold SQL.query, SQL.reading, bind, lift, ret.
  destruct d as [t sq]; simpl. destruct (f t); simpl; auto.
Qed.

(** ** Create is all or nothing *)

(** C1. Whenever a create-post request does not end in success, whichever
    step of its statement failed, the five tables hold exactly the rows
    they held before the request: no file, post, tag or tagging of the
    attempt is visible. *)
Theorem upload_all_or_nothing (now : Z) (req : upload_request) (d : db) :
  (forall rows, response (post_upload now req d) <> Sent 200 rows) ->
  db_tables (store (post_upload now req d)) = db_tables d.
Proof.
  unfold post_upload. destruct (body_tags req) as [rawTags|]; [|reflexivity].
  match goal with |- context [db_query ?s d ?k] =>
    destruct (db_query_response s d k) as (Hr & Hs & _);
    rewrite Hr, Hs; clear Hr Hs;
    pose proof (query_failure_keeps_tables s d) as Hkeep;
    destruct (snd (SQL.query s d)) as [rows|e]
  end.
  - intros H. now elim (H rows).
  - intros _. now apply (Hkeep e).
Qed.

(** ** Search: threshold, order and cap *)

Lemma StronglySorted_impl {A} (R S : A -> A -> Prop) (l : list A) :
  (forall a b, R a b -> S a b) -> StronglySorted R l -> StronglySorted S l.
Proof.
  intros HRS; induction 1 as [|x l Hs IH Hx]; constructor; auto.
  eapply Forall_impl; [|exact Hx]. auto.
Qed.

Lemma best_first_total (a b : SQL.search_row) :
  SQL.best_first a b = false -> SQL.best_first b a = true.
Proof.
  unfold SQL.best_first. intros H. apply Qle_bool_iff.
  destruct (Qlt_le_dec (SQL.ranks a) (SQL.ranks b)) as [Hlt|Hle].
  - now apply Qlt_le_weak.
  - apply Qle_bool_iff in Hle. congruence.
Qed.

Lemma best_first_trans (a b c : SQL.search_row) :
  SQL.best_first a b = true -> SQL.best_first b c = true ->
  SQL.best_first a c = true.
Proof.
  unfold SQL.best_first. rewrite !Qle_bool_iff. intros; eapply Qle_trans; eauto.
Qed.

Lemma above_threshold_spec (fts : SQL.text_search) (r : option Q) (q : Q) :
  SQL.above_threshold r = Some q -> r = Some q /\ (1 # 100 < q)%Q.
Proof.
  unfold SQL.above_threshold. destruct r as [q'|]; [|discriminate].
  destruct (Qle_bool q' (1 # 100)) eqn:E; [discriminate|].
  intros [= <-]. split; [reflexivity|].
  apply Qnot_le_lt. intros Hle. apply Qle_bool_iff in Hle. congruence.
Qed.

Lemma Ok_inj {R} (a b : R) : Ok a = Ok b -> a = b.
Proof. congruence. Qed.

Lemma search_rows (fts : SQL.text_search) cfg q t rows :
  SQL.search fts cfg q t = Ok rows ->
  Forall (fun r => (1 # 100 < SQL.ranks r)%Q) rows
  /\ StronglySorted (fun a b => (SQL.ranks b <= SQL.ranks a)%Q) rows
  /\ (List.length rows <= 20)%nat.
Proof.
  unfold SQL.search. intros H. apply Ok_inj in H. subst rows. repeat split.
  - rewrite Forall_forall. intros r Hr.
    apply firstn_In, order_by_In, in_flat_map in Hr as ((id & rk) & _ & Hr).
    simpl in Hr. destruct (SQL.above_threshold rk) as [rank|] eqn:E; [|contradiction].
    apply in_map_iff in Hr as (v & <- & _). simpl.
    now apply (above_threshold_spec fts) in E as [_ E].
  - apply firstn_sorted.
    eapply StronglySorted_impl;
      [|apply order_by_sorted; [exact best_first_total | exact best_first_trans]].
    intros a b H. now apply Qle_bool_iff.
  - apply firstn_le_length.
Qed.

(** C5. Every search request that passes validation, that is, is not
    turned down with status 400, is answered with rows whose rank is
    strictly above 0.01, in order of descending rank, twenty at most. *)
Theorem search_threshold_order_cap (fts : SQL.text_search)
    (q cols : option string) (d : db) :
  (forall message,
     response (get_posts_search fts q cols d) <> ClientError 400 message) ->
  exists rows,
    response (get_posts_search fts q cols d) = Sent 200 rows
    /\ Forall (fun r => (1 # 100 < SQL.ranks r)%Q) rows
    /\ StronglySorted (fun a b => (SQL.ranks b <= SQL.ranks a)%Q) rows
    /\ (List.length rows <= 20)%nat.
Proof.
  unfold get_posts_search.
  destruct (JS.falsy q); [intros H; now elim (H missing_q)|].
  destruct (JS.falsy cols); [intros H; now elim (H missing_cols)|].
  match goal with |- context [if ?c then _ else _] => destruct c end;
    [intros H; now elim (H missing_cols)|].
  intros _.
  match goal with |- context [db_query ?s d ?k] =>
    destruct (db_query_response s d k) as (Hr & _); rewrite Hr; clear Hr
  end.
  match goal with |- context [SQL.reading ?f] =>
    destruct (reading_keeps_tables f d) as (_ & Hq); rewrite Hq; clear Hq
  end.
  destruct (SQL.search _ _ _ _) as [found|e] eqn:E; [|discriminate E].
  exists found. split; [reflexivity|]. now apply search_rows in E.
Qed.

Lemma upload_all_or_nothing_witness :
  response (post_upload 1700000000 Sample.orphan_upload Sample.dump)
    = Unhandled (JS.StoreError (foreign_key_violation "posts_userId_fkey"))
  /\ db_tables (store (post_upload 1700000000 Sample.orphan_upload Sample.dump))
     = db_tables Sample.dump.
Proof.
  split; [reflexivity|].
  apply (upload_all_or_nothing 1700000000 Sample.orphan_upload Sample.dump).
  intros rows H. vm_compute in H. discriminate H.
Defined.

(** The attempt that failed still consumed a value of each sequence. *)
Example failed_upload_consumes_sequences :
  db_sequences (store (post_upload 1700000000 Sample.orphan_upload Sample.dump))
  = {| files_fileId_seq := 9; posts_postId_seq := 9; users_userId_seq := 1 |}.
Proof. reflexivity. Qed.

Lemma search_threshold_order_cap_witness :
  exists rows,
    response (get_posts_search Sample.word_search (Some "rappy meme")
                (Some "title,tags") Sample.dump) = Sent 200 rows
    /\ Forall (fun r => (1 # 100 < SQL.ranks r)%Q) rows
    /\ StronglySorted (fun a b => (SQL.ranks b <= SQL.ranks a)%Q) rows
    /\ (List.length rows <= 20)%nat.
Proof.
  apply (search_threshold_order_cap Sample.word_search (Some "rappy meme")
           (Some "title,tags") Sample.dump).
  intros message H. vm_compute in H. discriminate H.
Defined.

(** The ranks of that search on the sample rows: the title outweighs the
    tags. *)
Example search_example :
  exists rows,
    response (get_posts_search Sample.word_search (Some "rappy meme")
                (Some "title,tags") Sample.dump) = Sent 200 rows
    /\ map (fun r => (SQL.Projection.postId (SQL.found r), SQL.ranks r)) rows
       = [(6, 7 # 5); (4, 2 # 5)].
Proof. eexists. split; [vm_compute; reflexivity | reflexivity]. Qed.

(** ** Edit: what the statement leaves alone *)

Lemma update_posts_references id ttl descr (l l' : list post_row) :
  SQL.update_posts id ttl descr l = Ok l' ->
  map references l' = map references l.
Proof.
  revert l'; induction l as [|p l IH]; simpl; intros l' H.
  - apply Ok_inj in H. now subst.
  - destruct (SQL.update_post id ttl descr p) as [p'|] eqn:Ep; [|discriminate].
    destruct (SQL.update_posts id ttl descr l) as [rest|]; [|discriminate].
    apply Ok_inj in H. subst l'. simpl. f_equal; [|now apply IH].
    unfold SQL.update_post in Ep.
    destruct (postId p =? id); [|now apply Ok_inj in Ep; subst].
    destruct (SQL.not_null "title" ttl); [|discriminate].
    apply Ok_inj in Ep. now subst.
Qed.

(** What a committed edit statement has done to each table. *)
Lemma edit_commits (p : SQL.edit_params) (t t' : tables) sq sq' rows :
  SQL.edit p t sq = (sq', Ok (t', rows)) ->
  exists id updated,
    int4in (SQL.ed_id p) = Ok id
    /\ SQL.update_posts id (SQL.ed_title p) (SQL.ed_description p) (posts t)
       = Ok updated
    /\ files t' = files t
    /\ posts t' = updated
    /\ users t' = users t
    /\ tags t' = fold_left SQL.upsert_tag (SQL.ed_tags p) (tags t)
    /\ taggings t'
       = filter (fun r => negb (tagging_postId r =? id)) (taggings t)
         ++ map (fun name => {| tagName := name; tagging_postId := id |})
                (SQL.ed_tags p).
Proof.
  unfold SQL.edit, bind, lift, ret.
  destruct (int4in (SQL.ed_id p)) as [id|] eqn:Eid; [|discriminate].
  destruct (SQL.update_posts id _ _ _) as [updated|] eqn:Eu; [|discriminate].
  destruct (SQL.check_tagging_fkeys _ _); [|discriminate].
  intros H. injection H as _ <- _. exists id, updated. simpl.
  repeat split; auto.
Qed.

(** The tables after an edit request are the old ones or those of the
    committed statement. *)
Lemma put_posts_edit_store (req : edit_request) (d : db) :
  db_tables (store (put_posts_edit req d)) = db_tables d
  \/ exists rawTags sq rows,
       edit_tags req = Some rawTags /\
       SQL.edit {| SQL.ed_title := edit_title req;
                   SQL.ed_description := description_or_empty (edit_description req);
                   SQL.ed_id := params_id req;
                   SQL.ed_tags := edit_tags_of rawTags |}
                (db_tables d) (db_sequences d)
       = (sq, Ok (db_tables (store (put_posts_edit req d)), rows)).
Proof.
  unfold put_posts_edit. destruct (edit_tags req) as [rawTags|]; [|now left].
  unfold db_query, SQL.query.
  destruct (SQL.edit _ _ _) as [sq [[t' rows]|e]] eqn:E; simpl; [|now left].
  right. now exists rawTags, sq, rows.
Qed.

(** C10. After any edit request every post is in its place with the
    identity, Asset reference, User reference and creation timestamp it had
    before, and the rows of the Asset and User tables are untouched: in a
    post only title and description can have changed. *)
Theorem edit_keeps_references (req : edit_request) (d : db) :
  map references (posts (db_tables (store (put_posts_edit req d))))
    = map references (posts (db_tables d))
  /\ files (db_tables (store (put_posts_edit req d))) = files (db_tables d)
  /\ users (db_tables (store (put_posts_edit req d))) = users (db_tables d).
Proof.
  destruct (put_posts_edit_store req d) as [H|(rawTags & sq & rows & _ & H)].
  - now rewrite H.
  - apply edit_commits in H as (id & updated & _ & Hu & Hf & Hp & Hus & _).
    rewrite Hf, Hp, Hus. repeat split.
    now apply update_posts_references in Hu.
Qed.

(** ** The tag vocabulary *)

Lemma existsb_eqb_In (name : string) (l : list string) :
  existsb (String.eqb name) l = true <-> In name l.
Proof.
  rewrite existsb_exists. split.
  - intros (x & Hx & E). apply String.eqb_eq in E. now subst.
  - intros H. exists name. split; [exact H | apply String.eqb_refl].
Qed.

Lemma upsert_tag_present (vocabulary : list string) (name : string) :
  In name vocabulary -> SQL.upsert_tag vocabulary name = vocabulary.
Proof.
  intros H. unfold SQL.upsert_tag.
  apply existsb_eqb_In in H. now rewrite H.
Qed.

Lemma upsert_tag_NoDup (vocabulary : list string) (name : string) :
  NoDup vocabulary -> NoDup (SQL.upsert_tag vocabulary name).
Proof.
  intros H. unfold SQL.upsert_tag.
  destruct (existsb (String.eqb name) vocabulary) eqn:E; [exact H|].
  apply NoDup_rev in H. rewrite <- (rev_involutive (vocabulary ++ [name])).
  apply NoDup_rev. rewrite rev_app_distr. simpl. constructor; [|exact H].
  rewrite <- in_rev. intros Hin. apply existsb_eqb_In in Hin. congruence.
Qed.

Lemma upsert_tag_keeps (vocabulary : list string) (name x : string) :
  In x vocabulary -> In x (SQL.upsert_tag vocabulary name).
Proof.
  intros H. unfold SQL.upsert_tag.
  destruct (existsb _ _); [exact H | apply in_or_app; now left].
Qed.

Lemma upsert_all_present (names vocabulary : list string) :
  (forall n, In n names -> In n vocabulary) ->
  fold_left SQL.upsert_tag names vocabulary = vocabulary.
Proof.
  revert vocabulary; induction names as [|n names IH]; simpl; intros v H;
    [reflexivity|].
  rewrite upsert_tag_present by auto. apply IH. auto.
Qed.

Lemma upsert_all_NoDup (names vocabulary : list string) :
  NoDup vocabulary -> NoDup (fold_left SQL.upsert_tag names vocabulary).
Proof.
  revert vocabulary; induction names as [|n names IH]; simpl; intros v H;
    [exact H|].
  apply IH. now apply upsert_tag_NoDup.
Qed.

(** What a committed create statement has done to the vocabulary and the
    taggings. *)
Lemma upload_commits now (p : SQL.upload_params) (t t' : tables) sq sq' rows :
  SQL.upload now p t sq = (sq', Ok (t', rows)) ->
  exists new_post new_file,
    rows = [(new_post, new_file)]
    /\ existsb (fun r => postId r =? postId new_post) (posts t) = false
    /\ files t' = files t ++ [new_file]
    /\ posts t' = posts t ++ [new_post]
    /\ users t' = users t
    /\ tags t' = fold_left SQL.upsert_tag (SQL.up_tags p) (tags t)
    /\ taggings t'
       = taggings t
         ++ map (fun name => {| tagName := name;
                                tagging_postId := postId new_post |})
                (SQL.up_tags p).
Proof.
  unfold SQL.upload, bind, lift, ret.
  destruct (int4in_null (SQL.up_filePropsSound p)) as [sound|]; [|discriminate].
  destruct (int4in_null (SQL.up_filePropsLayerCount p)) as [layers|];
    [|discriminate].
  destruct (SQL.int4_param (SQL.up_userId p)) as [uid|]; [|discriminate].
  destruct (SQL.nextval_files sq) as [sq1 [fid|]]; [|discriminate].
  unfold SQL.insert_file at 1.
  destruct (existsb _ (files t)); [discriminate|].
  destruct (SQL.nextval_posts sq1) as [sq2 [pid|]]; [|discriminate].
  destruct (SQL.not_null "title" (SQL.up_title p)) as [ttl|]; [|discriminate].
  unfold SQL.insert_post at 1. simpl posts at 1.
  destruct (existsb _ (posts t)) eqn:Efresh; [discriminate|].
  destruct (SQL.check_post_fkeys _ _); [|discriminate].
  destruct (SQL.check_tagging_fkeys _ _); [|discriminate].
  intros H. injection H as _ <- <-.
  eexists _, _. simpl. repeat split; auto.
Qed.

Lemma post_upload_store now (req : upload_request) (d : db) :
  db_tables (store (post_upload now req d)) = db_tables d
  \/ exists rawTags sq rows,
       body_tags req = Some rawTags /\
       response (post_upload now req d) = Sent 200 rows /\
       SQL.upload now
         {| SQL.up_fileObjectKey := sar_key req;
            SQL.up_previewImagePath := thumbnail_location req;
            SQL.up_filePropsSound := body_filePropsSound req;
            SQL.up_filePropsName := body_filePropsName req;
            SQL.up_filePropsLayerCount := body_filePropsLayerCount req;
            SQL.up_userId := match req_userId req with None => 1 | Some u => u end;
            SQL.up_title := body_title req;
            SQL.up_description := description_or_empty (body_description req);
            SQL.up_tags := upload_tags rawTags |}
         (db_tables d) (db_sequences d)
       = (sq, Ok (db_tables (store (post_upload now req d)), rows)).
Proof.
  unfold post_upload. destruct (body_tags req) as [rawTags|]; [|now left].
  unfold db_query, SQL.query.
  destruct (SQL.upload _ _ _ _) as [sq [[t' rows]|e]] eqn:E; simpl; [|now left].
  right. now exists rawTags, sq, rows.
Qed.

(** A write leaves the vocabulary as it was or upserts the submitted
    names into it. *)
Lemma step_tags (d : db) (op : operation) :
  tags (db_tables (step d op)) = tags (db_tables d)
  \/ tags (db_tables (step d op))
     = fold_left SQL.upsert_tag (submitted op) (tags (db_tables d)).
Proof.
  destruct op as [now req|req]; simpl.
  - destruct (post_upload_store now req d)
      as [H|(rawTags & sq & rows & Ht & _ & H)]; [left; now rewrite H|].
    right. rewrite Ht.
    apply upload_commits in H as (? & ? & _ & _ & _ & _ & _ & H & _).
    exact H.
  - destruct (put_posts_edit_store req d)
      as [H|(rawTags & sq & rows & Ht & H)]; [left; now rewrite H|].
    right. rewrite Ht.
    apply edit_commits in H as (? & ? & _ & _ & _ & _ & _ & H & _).
    exact H.
Qed.

Lemma step_NoDup (d : db) (op : operation) :
  NoDup (tags (db_tables d)) -> NoDup (tags (db_tables (step d op))).
Proof.
  intros H. destruct (step_tags d op) as [E|E]; rewrite E;
    [exact H | now apply upsert_all_NoDup].
Qed.

Lemma run_NoDup (ops : list operation) (d : db) :
  NoDup (tags (db_tables d)) -> NoDup (tags (db_tables (run ops d))).
Proof.
  unfold run. revert d; induction ops as [|op ops IH]; simpl; intros d H;
    [exact H|].
  apply IH. now apply step_NoDup.
Qed.

Lemma upsert_all_keeps (names vocabulary : list string) (x : string) :
  In x vocabulary -> In x (fold_left SQL.upsert_tag names vocabulary).
Proof.
  revert vocabulary; induction names as [|n names IH]; simpl; intros v H;
    [exact H|].
  apply IH. now apply upsert_tag_keeps.
Qed.

Lemma run_keeps (ops : list operation) (d : db) (x : string) :
  In x (tags (db_tables d)) -> In x (tags (db_tables (run ops d))).
Proof.
  unfold run. revert d; induction ops as [|op ops IH]; simpl; intros d H;
    [exact H|].
  apply IH. destruct (step_tags d op) as [E|E]; rewrite E;
    [exact H | now apply upsert_all_keeps].
Qed.

(** C9. Starting from a vocabulary without repeated names, after any
    sequence of create and edit requests the Tag table still has no two
    rows with the same name and has kept every name it had; and a further
    request all of whose tag names are already there leaves the Tag table
    exactly as it is.  The upsert itself has no failing case. *)
Theorem tag_upsert_idempotent (ops : list operation) (d : db) :
  NoDup (tags (db_tables d)) ->
  NoDup (tags (db_tables (run ops d)))
  /\ (forall n, In n (tags (db_tables d)) -> In n (tags (db_tables (run ops d))))
  /\ forall op,
       (forall n, In n (submitted op) -> In n (tags (db_tables (run ops d)))) ->
       tags (db_tables (step (run ops d) op)) = tags (db_tables (run ops d)).
Proof.
  intros H. split; [now apply run_NoDup|]. split; [apply run_keeps|].
  intros op Hin. destruct (step_tags (run ops d) op) as [E|E]; rewrite E;
    [reflexivity | now apply upsert_all_present].
Qed.

Lemma distinct_names_NoDup (l : list string) :
  distinct_names l = true -> NoDup l.
Proof.
  induction l as [|x l IH]; simpl; [constructor|].
  intros H. apply andb_prop in H as [Hx Hl]. constructor; [|now apply IH].
  intros Hin. apply existsb_eqb_In in Hin. rewrite Hin in Hx. discriminate.
Qed.

Lemma tag_upsert_idempotent_witness :
  let once := [Create 1700000000 Sample.tagged_upload] in
  let again := Create 1700000100 Sample.tagged_upload in
  NoDup (tags (db_tables Sample.dump))
  /\ NoDup (tags (db_tables (run once Sample.dump)))
  /\ tags (db_tables (step (run once Sample.dump) again))
     = tags (db_tables (run once Sample.dump)).
Proof.
  intros once again.
  assert (H : NoDup (tags (db_tables Sample.dump)))
    by (apply distinct_names_NoDup; reflexivity).
  split; [exact H|].
  destruct (tag_upsert_idempotent once Sample.dump H) as (Hd & _ & Hsame).
  split; [exact Hd|].
  apply Hsame. intros n Hn. vm_compute in Hn. vm_compute. tauto.
Defined.

(** ** The inner join with ["tag_arrays"] *)

Lemma distinct_In (x : Z) (l : list Z) : In x (SQL.distinct l) <-> In x l.
Proof.
  induction l as [|y l IH]; simpl; [tauto|].
  rewrite filter_In, IH, negb_true_iff, Z.eqb_neq.
  destruct (Z.eq_dec y x); intuition congruence.
Qed.

Lemma tag_arrays_In (ts : list tagging_row) (id : Z) (names : list string) :
  In (id, names) (SQL.tag_arrays ts)
  <-> In id (map tagging_postId ts)
      /\ names = map tagName (filter (fun r => tagging_postId r =? id) ts).
Proof.
  unfold SQL.tag_arrays. rewrite in_map_iff. split.
  - intros (k & E & Hk). injection E as -> <-.
    rewrite distinct_In in Hk. split; [exact Hk | reflexivity].
  - intros (Hid & ->). exists id. now rewrite distinct_In.
Qed.

(** Every row of the projection belongs to a post that has a tagging. *)
Lemma formatted_posts_tagged (t : tables) (v : SQL.Projection.t) :
  In v (SQL.formatted_posts t) ->
  exists r, In r (taggings t) /\ tagging_postId r = SQL.Projection.postId v.
Proof.
  unfold SQL.formatted_posts, SQL.joined_posts, SQL.stored_arrays.
  intros H.
  apply in_flat_map in H as (p & _ & H).
  apply in_flat_map in H as (f & _ & H).
  apply in_flat_map in H as (u & _ & H).
  apply in_map_iff in H as ((id & names) & <- & H).
  apply filter_In in H as (H & E). simpl in E. apply Z.eqb_eq in E.
  apply in_map_iff in H as ((id' & names') & E' & H).
  injection E' as -> _.
  apply tag_arrays_In in H as (H & _).
  apply in_map_iff in H as (r & Er & Hr).
  exists r. split; [exact Hr|]. simpl. congruence.
Qed.

Lemma reading_response {R Body} (f : tables -> result R) (d : db)
    (k : result R -> outcome Body) :
  response (db_query (SQL.reading f) d k) = k (f (db_tables d)).
Proof.
  destruct (db_query_response (SQL.reading f) d k) as (-> & _).
  now destruct (reading_keeps_tables f d) as (_ & ->).
Qed.

Lemma Sent_inj {Body} (s s' : nat) (a b : Body) :
  Sent s a = Sent s' b -> a = b.
Proof. congruence. Qed.

Lemma skipn_In {T} (n : nat) (l : list T) (x : T) : In x (skipn n l) -> In x l.
Proof.
  intros H. rewrite <- (firstn_skipn n l). apply in_or_app; now right.
Qed.

Section UntaggedPost.
Variable d : db.
Variable p : post_row.
Hypothesis untagged :
  forall r, In r (taggings (db_tables d)) -> tagging_postId r <> postId p.

Lemma untagged_not_formatted (v : SQL.Projection.t) :
  In v (SQL.formatted_posts (db_tables d)) ->
  SQL.Projection.postId v <> postId p.
Proof.
  intros H E. apply formatted_posts_tagged in H as (r & Hr & Er).
  apply (untagged r Hr). congruence.
Qed.

Lemma untagged_not_in_catalog (rows : list SQL.Projection.t) :
  response (get_catalog d) = Sent 200 rows ->
  forall v, In v rows -> SQL.Projection.postId v <> postId p.
Proof.
  unfold get_catalog. rewrite reading_response. unfold SQL.catalog.
  intros [= <-] v Hv. apply order_by_In in Hv. now apply untagged_not_formatted.
Qed.

Lemma untagged_not_in_page (offset : string) (rows : list SQL.Projection.t) :
  response (get_catalog_offset offset d) = Sent 200 rows ->
  forall v, In v rows -> SQL.Projection.postId v <> postId p.
Proof.
  unfold get_catalog_offset. rewrite reading_response. unfold SQL.catalog_offset.
  destruct (int8in offset) as [n|]; [|discriminate].
  destruct (n <? 0); [discriminate|].
  intros H v Hv. apply Sent_inj in H. subst rows.
  apply firstn_In, skipn_In, order_by_In in Hv.
  now apply untagged_not_formatted.
Qed.

Lemma untagged_view_not_found (Number : string -> JS.number) (id : string) :
  @check_id Number SQL.Projection.t id = None ->
  int4in id = Ok (postId p) ->
  response (get_posts_view Number id d)
  = ClientError 404 ("unable to find entry with id: " ++ id)%string.
Proof.
  intros Hc Hid. unfold get_posts_view. rewrite Hc, reading_response.
  unfold SQL.view. rewrite Hid.
  destruct (filter _ _) as [|v l] eqn:E; [reflexivity|].
  assert (Hv : In v (v :: l)) by now left.
  rewrite <- E in Hv. apply filter_In in Hv as (Hv & Ev).
  apply Z.eqb_eq in Ev. now apply untagged_not_formatted in Hv.
Qed.

End UntaggedPost.

(** C4 (what the code does instead). A post without taggings is in no row
    of the full listing and of the offset listing, and looking it up by
    its identity answers not-found, although the post is stored: the
    projection joins ["tag_arrays"] with an inner join. *)
Theorem untagged_post_is_dropped (Number : string -> JS.number) (d : db)
    (p : post_row) (id offset : string) :
  In p (posts (db_tables d)) ->
  (forall r, In r (taggings (db_tables d)) -> tagging_postId r <> postId p) ->
  @check_id Number SQL.Projection.t id = None ->
  int4in id = Ok (postId p) ->
  (exists rows, response (get_catalog d) = Sent 200 rows
     /\ forall v, In v rows -> SQL.Projection.postId v <> postId p)
  /\ (forall rows, response (get_catalog_offset offset d) = Sent 200 rows ->
        forall v, In v rows -> SQL.Projection.postId v <> postId p)
  /\ response (get_posts_view Number id d)
     = ClientError 404 ("unable to find entry with id: " ++ id)%string.
Proof.
  intros _ Hun Hc Hid. repeat split.
  - eexists. split; [unfold get_catalog; rewrite reading_response; reflexivity|].
    apply (untagged_not_in_catalog d p Hun).
    unfold get_catalog. now rewrite reading_response.
  - intros rows. exact (untagged_not_in_page d p Hun offset rows).
  - exact (untagged_view_not_found d p Hun Number id Hc Hid).
Qed.

Lemma untagged_post_is_dropped_witness :
  let d := store (put_posts_edit (Sample.edit_of "4" []) Sample.dump) in
  map postId (posts (db_tables d)) = [4; 6]
  /\ (exists rows, response (get_catalog d) = Sent 200 rows
        /\ forall v, In v rows -> SQL.Projection.postId v <> 4)
  /\ (forall rows, response (get_catalog_offset "0" d) = Sent 200 rows ->
        forall v, In v rows -> SQL.Projection.postId v <> 4)
  /\ response (get_posts_view Sample.Number "4" d)
     = ClientError 404 "unable to find entry with id: 4".
Proof.
  intros d. split; [reflexivity|].
  apply (untagged_post_is_dropped Sample.Number d
           {| postId := 4; post_fileId := 4; post_userId := 1;
              createdAt := 1654213670; title := "Lobby Grinding";
              description := Some "Drake Meme" |} "4" "0").
  - left. reflexivity.
  - intros r Hr. vm_compute in Hr.
    destruct Hr as [<-|[<-|[]]]; simpl; discriminate.
  - reflexivity.
  - reflexivity.
Defined.

(** ** Search and the tags of a post *)

Lemma search_rows_formatted (fts : SQL.text_search) cfg q t rows :
  SQL.search fts cfg q t = Ok rows ->
  forall r, In r rows -> In (SQL.found r) (SQL.formatted_posts t).
Proof.
  unfold SQL.search. intros H r Hr. apply Ok_inj in H. subst rows.
  apply firstn_In, order_by_In, in_flat_map in Hr as ((id & rk) & _ & Hr).
  simpl in Hr. destruct (SQL.above_threshold rk); [|contradiction].
  apply in_map_iff in Hr as (v & <- & Hv). simpl.
  now apply filter_In in Hv as (Hv & _).
Qed.

Lemma search_response (fts : SQL.text_search) (q cols : option string)
    (d : db) (rows : list SQL.search_row) :
  response (get_posts_search fts q cols d) = Sent 200 rows ->
  SQL.search fts (columns_of (JS.value cols)) (JS.value q) (db_tables d)
  = Ok rows.
Proof.
  unfold get_posts_search.
  destruct (JS.falsy q); [discriminate|].
  destruct (JS.falsy cols); [discriminate|].
  match goal with |- context [if ?c then _ else _] => destruct c end;
    [discriminate|].
  rewrite reading_response.
  destruct (SQL.search _ _ _ _) as [found|e]; [|discriminate].
  intros H. apply Sent_inj in H. now subst.
Qed.

(** C2 (what the code does instead). Whatever columns are enabled, also
    when ["tags"] is not among them, a post without taggings is in no
    search result: taking the last tag off a post removes it from the
    results of a search on its title. *)
Theorem search_drops_untagged_post (fts : SQL.text_search)
    (q cols : option string) (d : db) (p : post_row)
    (rows : list SQL.search_row) :
  (forall r, In r (taggings (db_tables d)) -> tagging_postId r <> postId p) ->
  response (get_posts_search fts q cols d) = Sent 200 rows ->
  forall r, In r rows -> SQL.Projection.postId (SQL.found r) <> postId p.
Proof.
  intros Hun H r Hr. apply search_response in H.
  apply (untagged_not_formatted d p Hun).
  exact (search_rows_formatted fts _ _ _ rows H r Hr).
Qed.

Lemma search_drops_untagged_post_witness :
  let before := Sample.dump in
  let after := store (put_posts_edit Sample.untag_rappy Sample.dump) in
  let q := Some "rappy" in
  let cols := Some "title" in
  (files (db_tables after) = files (db_tables before)
   /\ posts (db_tables after) = posts (db_tables before)
   /\ users (db_tables after) = users (db_tables before)
   /\ tags (db_tables after) = tags (db_tables before))
  /\ (exists rows,
        response (get_posts_search Sample.word_search q cols before)
          = Sent 200 rows
        /\ map (fun r => (SQL.Projection.postId (SQL.found r), SQL.ranks r)) rows
           = [(6, 1 # 1)])
  /\ (exists rows,
        response (get_posts_search Sample.word_search q cols after)
          = Sent 200 rows
        /\ forall r, In r rows -> SQL.Projection.postId (SQL.found r) <> 6).
Proof.
  intros before after q cols. split; [repeat split|]. split.
  - eexists. split; [vm_compute; reflexivity | reflexivity].
  - eexists. split; [vm_compute; reflexivity|].
    apply (search_drops_untagged_post Sample.word_search q cols after
             Sample.rappy_post).
    + intros r Hr. vm_compute in Hr. destruct Hr as [<-|[<-|[]]]; simpl; discriminate.
    + vm_compute. reflexivity.
Defined.

(** ** Edit: identities that match no post, or are no identity *)

Lemma update_posts_miss id ttl descr (l : list post_row) :
  existsb (fun p => postId p =? id) l = false ->
  SQL.update_posts id ttl descr l = Ok l.
Proof.
  induction l as [|p l IH]; simpl; [reflexivity|].
  intros H. apply orb_false_elim in H as [Hp Hl].
  unfold SQL.update_post. rewrite Hp, (IH Hl). reflexivity.
Qed.

Lemma filter_none {T} (f : T -> bool) (l : list T) :
  (forall x, In x l -> f x = false) -> filter f l = [].
Proof.
  induction l as [|x l IH]; simpl; intros H; [reflexivity|].
  rewrite (H x) by now left. apply IH. auto.
Qed.

Lemma joined_posts_post (t : tables) arrays (v : SQL.Projection.t) :
  In v (SQL.joined_posts t arrays) ->
  exists p, In p (posts t) /\ postId p = SQL.Projection.postId v.
Proof.
  unfold SQL.joined_posts. intros H.
  apply in_flat_map in H as (p & Hp & H).
  apply in_flat_map in H as (f & _ & H).
  apply in_flat_map in H as (u & _ & H).
  apply in_map_iff in H as (a & <- & _).
  now exists p.
Qed.

Lemma missing_post_not_joined (t : tables) arrays (id : Z) :
  existsb (fun p => postId p =? id) (posts t) = false ->
  filter (fun v => SQL.Projection.postId v =? id) (SQL.joined_posts t arrays) = [].
Proof.
  intros H. apply filter_none. intros v Hv.
  apply joined_posts_post in Hv as (p & Hp & E).
  apply Z.eqb_neq. intros Eid.
  assert (Hex : existsb (fun p => postId p =? id) (posts t) = true).
  { apply existsb_exists. exists p. split; [exact Hp|]. apply Z.eqb_eq. congruence. }
  congruence.
Qed.

(** C6 (what the code does instead). An edit request whose identity is a
    well-formed integer matching no post never signals not-found: with an
    empty tag list it reports success with no row, and with any tag the
    statement fails on the foreign key of the new taggings and the
    rejection is left unhandled. *)
Theorem edit_missing_post_not_signalled (req : edit_request) (d : db)
    (id : Z) (rawTags : list string) :
  edit_tags req = Some rawTags ->
  int4in (params_id req) = Ok id ->
  existsb (fun p => postId p =? id) (posts (db_tables d)) = false ->
  response (put_posts_edit req d)
  = match rawTags with
    | [] => Sent 200 []
    | _ :: _ =>
        Unhandled (JS.StoreError (foreign_key_violation "taggings_postId_fkey"))
    end.
Proof.
  intros Ht Hid Hmiss. unfold put_posts_edit. rewrite Ht.
  unfold db_query, SQL.query, SQL.edit, bind, lift, ret.
  cbn [SQL.ed_id SQL.ed_title SQL.ed_description SQL.ed_tags].
  rewrite Hid, (update_posts_miss _ _ _ _ Hmiss).
  destruct rawTags as [|name rest].
  - cbn [edit_tags_of map SQL.check_tagging_fkeys response].
    now rewrite (missing_post_not_joined _ _ _ Hmiss).
  - cbn [edit_tags_of map SQL.check_tagging_fkeys].
    unfold SQL.tagging_fkeys_ok.
    cbn [SQL.add_taggings SQL.upsert_tags posts tagging_postId].
    rewrite Hmiss. reflexivity.
Qed.

Lemma edit_missing_post_not_signalled_witness :
  response (put_posts_edit (Sample.edit_of "999" []) Sample.dump) = Sent 200 []
  /\ response (put_posts_edit (Sample.edit_of "999" ["pso2"]) Sample.dump)
     = Unhandled (JS.StoreError (foreign_key_violation "taggings_postId_fkey")).
Proof.
  split.
  - apply (edit_missing_post_not_signalled (Sample.edit_of "999" [])
             Sample.dump 999 []); reflexivity.
  - apply (edit_missing_post_not_signalled (Sample.edit_of "999" ["pso2"])
             Sample.dump 999 ["pso2"]); reflexivity.
Defined.

(** The checks of the handlers that have them. *)
Lemma check_id_rejects (Number : string -> JS.number) {Body} (id : string) :
  JS.isNaN (Number id) = true
  \/ JS.ge (Number id) 1 = false
  \/ JS.le (Number id) 2147483647 = false ->
  exists message, @check_id Number Body id = Some (ClientError 400 message).
Proof.
  unfold check_id. intros [H|[H|H]]; rewrite H;
    destruct (JS.isNaN (Number id)); rewrite ?orb_true_r; simpl; eauto.
Qed.

(** Get post, download asset and list by owner turn down an identity that
    is not a number or lies outside [1, 2147483647] before they send
    anything to the store. *)
Lemma checked_handlers_reject (Number : string -> JS.number)
    (download : string -> string -> string) (id : string) (d : db) :
  JS.isNaN (Number id) = true
  \/ JS.ge (Number id) 1 = false
  \/ JS.le (Number id) 2147483647 = false ->
  (exists message,
     get_posts_view Number id d = without_query (ClientError 400 message) d)
  /\ (exists message,
        get_posts_download Number download id d
        = without_query (ClientError 400 message) d)
  /\ (exists message,
        get_catalog_user Number id d = without_query (ClientError 400 message) d).
Proof.
  intros H. repeat split.
  - destruct (check_id_rejects Number (Body := SQL.Projection.t) id H) as (m & E).
    exists m. unfold get_posts_view. now rewrite E.
  - destruct (check_id_rejects Number (Body := string) id H) as (m & E).
    exists m. unfold get_posts_download. now rewrite E.
  - destruct (check_id_rejects Number (Body := SQL.user_catalog) id H) as (m & E).
    exists m. unfold get_catalog_user. now rewrite E.
Qed.

(** The four identities of the specification's example, at the lookup of
    a post: each is turned down with status 400 and nothing is sent to the
    store. *)
Example view_rejects_bad_identities :
  let rejected id message :=
    get_posts_view Sample.Number id Sample.dump
    = without_query (ClientError 400 message) Sample.dump in
  rejected "0" "integer out of bounds"
  /\ rejected "-1" "integer out of bounds"
  /\ rejected "2147483648" "integer out of bounds"
  /\ rejected "abc" "please provide a valid post ID (number)".
Proof. repeat split. Qed.

(** C7 (what the code does instead). The edit handler has no check of the
    identity: whatever the route parameter is, a request with a tag list
    sends its statement to the store and never ends in a client error. *)
Theorem edit_takes_any_identity (req : edit_request) (d : db)
    (rawTags : list string) :
  edit_tags req = Some rawTags ->
  queries (put_posts_edit req d) = 1%nat
  /\ forall status message,
       response (put_posts_edit req d) <> ClientError status message.
Proof.
  intros Ht. unfold put_posts_edit. rewrite Ht.
  match goal with |- context [db_query ?s d ?k] =>
    destruct (db_query_response s d k) as (Hr & _ & Hq); rewrite Hr, Hq
  end.
  split; [reflexivity|].
  intros status message. now destruct (snd (SQL.query _ d)).
Qed.

Lemma edit_takes_any_identity_witness :
  let outcome_of id := put_posts_edit (Sample.edit_of id []) Sample.dump in
  (queries (outcome_of "0") = 1%nat
   /\ forall status message,
        response (outcome_of "0") <> ClientError status message)
  /\ response (outcome_of "0") = Sent 200 []
  /\ response (outcome_of "-1") = Sent 200 []
  /\ response (outcome_of "2147483648")
     = Unhandled (JS.StoreError numeric_value_out_of_range)
  /\ response (outcome_of "abc")
     = Unhandled (JS.StoreError invalid_text_representation).
Proof.
  intros outcome_of. split; [|repeat split].
  apply (edit_takes_any_identity (Sample.edit_of "0" []) Sample.dump []).
  reflexivity.
Defined.

(** ** Download *)

(** C8 (what the code does instead). A download request whose identity
    passes the checks and matches no post does not signal not-found: the
    test [!reSQL.rows] never holds, the handler takes the first row of an
    empty result apart, and the rejection is left unhandled. *)
Theorem download_missing_post_unhandled (Number : string -> JS.number)
    (download : string -> string -> string) (id : string) (d : db) (n : Z) :
  @check_id Number string id = None ->
  int4in id = Ok n ->
  existsb (fun p => postId p =? n) (posts (db_tables d)) = false ->
  response (get_posts_download Number download id d)
  = Unhandled
      (JS.TypeError "[{ fileObjectKey, title }] = reSQL.rows").
Proof.
  intros Hc Hid Hmiss. unfold get_posts_download.
  rewrite Hc, reading_response. unfold SQL.download. rewrite Hid.
  rewrite filter_none; [reflexivity|].
  intros p Hp. apply Z.eqb_neq. intros E.
  assert (Hex : existsb (fun p => postId p =? n) (posts (db_tables d)) = true).
  { apply existsb_exists. exists p. split; [exact Hp | now apply Z.eqb_eq]. }
  congruence.
Qed.

Lemma download_missing_post_unhandled_witness :
  response (get_posts_download Sample.Number Sample.download "999" Sample.dump)
  = Unhandled
      (JS.TypeError "[{ fileObjectKey, title }] = reSQL.rows").
Proof.
  apply (download_missing_post_unhandled Sample.Number Sample.download "999"
           Sample.dump 999); reflexivity.
Defined.

(** When the statement finds the post, the answer is a redirection to the
    locator [download] makes for the stored key, named after the title. *)
Lemma download_found_redirects (Number : string -> JS.number)
    (download : string -> string -> string) (id : string) (d : db)
    (key ttl : string) (rest : list (string * string)) :
  @check_id Number string id = None ->
  SQL.download id (db_tables d) = Ok ((key, ttl) :: rest) ->
  response (get_posts_download Number download id d)
  = Redirected (download key (ttl ++ ".sar")%string).
Proof.
  intros Hc Hq. unfold get_posts_download.
  now rewrite Hc, reading_response, Hq.
Qed.

(** ** The tags a post ends up with *)

Lemma split_not_empty (sep : ascii) (s : string) : JS.split sep s <> [].
Proof.
  destruct s as [|c r]; simpl; [discriminate|].
  destruct (Ascii.eqb c sep); [discriminate|].
  destruct (JS.split sep r); discriminate.
Qed.

Lemma post_upload_sent now (req : upload_request) (d : db) rows :
  response (post_upload now req d) = Sent 200 rows ->
  exists rawTags sq,
    body_tags req = Some rawTags /\
    SQL.upload now
      {| SQL.up_fileObjectKey := sar_key req;
         SQL.up_previewImagePath := thumbnail_location req;
         SQL.up_filePropsSound := body_filePropsSound req;
         SQL.up_filePropsName := body_filePropsName req;
         SQL.up_filePropsLayerCount := body_filePropsLayerCount req;
         SQL.up_userId := match req_userId req with None => 1 | Some u => u end;
         SQL.up_title := body_title req;
         SQL.up_description := description_or_empty (body_description req);
         SQL.up_tags := upload_tags rawTags |}
      (db_tables d) (db_sequences d)
    = (sq, Ok (db_tables (store (post_upload now req d)), rows)).
Proof.
  unfold post_upload. destruct (body_tags req) as [rawTags|]; [|discriminate].
  unfold db_query, SQL.query.
  destruct (SQL.upload _ _ _ _) as [sq [[t' found]|e]] eqn:E; simpl;
    [|discriminate].
  intros H. apply Sent_inj in H. subst found. now exists rawTags, sq.
Qed.

Lemma put_posts_edit_sent (req : edit_request) (d : db) rows :
  response (put_posts_edit req d) = Sent 200 rows ->
  exists rawTags sq,
    edit_tags req = Some rawTags /\
    SQL.edit {| SQL.ed_title := edit_title req;
                SQL.ed_description := description_or_empty (edit_description req);
                SQL.ed_id := params_id req;
                SQL.ed_tags := edit_tags_of rawTags |}
             (db_tables d) (db_sequences d)
    = (sq, Ok (db_tables (store (put_posts_edit req d)), rows)).
Proof.
  unfold put_posts_edit. destruct (edit_tags req) as [rawTags|]; [|discriminate].
  unfold db_query, SQL.query.
  destruct (SQL.edit _ _ _) as [sq [[t' found]|e]] eqn:E; simpl; [|discriminate].
  intros H. apply Sent_inj in H. subst found. now exists rawTags, sq.
Qed.

(** The taggings a statement adds for one post, read back. *)
Lemma added_taggings_read_back (old : list tagging_row) (id : Z)
    (names : list string) :
  filter (fun r => tagging_postId r =? id) old = [] ->
  map tagName
    (filter (fun r => tagging_postId r =? id)
       (old ++ map (fun name => {| tagName := name; tagging_postId := id |})
                   names))
  = names.
Proof.
  intros Hold. rewrite filter_app, Hold. simpl.
  induction names as [|n names IH]; simpl; [reflexivity|].
  rewrite Z.eqb_refl. simpl. now rewrite IH.
Qed.

Lemma added_taggings_group (old : list tagging_row) (id : Z)
    (names : list string) :
  names <> [] ->
  In id (map tagging_postId
           (old ++ map (fun name => {| tagName := name; tagging_postId := id |})
                       names)).
Proof.
  intros Hne. rewrite map_app. apply in_or_app. right.
  destruct names as [|n names]; [congruence|]. now left.
Qed.

Lemma fresh_post_untagged (t : tables) (id : Z) :
  taggings_reference_posts t = true ->
  existsb (fun p => postId p =? id) (posts t) = false ->
  filter (fun r => tagging_postId r =? id) (taggings t) = [].
Proof.
  unfold taggings_reference_posts. rewrite forallb_forall. intros Hfk Hfresh.
  apply filter_none. intros r Hr. apply Z.eqb_neq. intros E.
  specialize (Hfk r Hr). rewrite E in Hfk. congruence.
Qed.

Lemma deleted_taggings_gone (ts : list tagging_row) (id : Z) :
  filter (fun r => tagging_postId r =? id)
         (filter (fun r => negb (tagging_postId r =? id)) ts) = [].
Proof.
  apply filter_none. intros r Hr. apply filter_In in Hr as (_ & Hr).
  now apply negb_true_iff in Hr.
Qed.

(** C3 (as the code has it). The tag sequence of a post after a create is
    the pieces of the comma-separated input, each trimmed, in input order,
    and after an edit it is the submitted array, each entry trimmed (no
    sequence at all for the empty array): nothing is discarded and nothing
    is merged. *)
Theorem tags_are_the_trimmed_tokens :
  (forall now req d rawTags rows,
     taggings_reference_posts (db_tables d) = true ->
     body_tags req = Some rawTags ->
     response (post_upload now req d) = Sent 200 rows ->
     exists p f,
       rows = [(p, f)] /\
       forall names,
         In (postId p, names)
            (SQL.tag_arrays (taggings (db_tables (store (post_upload now req d)))))
         <-> names = map JS.trim (JS.split "," rawTags))
  /\ (forall req d rawTags rows,
        edit_tags req = Some rawTags ->
        response (put_posts_edit req d) = Sent 200 rows ->
        exists id,
          int4in (params_id req) = Ok id /\
          forall names,
            In (id, names)
               (SQL.tag_arrays (taggings (db_tables (store (put_posts_edit req d)))))
            <-> rawTags <> [] /\ names = map JS.trim rawTags).
Proof.
  split.
  - intros now req d rawTags rows Hfk Ht Hs.
    apply post_upload_sent in Hs as (raw & sq & Ht' & Hs).
    rewrite Ht in Ht'. injection Ht' as <-.
    apply upload_commits in Hs
      as (p & f & -> & Hfresh & _ & _ & _ & _ & Htg).
    exists p, f. split; [reflexivity|]. intros names.
    rewrite tag_arrays_In, Htg. cbn [SQL.up_tags].
    rewrite added_taggings_read_back by now apply fresh_post_untagged.
    unfold upload_tags. split; [intros (_ & ->); reflexivity|].
    intros ->. split; [|reflexivity].
    apply added_taggings_group. intros E. apply map_eq_nil in E.
    now apply split_not_empty in E.
  - intros req d rawTags rows Ht Hs.
    apply put_posts_edit_sent in Hs as (raw & sq & Ht' & Hs).
    rewrite Ht in Ht'. injection Ht' as <-.
    apply edit_commits in Hs as (id & updated & Hid & _ & _ & _ & _ & _ & Htg).
    exists id. split; [exact Hid|]. intros names.
    rewrite tag_arrays_In, Htg. cbn [SQL.ed_id SQL.ed_tags].
    rewrite added_taggings_read_back by apply deleted_taggings_gone.
    unfold edit_tags_of. split.
    + intros (Hin & ->). split; [|reflexivity]. intros ->.
      simpl in Hin. rewrite app_nil_r in Hin.
      apply in_map_iff in Hin as (r & Er & Hr).
      apply filter_In in Hr as (_ & Hr).
      apply negb_true_iff, Z.eqb_neq in Hr. congruence.
    + intros (Hne & ->). split; [|reflexivity].
      apply added_taggings_group. intros E. apply map_eq_nil in E. congruence.
Qed.

Lemma tags_are_the_trimmed_tokens_witness :
  (exists p f,
     response (post_upload 1700000000 Sample.tagged_upload Sample.dump)
       = Sent 200 [(p, f)] /\
     forall names,
       In (postId p, names)
          (SQL.tag_arrays
             (taggings (db_tables
                (store (post_upload 1700000000 Sample.tagged_upload Sample.dump)))))
       <-> names = map JS.trim (JS.split "," "pso2, pso2 , meme,  "))
  /\ (exists id,
        int4in "4" = Ok id /\
        forall names,
          In (id, names)
             (SQL.tag_arrays
                (taggings (db_tables
                   (store (put_posts_edit
                             (Sample.edit_of "4" [" meme "; "meme"; " "])
                             Sample.dump)))))
          <-> [" meme "; "meme"; " "] <> []
              /\ names = map JS.trim [" meme "; "meme"; " "]).
Proof.
  destruct tags_are_the_trimmed_tokens as [Hcreate Hedit]. split.
  - destruct (Hcreate 1700000000 Sample.tagged_upload Sample.dump
                "pso2, pso2 , meme,  "
                (match response (post_upload 1700000000 Sample.tagged_upload
                                   Sample.dump) with
                 | Sent _ rows => rows
                 | _ => []
                 end))
      as (p & f & Hrows & Hnames); try reflexivity.
    exists p, f. split; [|exact Hnames].
    rewrite <- Hrows. reflexivity.
  - apply (Hedit (Sample.edit_of "4" [" meme "; "meme"; " "]) Sample.dump
             [" meme "; "meme"; " "]
             (match response (put_posts_edit
                                (Sample.edit_of "4" [" meme "; "meme"; " "])
                                Sample.dump) with
              | Sent _ rows => rows
              | _ => []
              end)); reflexivity.
Defined.

(** The claim of C3 fails at the input of the specification's own example:
    the create request with the tag string ["pso2, pso2 , meme,  "] leaves
    post 9 with the tags pso2, pso2, meme and the empty string, where
    trimming, discarding and deduplicating would leave pso2 and meme. *)
Lemma tags_are_not_normalized :
  let d := store (post_upload 1700000000 Sample.tagged_upload Sample.dump) in
  SQL.view "9" (db_tables d)
    = Ok [ {| SQL.Projection.title := "Matoi";
              SQL.Projection.description := Some "episode 2";
              SQL.Projection.username := "admin";
              SQL.Projection.fileObjectKey := "77aa.sar";
              SQL.Projection.previewImagePath :=
                "https://symbol-art-vault.s3.us-west-1.amazonaws.com/77aa.png";
              SQL.Projection.filePropsName := None;
              SQL.Projection.filePropsSound := Some 3;
              SQL.Projection.filePropsLayerCount := Some 64;
              SQL.Projection.postId := 9;
              SQL.Projection.userId := 1;
              SQL.Projection.createdAt := 1700000000;
              SQL.Projection.tags :=
                Some ["pso2"; "pso2"; "meme"; EmptyString] |} ]
  /\ spec_normalize (JS.split "," "pso2, pso2 , meme,  ") = ["pso2"; "meme"]
  /\ upload_tags "pso2, pso2 , meme,  "
     <> spec_normalize (JS.split "," "pso2, pso2 , meme,  ")
  /\ edit_tags_of ["pso2"; " pso2 "; "meme"; "  "]
     <> spec_normalize ["pso2"; " pso2 "; "meme"; "  "].
Proof.
  intros d. repeat split; try reflexivity; vm_compute; discriminate.
Qed.

(** ** Search with tagged posts: the disabled columns do not count *)

Section Forall2.
Context {X Y X' Y' : Type}.
Variable R : X -> Y -> Prop.
Variable S : X' -> Y' -> Prop.

Lemma Forall2_flat_map (f : X -> list X') (g : Y -> list Y') l1 l2 :
  Forall2 R l1 l2 ->
  (forall a b, R a b -> Forall2 S (f a) (g b)) ->
  Forall2 S (flat_map f l1) (flat_map g l2).
Proof.
  intros H Hfg; induction H; simpl; [constructor|].
  apply Forall2_app; auto.
Qed.

Lemma Forall2_map (f : X -> X') (g : Y -> Y') l1 l2 :
  Forall2 R l1 l2 ->
  (forall a b, R a b -> S (f a) (g b)) ->
  Forall2 S (map f l1) (map g l2).
Proof.
  intros H Hfg; induction H; simpl; constructor; auto.
Qed.

Lemma Forall2_filter (p : X -> bool) (q : Y -> bool) l1 l2 :
  Forall2 R l1 l2 ->
  (forall a b, R a b -> p a = q b) ->
  Forall2 R (filter p l1) (filter q l2).
Proof.
  intros H Hpq; induction H as [|a b l1 l2 Hab H IH]; simpl; [constructor|].
  rewrite (Hpq a b Hab). destruct (q b); [constructor|]; auto.
Qed.

Lemma Forall2_firstn (n : nat) l1 l2 :
  Forall2 R l1 l2 -> Forall2 R (firstn n l1) (firstn n l2).
Proof.
  intros H; revert n; induction H; intros [|n]; simpl; constructor; auto.
Qed.

Lemma Forall2_order_by (leb : X -> X -> bool) (leb' : Y -> Y -> bool) l1 l2 :
  (forall a a' b b', R a a' -> R b b' -> leb a b = leb' a' b') ->
  Forall2 R l1 l2 ->
  Forall2 R (SQL.order_by leb l1) (SQL.order_by leb' l2).
Proof.
  intros Hleb.
  assert (ins : forall x y m1 m2, R x y -> Forall2 R m1 m2 ->
            Forall2 R (SQL.insert_by leb x m1) (SQL.insert_by leb' y m2)).
  { intros x y m1 m2 Hxy H; induction H as [|a b m1 m2 Hab H IH]; simpl.
    - repeat constructor; exact Hxy.
    - rewrite (Hleb x y a b Hxy Hab).
      destruct (leb' y b); repeat constructor; auto. }
  intros H; induction H; simpl; [constructor | now apply ins].
Qed.

End Forall2.

Lemma Forall2_diagonal {X} (R : X -> X -> Prop) (l : list X) :
  (forall x, R x x) -> Forall2 R l l.
Proof. intros H; induction l; constructor; auto. Qed.

Lemma Forall2_same {X} (l : list X) : Forall2 eq l l.
Proof. now apply Forall2_diagonal. Qed.

Lemma Forall2_equal {X} (l1 l2 : list X) : Forall2 eq l1 l2 -> l1 = l2.
Proof. induction 1; congruence. Qed.

Section DisabledColumns.
Variable fts : SQL.text_search.
Variable cfg : SQL.columnsConfig.
Variable q : string.
Variables t1 t2 : tables.
Hypothesis agree : differ_in_disabled cfg t1 t2.

Lemma weights_agree p1 p2 u1 u2 a1 a2 :
  same_post cfg p1 p2 -> same_user cfg u1 u2 -> same_tags cfg a1 a2 ->
  SQL.weights fts cfg p1 u1 (snd a1) = SQL.weights fts cfg p2 u2 (snd a2).
Proof.
  intros (_ & _ & _ & _ & Ht & Hd) (_ & Hu) (_ & Hg). unfold SQL.weights.
  destruct (SQL.cfg_title cfg); [rewrite (Ht eq_refl)|];
  (destruct (SQL.cfg_description cfg); [rewrite (Hd eq_refl)|]);
  (destruct (SQL.cfg_tags cfg); [rewrite (Hg eq_refl)|]);
  (destruct (SQL.cfg_username cfg); [rewrite (Hu eq_refl)|]);
  reflexivity.
Qed.

Lemma posts_with_tags_agree :
  Forall2 (fun x y => same_post cfg (fst (fst x)) (fst (fst y))
                      /\ same_user cfg (snd (fst x)) (snd (fst y))
                      /\ same_tags cfg (snd x) (snd y))
          (SQL.posts_with_tags t1) (SQL.posts_with_tags t2).
Proof.
  destruct agree as (Hp & _ & Hu & Hg). unfold SQL.posts_with_tags.
  apply (Forall2_flat_map (same_post cfg) _ _ _ _ _ Hp).
  intros p1 p2 Hp12.
  apply (Forall2_flat_map (same_user cfg) _).
  { apply Forall2_filter; [exact Hu|].
    intros u1 u2 (E & _). destruct Hp12 as (_ & _ & E' & _). congruence. }
  intros u1 u2 Hu12.
  apply (Forall2_map (same_tags cfg) _).
  { apply Forall2_filter; [exact Hg|].
    intros a1 a2 (E & _). destruct Hp12 as (E' & _). congruence. }
  intros a1 a2 Ha12. simpl. auto.
Qed.

Lemma search_ranking_agree :
  SQL.search_ranking fts cfg q t1 = SQL.search_ranking fts cfg q t2.
Proof.
  apply Forall2_equal. unfold SQL.search_ranking, SQL.weighted_posts.
  rewrite !map_map.
  apply (Forall2_map _ eq _ _ _ _ posts_with_tags_agree).
  intros [[p1 u1] a1] [[p2 u2] a2] (Hp & Hu & Ha). simpl in *.
  rewrite (weights_agree p1 p2 u1 u2 a1 a2) by assumption.
  destruct Hp as (-> & _). reflexivity.
Qed.

Lemma formatted_posts_agree :
  Forall2 (fun v1 v2 => SQL.Projection.postId v1 = SQL.Projection.postId v2)
          (SQL.formatted_posts t1) (SQL.formatted_posts t2).
Proof.
  destruct agree as (Hp & Hf & Hu & Hg).
  unfold SQL.formatted_posts, SQL.joined_posts, SQL.stored_arrays.
  apply (Forall2_flat_map (same_post cfg) _ _ _ _ _ Hp).
  intros p1 p2 Hp12.
  apply (Forall2_flat_map eq _).
  { rewrite Hf. apply Forall2_filter; [apply Forall2_same|].
    intros f1 f2 ->. destruct Hp12 as (_ & E & _). congruence. }
  intros f1 f2 _.
  apply (Forall2_flat_map (same_user cfg) _).
  { apply Forall2_filter; [exact Hu|].
    intros u1 u2 (E & _). destruct Hp12 as (_ & _ & E' & _). congruence. }
  intros u1 u2 _.
  apply (Forall2_map (fun a b : Z * option (list string) => fst a = fst b) _).
  { apply Forall2_filter.
    - apply (Forall2_map (same_tags cfg) _); [exact Hg|].
      intros a1 a2 (E & _). exact E.
    - intros a1 a2 E. destruct Hp12 as (E' & _). congruence. }
  intros a1 a2 _. simpl. now destruct Hp12.
Qed.

(** On two stores that differ only in the contents of columns that are not
    enabled, and in which the same posts have taggings, the search finds
    the same posts with the same ranks in the same order. *)
Lemma search_ignores_disabled_columns rows1 rows2 :
  SQL.search fts cfg q t1 = Ok rows1 ->
  SQL.search fts cfg q t2 = Ok rows2 ->
  ranking rows1 = ranking rows2.
Proof.
  unfold SQL.search. rewrite search_ranking_agree.
  intros H1 H2. apply Ok_inj in H1, H2. subst rows1 rows2.
  set (same := fun r1 r2 : SQL.search_row =>
         SQL.Projection.postId (SQL.found r1) = SQL.Projection.postId (SQL.found r2)
         /\ SQL.ranks r1 = SQL.ranks r2).
  assert (H : forall l1 l2, Forall2 same l1 l2 -> ranking l1 = ranking l2).
  { induction 1 as [|r1 r2 l1 l2 (E1 & E2)]; simpl; [reflexivity|].
    unfold ranking in *. congruence. }
  apply H, Forall2_firstn, Forall2_order_by.
  - intros a a' b b' (_ & Ea) (_ & Eb). unfold SQL.best_first. congruence.
  - apply (Forall2_flat_map eq same); [apply Forall2_same|].
    intros r ? <-. destruct (SQL.above_threshold (snd r)); [|constructor].
    apply (Forall2_map _ same _ _ _ _
             (Forall2_filter _ _ _ _ _ formatted_posts_agree
                (fun v1 v2 E => f_equal (fun i => i =? fst r) E))).
    intros v1 v2 E. split; [exact E | reflexivity].
Qed.

End DisabledColumns.

(** Rewriting the description of post 4 does not move a search on titles. *)
Example search_ignores_description :
  let cfg := columns_of "title" in
  let t1 := db_tables Sample.dump in
  let t2 :=
    {| files := files t1;
       posts :=
         [ {| postId := 4; post_fileId := 4; post_userId := 1;
              createdAt := 1654213670; title := "Lobby Grinding >>>>";
              description := Some "Lobby Lobby Lobby" |};
           Sample.rappy_post ];
       taggings := taggings t1;
       tags := tags t1;
       users := users t1 |} in
  forall rows1 rows2,
    SQL.search Sample.word_search cfg "Lobby" t1 = Ok rows1 ->
    SQL.search Sample.word_search cfg "Lobby" t2 = Ok rows2 ->
    ranking rows1 = ranking rows2 /\ ranking rows1 = [(4, 1 # 1)].
Proof.
  intros cfg t1 t2 rows1 rows2 H1 H2. split.
  - apply (search_ignores_disabled_columns Sample.word_search cfg "Lobby" t1 t2);
      [|exact H1|exact H2].
    repeat split.
    + repeat constructor; simpl; intros; reflexivity || discriminate.
    + apply Forall2_diagonal. intros u. split; reflexivity.
    + apply Forall2_diagonal. intros a. split; reflexivity.
  - apply Ok_inj in H1. subst rows1. reflexivity.
Qed.


(* ================================================================== *)
(** * Further properties of the handlers                               *)
(* ================================================================== *)

Import Schema.

(** ** Keys *)

Lemma existsb_key (T : Type) (key : T -> Z) (k : Z) (l : list T) :
  existsb (fun x => key x =? k) l = true <-> In k (map key l).
Proof.
  rewrite existsb_exists, in_map_iff. split.
  - intros (x & Hx & E). apply Z.eqb_eq in E. now exists x.
  - intros (x & E & Hx). exists x. split; [exact Hx | now apply Z.eqb_eq].
Qed.

Lemma existsb_key_false (T : Type) (key : T -> Z) (k : Z) (l : list T) :
  existsb (fun x => key x =? k) l = false <-> ~ In k (map key l).
Proof.
  rewrite <- existsb_key. destruct (existsb _ l); split; congruence.
Qed.

Lemma existsb_text (T : Type) (key : T -> string) (k : string) (l : list T) :
  existsb (fun x => String.eqb (key x) k) l = true <-> In k (map key l).
Proof.
  rewrite existsb_exists, in_map_iff. split.
  - intros (x & Hx & E). apply String.eqb_eq in E. now exists x.
  - intros (x & E & Hx). exists x. split; [exact Hx | now apply String.eqb_eq].
Qed.

Lemma distinct_ids_NoDup (l : list Z) : distinct_ids l = true <-> NoDup l.
Proof.
  induction l as [|x l IH]; simpl.
  - split; [constructor | reflexivity].
  - rewrite andb_true_iff, negb_true_iff, IH. split.
    + intros (Hx & Hl). constructor; [|exact Hl].
      intros Hin.
      assert (E : existsb (Z.eqb x) l = true).
      { apply existsb_exists. exists x. split; [exact Hin | apply Z.eqb_refl]. }
      congruence.
    + intros H. inversion H as [|? ? Hx Hl]; subst. split; [|exact Hl].
      destruct (existsb (Z.eqb x) l) eqn:E; [|reflexivity].
      apply existsb_exists in E as (y & Hy & E). apply Z.eqb_eq in E.
      subst. contradiction.
Qed.

Lemma distinct_names_iff (l : list string) : distinct_names l = true <-> NoDup l.
Proof.
  split; [apply distinct_names_NoDup|].
  induction 1 as [|x l Hx Hl IH]; simpl; [reflexivity|].
  rewrite IH, andb_true_r, negb_true_iff.
  destruct (existsb (String.eqb x) l) eqn:E; [|reflexivity].
  apply existsb_eqb_In in E. contradiction.
Qed.

Lemma forallb_key (T U : Type) (key : U -> Z) (ref : T -> Z)
    (l : list T) (m : list U) :
  forallb (fun x => existsb (fun y => key y =? ref x) m) l = true
  <-> forall x, In x l -> In (ref x) (map key m).
Proof.
  rewrite forallb_forall. split; intros H x Hx.
  - apply existsb_key. now apply H.
  - apply existsb_key. now apply H.
Qed.

Lemma consistent_spec (t : tables) : consistent t = true <-> Consistent t.
Proof.
  unfold consistent. rewrite !andb_true_iff, !distinct_ids_NoDup,
    !distinct_names_iff, !forallb_key, forallb_forall.
  split.
  - intros (((((((((H1 & H2) & H3) & H4) & H5) & H6) & H7) & H8) & H9) & H10).
    constructor; auto.
    intros r Hr. apply existsb_eqb_In. now apply H10.
  - intros [H1 H2 H3 H4 H5 H6 H7 H8 H9 H10]. repeat split; auto.
    intros r Hr. apply existsb_eqb_In. now apply H10.
Qed.

(** The one row of a list with a given key. *)
Lemma filter_unique (T : Type) (key : T -> Z) (l : list T) (x : T) :
  NoDup (map key l) -> In x l ->
  filter (fun y => key y =? key x) l = [x].
Proof.
  induction l as [|a l IH]; simpl; [contradiction|].
  intros Hnd Hin. inversion Hnd as [|? ? Ha Hl]; subst.
  destruct Hin as [->|Hin].
  - rewrite Z.eqb_refl. f_equal. apply filter_none.
    intros y Hy. apply Z.eqb_neq. intros E. apply Ha. rewrite <- E.
    now apply in_map.
  - assert (E : (key a =? key x) = false).
    { apply Z.eqb_neq. intros E. apply Ha. rewrite E. now apply in_map. }
    rewrite E. now apply IH.
Qed.

(** ** The tag aggregation *)

Lemma distinct_NoDup (l : list Z) : NoDup (SQL.distinct l).
Proof.
  induction l as [|x l IH]; simpl; constructor.
  - rewrite filter_In, negb_true_iff, Z.eqb_neq. intros (_ & H). now apply H.
  - now apply NoDup_filter.
Qed.

Lemma tag_arrays_keys (ts : list tagging_row) :
  map fst (SQL.tag_arrays ts) = SQL.distinct (map tagging_postId ts).
Proof.
  unfold SQL.tag_arrays. rewrite map_map. simpl. apply map_id.
Qed.

Lemma tag_arrays_keys_NoDup (ts : list tagging_row) :
  NoDup (map fst (SQL.tag_arrays ts)).
Proof. rewrite tag_arrays_keys. apply distinct_NoDup. Qed.

(** X1. ["tag_arrays"] has one row for each post that has a tagging and
    none for any other post; the row holds the tag names of that post's
    taggings, all of them and in scan order, so it is never empty. *)
Theorem tag_arrays_groups (ts : list tagging_row) :
  NoDup (map fst (SQL.tag_arrays ts))
  /\ (forall id, In id (map fst (SQL.tag_arrays ts))
                 <-> In id (map tagging_postId ts))
  /\ (forall id names, In (id, names) (SQL.tag_arrays ts) ->
        names <> []
        /\ names = map tagName (filter (fun r => tagging_postId r =? id) ts))
  /\ (forall r, In r ts ->
        exists names, In (tagging_postId r, names) (SQL.tag_arrays ts)
                      /\ In (tagName r) names).
Proof.
  split; [apply tag_arrays_keys_NoDup|].
  split; [intros id; rewrite tag_arrays_keys; apply distinct_In|].
  split.
  - intros id names H. apply tag_arrays_In in H as (Hid & ->).
    split; [|reflexivity].
    apply in_map_iff in Hid as (r & E & Hr). intros Hnil.
    apply map_eq_nil in Hnil.
    assert (Hin : In r (filter (fun r0 => tagging_postId r0 =? id) ts)).
    { apply filter_In. split; [exact Hr | now apply Z.eqb_eq]. }
    rewrite Hnil in Hin. contradiction.
  - intros r Hr. eexists. split.
    + apply tag_arrays_In. split; [now apply in_map | reflexivity].
    + apply in_map. apply filter_In. split; [exact Hr | apply Z.eqb_refl].
Qed.

(** ** Listings *)

Lemma insert_by_Permutation {T} (leb : T -> T -> bool) (x : T) (l : list T) :
  Permutation (SQL.insert_by leb x l) (x :: l).
Proof.
  induction l as [|y l IH]; simpl; [reflexivity|].
  destruct (leb x y); [reflexivity|].
  rewrite IH. apply perm_swap.
Qed.

Lemma order_by_Permutation {T} (leb : T -> T -> bool) (l : list T) :
  Permutation (SQL.order_by leb l) l.
Proof.
  induction l as [|x l IH]; simpl; [reflexivity|].
  rewrite insert_by_Permutation. now constructor.
Qed.

Lemma newest_first_total (a b : SQL.Projection.t) :
  SQL.newest_first a b = false -> SQL.newest_first b a = true.
Proof. unfold SQL.newest_first. rewrite Z.leb_gt, Z.leb_le. lia. Qed.

Lemma newest_first_trans (a b c : SQL.Projection.t) :
  SQL.newest_first a b = true -> SQL.newest_first b c = true ->
  SQL.newest_first a c = true.
Proof. unfold SQL.newest_first. rewrite !Z.leb_le. lia. Qed.

Lemma oldest_first_total (a b : SQL.Projection.t) :
  SQL.oldest_first a b = false -> SQL.oldest_first b a = true.
Proof. unfold SQL.oldest_first. rewrite Z.leb_gt, Z.leb_le. lia. Qed.

Lemma oldest_first_trans (a b c : SQL.Projection.t) :
  SQL.oldest_first a b = true -> SQL.oldest_first b c = true ->
  SQL.oldest_first a c = true.
Proof. unfold SQL.oldest_first. rewrite !Z.leb_le. lia. Qed.

(** X2. The full listing always answers 200, touches nothing, and its rows
    are the rows of the projection, each as often as it is there, newest
    first. *)
Theorem catalog_newest_first (d : db) :
  exists rows,
    get_catalog d = {| response := Sent 200 rows; store := d; queries := 1 |}
    /\ Permutation rows (SQL.formatted_posts (db_tables d))
    /\ StronglySorted
         (fun a b => SQL.Projection.createdAt b <= SQL.Projection.createdAt a)
         rows.
Proof.
  exists (SQL.order_by SQL.newest_first (SQL.formatted_posts (db_tables d))).
  repeat split.
  - unfold get_catalog, db_query.
    destruct (reading_keeps_tables SQL.catalog d) as (Hd & Hr).
    destruct (SQL.query (SQL.reading SQL.catalog) d) as [d' r].
    simpl in Hd, Hr. subst. reflexivity.
  - apply order_by_Permutation.
  - eapply StronglySorted_impl;
      [|apply order_by_sorted;
        [exact newest_first_total | exact newest_first_trans]].
    intros a b H. now apply Z.leb_le.
Qed.

(** ** Looking a post up in a store that keeps its constraints *)

Lemma filter_flat_map {T U} (g : U -> bool) (F : T -> list U) (l : list T) :
  filter g (flat_map F l) = flat_map (fun x => filter g (F x)) l.
Proof.
  induction l as [|x l IH]; simpl; [reflexivity|].
  now rewrite filter_app, IH.
Qed.

Lemma filter_map_swap {T U} (g : U -> bool) (h : T -> U) (l : list T) :
  filter g (map h l) = map h (filter (fun x => g (h x)) l).
Proof.
  induction l as [|x l IH]; simpl; [reflexivity|].
  destruct (g (h x)); simpl; now rewrite IH.
Qed.

Lemma flat_map_nothing {T U} (G : T -> list U) (l : list T) :
  (forall x, In x l -> G x = []) -> flat_map G l = [].
Proof.
  induction l as [|a l IH]; simpl; intros H; [reflexivity|].
  rewrite (H a) by now left. apply IH. auto.
Qed.

Lemma flat_map_single {T U} (key : T -> Z) (G : T -> list U) (l : list T) (p : T) :
  NoDup (map key l) -> In p l ->
  (forall x, In x l -> key x <> key p -> G x = []) ->
  flat_map G l = G p.
Proof.
  induction l as [|a l IH]; simpl; [contradiction|].
  intros Hnd Hin Hother. inversion Hnd as [|? ? Ha Hl]; subst.
  destruct Hin as [->|Hin].
  - rewrite <- (app_nil_r (G p)) at 2. f_equal.
    apply flat_map_nothing.
    intros x Hx. apply Hother; [now right|].
    intros E. apply Ha. rewrite <- E. now apply in_map.
  - rewrite (Hother a) by
      (try (now left); intros E; apply Ha; rewrite E; now apply in_map).
    simpl. apply IH; auto.
Qed.

Lemma stored_arrays_lookup (t : tables) (id : Z) :
  tags_of id t <> [] ->
  filter (fun a => fst a =? id) (SQL.stored_arrays t)
  = [(id, Some (tags_of id t))].
Proof.
  intros Hne. unfold SQL.stored_arrays. rewrite filter_map_swap. simpl.
  assert (Hin : In (id, tags_of id t) (SQL.tag_arrays (taggings t))).
  { apply tag_arrays_In. split; [|reflexivity].
    unfold tags_of in Hne.
    destruct (filter _ (taggings t)) as [|r l] eqn:E; [now elim Hne|].
    assert (Hr : In r (r :: l)) by now left.
    rewrite <- E in Hr. apply filter_In in Hr as (Hr & Er).
    apply Z.eqb_eq in Er. subst id. now apply in_map. }
  pose proof (filter_unique _ fst _ (id, tags_of id t)
                (tag_arrays_keys_NoDup (taggings t)) Hin) as E.
  simpl in E. rewrite E. reflexivity.
Qed.

Section Lookup.
Variable t : tables.
Hypothesis keeps : Consistent t.
Variables (p : post_row) (f : file_row) (u : user_row).
Hypothesis Hp : In p (posts t).
Hypothesis Hf : In f (files t).
Hypothesis Hpf : fileId f = post_fileId p.
Hypothesis Hu : In u (users t).
Hypothesis Hpu : userId u = post_userId p.

Lemma file_of_post :
  filter (fun x => fileId x =? post_fileId p) (files t) = [f].
Proof. rewrite <- Hpf. apply filter_unique; [apply keeps | exact Hf]. Qed.

Lemma user_of_post :
  filter (fun x => userId x =? post_userId p) (users t) = [u].
Proof. rewrite <- Hpu. apply filter_unique; [apply keeps | exact Hu]. Qed.

Lemma post_of_id :
  filter (fun x => postId x =? postId p) (posts t) = [p].
Proof. apply filter_unique; [apply keeps | exact Hp]. Qed.

Lemma joined_post (arrays : list (Z * option (list string)))
    (names : option (list string)) :
  filter (fun a => fst a =? postId p) arrays = [(postId p, names)] ->
  filter (fun v => SQL.Projection.postId v =? postId p)
         (SQL.joined_posts t arrays)
  = [SQL.project p f u names].
Proof.
  intros Harrays. unfold SQL.joined_posts.
  rewrite filter_flat_map.
  rewrite (flat_map_single postId _ (posts t) p (posts_pkey t keeps) Hp).
  - rewrite file_of_post. simpl. rewrite user_of_post. simpl.
    rewrite Harrays. simpl. now rewrite Z.eqb_refl.
  - intros x Hx Hne'. apply filter_none. intros v Hv.
    apply in_flat_map in Hv as (f' & _ & Hv).
    apply in_flat_map in Hv as (u' & _ & Hv).
    apply in_map_iff in Hv as (a & <- & _). simpl. now apply Z.eqb_neq.
Qed.

Lemma formatted_post :
  tags_of (postId p) t <> [] ->
  filter (fun v => SQL.Projection.postId v =? postId p) (SQL.formatted_posts t)
  = [SQL.project p f u (Some (tags_of (postId p) t))].
Proof.
  intros Hne. apply joined_post. now apply stored_arrays_lookup.
Qed.

Lemma download_rows :
  flat_map (fun x =>
              map (fun y => (fileObjectKey y, title x))
                  (filter (fun y => fileId y =? post_fileId x) (files t)))
           (filter (fun x => postId x =? postId p) (posts t))
  = [(fileObjectKey f, title p)].
Proof. rewrite post_of_id. simpl. now rewrite file_of_post. Qed.

End Lookup.

Lemma Consistent_file (t : tables) (p : post_row) :
  Consistent t -> In p (posts t) ->
  exists f, In f (files t) /\ fileId f = post_fileId p.
Proof.
  intros K Hp. apply (posts_fileId_fkey t K), in_map_iff in Hp as (f & E & Hf).
  now exists f.
Qed.

Lemma Consistent_user (t : tables) (p : post_row) :
  Consistent t -> In p (posts t) ->
  exists u, In u (users t) /\ userId u = post_userId p.
Proof.
  intros K Hp. apply (posts_userId_fkey t K), in_map_iff in Hp as (u & E & Hu).
  now exists u.
Qed.

Lemma reading_reply {R Body} (f : tables -> result R) (d : db)
    (k : result R -> outcome Body) :
  db_query (SQL.reading f) d k
  = {| response := k (f (db_tables d)); store := d; queries := 1 |}.
Proof.
  unfold db_query. destruct (reading_keeps_tables f d) as (Hd & Hr).
  destruct (SQL.query (SQL.reading f) d) as [d' r]. simpl in Hd, Hr.
  now subst.
Qed.

Lemma Permutation_filter {T} (g : T -> bool) (l l' : list T) :
  Permutation l l' -> Permutation (filter g l) (filter g l').
Proof.
  induction 1 as [|x l l' H IH|x y l|l l' l'' H1 IH1 H2 IH2]; simpl.
  - constructor.
  - destruct (g x); [now constructor | exact IH].
  - destruct (g x), (g y); try reflexivity. apply perm_swap.
  - now rewrite IH1.
Qed.

(** X3. In a store that keeps the constraints of the schema, looking up
    the identity of a post that has a tagging answers 200 with exactly that
    post: its own title, description and creation time, the fields of its
    file, the name of its owner and its tag names in scan order; one
    statement is sent and the store is left as it is. *)
Theorem view_finds_tagged_post (Number : string -> JS.number) (id : string)
    (d : db) (p : post_row) (f : file_row) (u : user_row) :
  @check_id Number SQL.Projection.t id = None ->
  int4in id = Ok (postId p) ->
  Consistent (db_tables d) ->
  In p (posts (db_tables d)) ->
  In f (files (db_tables d)) -> fileId f = post_fileId p ->
  In u (users (db_tables d)) -> userId u = post_userId p ->
  tags_of (postId p) (db_tables d) <> [] ->
  get_posts_view Number id d
  = {| response :=
         Sent 200 (SQL.project p f u (Some (tags_of (postId p) (db_tables d))));
       store := d; queries := 1 |}.
Proof.
  intros Hc Hid K Hp Hf Hpf Hu Hpu Hne.
  unfold get_posts_view. rewrite Hc, reading_reply. unfold SQL.view.
  rewrite Hid, (formatted_post _ K p f u Hp Hf Hpf Hu Hpu Hne). reflexivity.
Qed.

Lemma view_finds_tagged_post_witness :
  get_posts_view Sample.Number "6" Sample.dump
  = {| response :=
         Sent 200 (SQL.project Sample.rappy_post Sample.rappy_file Sample.admin
                     (Some ["rappy"; "meme form"]));
       store := Sample.dump; queries := 1 |}.
Proof.
  apply (view_finds_tagged_post Sample.Number "6" Sample.dump
           Sample.rappy_post Sample.rappy_file Sample.admin);
    try reflexivity.
  - apply consistent_spec. reflexivity.
  - right. now left.
  - right. now left.
  - now left.
  - discriminate.
Defined.

(** X4. An identity that passes both checks of the lookup but that the
    store cannot read as an [integer] (a fraction, an exponent) is not
    turned down with 400: the statement is sent, fails, and the store's
    error is handed to the error middleware. *)
Theorem view_forwards_store_error (Number : string -> JS.number) (id : string)
    (d : db) (e : error) :
  @check_id Number SQL.Projection.t id = None ->
  int4in id = Err e ->
  get_posts_view Number id d
  = {| response := Errored (JS.StoreError e); store := d; queries := 1 |}.
Proof.
  intros Hc Hid. unfold get_posts_view. rewrite Hc, reading_reply.
  unfold SQL.view. now rewrite Hid.
Qed.

Lemma view_forwards_store_error_witness :
  get_posts_view Sample.Number_or_fraction "1.5" Sample.dump
  = {| response := Errored (JS.StoreError invalid_text_representation);
       store := Sample.dump; queries := 1 |}.
Proof.
  apply (view_forwards_store_error Sample.Number_or_fraction "1.5" Sample.dump);
    reflexivity.
Defined.

(** X5. In a store that keeps its constraints, the download of an existing
    post redirects to the locator made from the storage key of its file and
    from its title followed by [.sar], whether or not the post has tags. *)
Theorem download_finds_post (Number : string -> JS.number)
    (download : string -> string -> string) (id : string) (d : db)
    (p : post_row) (f : file_row) :
  @check_id Number string id = None ->
  int4in id = Ok (postId p) ->
  Consistent (db_tables d) ->
  In p (posts (db_tables d)) ->
  In f (files (db_tables d)) -> fileId f = post_fileId p ->
  get_posts_download Number download id d
  = {| response := Redirected (download (fileObjectKey f) (title p ++ ".sar")%string);
       store := d; queries := 1 |}.
Proof.
  intros Hc Hid K Hp Hf Hpf.
  unfold get_posts_download. rewrite Hc, reading_reply. unfold SQL.download.
  rewrite Hid, (download_rows _ K p f Hp Hf Hpf). reflexivity.
Qed.

Lemma download_finds_post_witness :
  tags_of 4 (db_tables Sample.untagged_dump) = []
  /\ get_posts_download Sample.Number Sample.download "4" Sample.untagged_dump
     = {| response :=
            Redirected
              "https://symbol-art-vault.s3.us-west-1.amazonaws.com/d2b28056-4bf0-449b-9f98-e5f77ccaf9fc.sar?filename=Lobby Grinding.sar";
          store := Sample.untagged_dump; queries := 1 |}.
Proof.
  split; [reflexivity|].
  apply (download_finds_post Sample.Number Sample.download "4"
           Sample.untagged_dump
           {| postId := 4; post_fileId := 4; post_userId := 1;
              createdAt := 1654213670; title := "Lobby Grinding";
              description := Some "Drake Meme" |}
           Sample.drake_file); try reflexivity.
  - apply consistent_spec. reflexivity.
  - now left.
  - now left.
Defined.

(** X6. In a store that keeps its constraints, every post that has a
    tagging is in the full listing exactly once, as the projection of the
    post with its file, its owner and its tag names. *)
Theorem catalog_lists_every_tagged_post (d : db) (p : post_row) :
  Consistent (db_tables d) ->
  In p (posts (db_tables d)) ->
  tags_of (postId p) (db_tables d) <> [] ->
  exists f u rows,
    In f (files (db_tables d)) /\ fileId f = post_fileId p
    /\ In u (users (db_tables d)) /\ userId u = post_userId p
    /\ response (get_catalog d) = Sent 200 rows
    /\ filter (fun v => SQL.Projection.postId v =? postId p) rows
       = [SQL.project p f u (Some (tags_of (postId p) (db_tables d)))].
Proof.
  intros K Hp Hne.
  destruct (Consistent_file _ p K Hp) as (f & Hf & Hpf).
  destruct (Consistent_user _ p K Hp) as (u & Hu & Hpu).
  exists f, u,
    (SQL.order_by SQL.newest_first (SQL.formatted_posts (db_tables d))).
  do 4 (split; [assumption|]). split.
  - unfold get_catalog. now rewrite reading_reply.
  - apply Permutation_length_1_inv.
    rewrite <- (formatted_post _ K p f u Hp Hf Hpf Hu Hpu Hne).
    apply Permutation_filter. symmetry. apply order_by_Permutation.
Qed.

Lemma catalog_lists_every_tagged_post_witness :
  exists f u rows,
    In f (files (db_tables Sample.dump)) /\ fileId f = 4
    /\ In u (users (db_tables Sample.dump)) /\ userId u = 1
    /\ response (get_catalog Sample.dump) = Sent 200 rows
    /\ filter (fun v => SQL.Projection.postId v =? 4) rows
       = [SQL.project Sample.drake_post f u (Some ["drake meme"; "meme forma"])].
Proof.
  apply (catalog_lists_every_tagged_post Sample.dump Sample.drake_post).
  - apply consistent_spec. reflexivity.
  - now left.
  - discriminate.
Defined.

(** ** The checks on an identity *)

(** X7. The two checks at the head of the lookup, the download and the
    listing by owner let an identity through exactly when [Number] reads it
    as a finite number between 1 and 2147483647; the number need not be
    whole. *)
Theorem check_id_accepts_exactly (Number : string -> JS.number) (Body : Type)
    (id : string) :
  @check_id Number Body id = None
  <-> exists q, Number id = JS.Finite q
                /\ (inject_Z 1 <= q)%Q /\ (q <= inject_Z 2147483647)%Q.
Proof.
  unfold check_id. destruct (Number id) as [|q|negative]; simpl.
  - split; [discriminate | intros (q & E & _); discriminate].
  - destruct (Qle_bool (inject_Z 1) q) eqn:E1;
      destruct (Qle_bool q (inject_Z 2147483647)) eqn:E2; simpl;
      (split; [intros H | intros (q' & [= <-] & H1 & H2)]);
      try discriminate; try reflexivity.
    + exists q. rewrite <- !Qle_bool_iff. auto.
    + apply Qle_bool_iff in H2. congruence.
    + apply Qle_bool_iff in H1. congruence.
    + apply Qle_bool_iff in H1. congruence.
  - split; [|intros (q & E & _); discriminate].
    destruct negative; discriminate.
Qed.

(** ** The offset listing *)

Lemma firstn_add {T} (a b : nat) (l : list T) :
  firstn (a + b) l = firstn a l ++ firstn b (skipn a l).
Proof.
  revert l; induction a as [|a IH]; intros [|x l]; simpl;
    try reflexivity.
  - now rewrite firstn_nil.
  - now rewrite IH.
Qed.

(** X8. A page of the offset listing has at most twenty rows, all rows of
    the projection, oldest first; an offset at or beyond the end answers
    200 with no row; an offset that is negative or no [bigint] makes the
    statement fail, and since the handler has no [catch] nothing is
    answered. *)
Theorem catalog_offset_page (offset : string) (d : db) :
  (forall rows, response (get_catalog_offset offset d) = Sent 200 rows ->
     (List.length rows <= 20)%nat
     /\ incl rows (SQL.formatted_posts (db_tables d))
     /\ StronglySorted
          (fun a b => SQL.Projection.createdAt a <= SQL.Projection.createdAt b)
          rows)
  /\ (forall n, int8in offset = Ok n ->
        Z.of_nat (List.length (SQL.formatted_posts (db_tables d))) <= n ->
        response (get_catalog_offset offset d) = Sent 200 [])
  /\ (forall n, int8in offset = Ok n -> n < 0 ->
        response (get_catalog_offset offset d)
        = Unhandled (JS.StoreError invalid_row_count_in_result_offset_clause))
  /\ (forall e, int8in offset = Err e ->
        response (get_catalog_offset offset d) = Unhandled (JS.StoreError e)).
Proof.
  unfold get_catalog_offset. rewrite reading_reply. simpl.
  unfold SQL.catalog_offset. repeat split.
  - destruct (int8in offset) as [n|]; [|discriminate].
    destruct (n <? 0); [discriminate|].
    apply Sent_inj in H. subst rows. apply firstn_le_length.
  - destruct (int8in offset) as [n|]; [|discriminate].
    destruct (n <? 0); [discriminate|].
    apply Sent_inj in H. subst rows. intros v Hv.
    now apply firstn_In, skipn_In, order_by_In in Hv.
  - destruct (int8in offset) as [n|]; [|discriminate].
    destruct (n <? 0); [discriminate|].
    apply Sent_inj in H. subst rows.
    apply firstn_sorted.
    assert (S : forall k (l : list SQL.Projection.t) R,
              StronglySorted R l -> StronglySorted R (skipn k l)).
    { intros k l R Hs; revert k; induction Hs; intros [|k]; simpl;
        try constructor; auto. }
    apply S.
    eapply StronglySorted_impl;
      [|apply order_by_sorted;
        [exact oldest_first_total | exact oldest_first_trans]].
    intros a b Hab. now apply Z.leb_le.
  - intros n -> Hn.
    assert (E : (n <? 0) = false) by (apply Z.ltb_ge; lia). rewrite E.
    rewrite skipn_all2; [reflexivity|].
    rewrite order_by_length. lia.
  - intros n -> Hn. apply Z.ltb_lt in Hn. now rewrite Hn.
  - intros e ->. reflexivity.
Qed.

Lemma catalog_offset_page_witness :
  response (get_catalog_offset "2" Sample.dump) = Sent 200 []
  /\ response (get_catalog_offset "-1" Sample.dump)
     = Unhandled (JS.StoreError invalid_row_count_in_result_offset_clause)
  /\ response (get_catalog_offset "next" Sample.dump)
     = Unhandled (JS.StoreError invalid_text_representation).
Proof.
  destruct (catalog_offset_page "2" Sample.dump) as (_ & Hend & _).
  destruct (catalog_offset_page "-1" Sample.dump) as (_ & _ & Hneg & _).
  destruct (catalog_offset_page "next" Sample.dump) as (_ & _ & _ & Herr).
  split; [apply (Hend 2); [reflexivity | vm_compute; discriminate]|].
  split; [apply (Hneg (-1)); reflexivity|].
  apply Herr. reflexivity.
Defined.

(** X9. Two pages of the offset listing taken from the same store at
    offsets [n] and [n + 20] are, one after the other, the forty rows of
    the listing that follow the first [n]: consecutive pages neither skip a
    row nor repeat one. *)
Theorem catalog_offset_pages_tile (o1 o2 : string) (n : Z) (t : tables)
    (rows1 rows2 : list SQL.Projection.t) :
  0 <= n ->
  int8in o1 = Ok n -> int8in o2 = Ok (n + 20) ->
  SQL.catalog_offset o1 t = Ok rows1 ->
  SQL.catalog_offset o2 t = Ok rows2 ->
  rows1 ++ rows2
  = firstn 40 (skipn (Z.to_nat n)
                 (SQL.order_by SQL.oldest_first (SQL.formatted_posts t))).
Proof.
  intros Hn E1 E2. unfold SQL.catalog_offset. rewrite E1, E2.
  assert (F1 : (n <? 0) = false) by (apply Z.ltb_ge; lia).
  assert (F2 : (n + 20 <? 0) = false) by (apply Z.ltb_ge; lia).
  rewrite F1, F2. intros H1 H2. apply Ok_inj in H1, H2. subst rows1 rows2.
  replace (Z.to_nat (n + 20)) with (20 + Z.to_nat n)%nat by lia.
  rewrite <- skipn_skipn. symmetry. apply (firstn_add 20 20).
Qed.

Lemma catalog_offset_pages_tile_witness :
  exists rows1 rows2,
    SQL.catalog_offset "0" (db_tables Sample.dump) = Ok rows1
    /\ SQL.catalog_offset "20" (db_tables Sample.dump) = Ok rows2
    /\ rows1 ++ rows2
       = firstn 40 (skipn (Z.to_nat 0)
                      (SQL.order_by SQL.oldest_first
                         (SQL.formatted_posts (db_tables Sample.dump)))).
Proof.
  eexists. eexists. split; [reflexivity|]. split; [reflexivity|].
  apply (catalog_offset_pages_tile "0" "20" 0 (db_tables Sample.dump));
    reflexivity || lia.
Defined.

(** ** The listing by owner *)

Lemma formatted_posts_rows (t : tables) (v : SQL.Projection.t) :
  In v (SQL.formatted_posts t) ->
  exists p u, In p (posts t) /\ In u (users t)
              /\ userId u = post_userId p
              /\ SQL.Projection.postId v = postId p
              /\ SQL.Projection.userId v = userId u
              /\ tags_of (postId p) t <> [].
Proof.
  intros H. pose proof (formatted_posts_tagged t v H) as (r & Hr & Er).
  unfold SQL.formatted_posts, SQL.joined_posts in H.
  apply in_flat_map in H as (p & Hp & H).
  apply in_flat_map in H as (f & _ & H).
  apply in_flat_map in H as (u & Hu & H).
  apply in_map_iff in H as (a & <- & _).
  apply filter_In in Hu as (Hu & Eu). apply Z.eqb_eq in Eu.
  exists p, u. simpl in *. repeat split; auto.
  unfold tags_of. intros Hnil. apply map_eq_nil in Hnil.
  assert (Hin : In r (filter (fun x => tagging_postId x =? postId p) (taggings t))).
  { apply filter_In. split; [exact Hr | now apply Z.eqb_eq]. }
  rewrite Hnil in Hin. contradiction.
Qed.

(** X10. The listing by owner, for an identity that passes the checks and
    that the store reads as [n], in a store that keeps its constraints:
    when no user has identity [n] it answers 404; when user [u] has, it
    answers 200 with the name and identity of [u], and the posts are NULL
    exactly when [u] owns no post with a tagging, otherwise the rows of the
    projection that [u] owns, newest first. *)
Theorem catalog_user_outcomes (Number : string -> JS.number) (id : string)
    (d : db) (n : Z) :
  @check_id Number SQL.user_catalog id = None ->
  int4in id = Ok n ->
  Consistent (db_tables d) ->
  (~ In n (map userId (users (db_tables d))) ->
     response (get_catalog_user Number id d)
     = ClientError 404 ("unable to find user with id: " ++ id)%string)
  /\ (forall u, In u (users (db_tables d)) -> userId u = n ->
        exists listed,
          response (get_catalog_user Number id d)
          = Sent 200 {| SQL.uc_username := username u; SQL.uc_userId := n;
                        SQL.uc_posts := listed |}
          /\ (listed = None <->
              forall p, In p (posts (db_tables d)) -> post_userId p = n ->
                        tags_of (postId p) (db_tables d) = [])
          /\ (forall rows, listed = Some rows ->
                (forall v, In v rows <->
                   In v (SQL.formatted_posts (db_tables d))
                   /\ SQL.Projection.userId v = n)
                /\ StronglySorted
                     (fun a b => SQL.Projection.createdAt b
                                 <= SQL.Projection.createdAt a) rows)).
Proof.
  intros Hc Hid K. unfold get_catalog_user.
  rewrite Hc, reading_reply. simpl. unfold SQL.catalog_user. rewrite Hid.
  split.
  - intros Hmiss. rewrite filter_none; [reflexivity|].
    intros u Hu. apply Z.eqb_neq. intros E. apply Hmiss. rewrite <- E.
    now apply in_map.
  - intros u Hu <-.
    rewrite (filter_unique _ userId _ u (users_pkey _ K) Hu). simpl.
    exists (SQL.jsonify (db_tables d) u). split; [reflexivity|].
    unfold SQL.jsonify.
    set (mine := filter _ _).
    assert (Hmine : forall v, In v mine <->
              In v (SQL.formatted_posts (db_tables d))
              /\ SQL.Projection.userId v = userId u).
    { intros v. unfold mine. rewrite filter_In, order_by_In, Z.eqb_eq. tauto. }
    assert (Hsorted : StronglySorted
              (fun a b => SQL.Projection.createdAt b <= SQL.Projection.createdAt a)
              mine).
    { unfold mine.
      assert (F : forall (g : SQL.Projection.t -> bool) l R,
                StronglySorted R l -> StronglySorted R (filter g l)).
      { intros g l R Hs; induction Hs as [|x l Hs IH Hx]; simpl;
          [constructor|].
        destruct (g x); [|exact IH]. constructor; [exact IH|].
        rewrite Forall_forall in *. intros y Hy.
        apply filter_In in Hy as (Hy & _). now apply Hx. }
      apply F.
      eapply StronglySorted_impl;
        [|apply order_by_sorted;
          [exact newest_first_total | exact newest_first_trans]].
      intros a b Hab. now apply Z.leb_le. }
    split.
    + split.
      * intros Hnone p Hp Hpu.
        destruct (tags_of (postId p) (db_tables d)) as [|x l] eqn:E;
          [reflexivity|].
        exfalso.
        destruct (Consistent_file _ p K Hp) as (f & Hf & Hpf).
        assert (Hne : tags_of (postId p) (db_tables d) <> [])
          by (rewrite E; discriminate).
        pose proof (formatted_post _ K p f u Hp Hf Hpf Hu (eq_sym Hpu) Hne) as Hrow.
        assert (Hin : In (SQL.project p f u (Some (tags_of (postId p) (db_tables d))))
                         mine).
        { apply Hmine. split; [|reflexivity].
          assert (H1 : In (SQL.project p f u (Some (tags_of (postId p) (db_tables d))))
                          [SQL.project p f u (Some (tags_of (postId p) (db_tables d)))])
            by now left.
          rewrite <- Hrow in H1. now apply filter_In in H1 as (H1 & _). }
        destruct mine; [contradiction | discriminate].
      * intros Hall. destruct mine as [|v l] eqn:E; [reflexivity|]. exfalso.
        assert (Hv : In v (v :: l)) by now left.
        apply Hmine in Hv as (Hv & Ev).
        apply formatted_posts_rows in Hv
          as (p & u' & Hp & Hu' & Eu' & _ & Evu & Hne).
        apply Hne, Hall; [exact Hp|]. congruence.
    + intros rows Hrows.
      destruct mine as [|v l] eqn:E; [discriminate|].
      injection Hrows as <-. split; [exact Hmine | exact Hsorted].
Qed.

Lemma catalog_user_outcomes_witness :
  response (get_catalog_user Sample.Number "7" Sample.dump)
    = ClientError 404 "unable to find user with id: 7"
  /\ exists listed,
       response (get_catalog_user Sample.Number "1" Sample.dump)
       = Sent 200 {| SQL.uc_username := "admin"; SQL.uc_userId := 1;
                     SQL.uc_posts := listed |}
       /\ (listed = None <->
           forall p, In p (posts (db_tables Sample.dump)) -> post_userId p = 1 ->
                     tags_of (postId p) (db_tables Sample.dump) = [])
       /\ (forall rows, listed = Some rows ->
             (forall v, In v rows <->
                In v (SQL.formatted_posts (db_tables Sample.dump))
                /\ SQL.Projection.userId v = 1)
             /\ StronglySorted
                  (fun a b => SQL.Projection.createdAt b
                              <= SQL.Projection.createdAt a) rows).
Proof.
  assert (K : Consistent (db_tables Sample.dump))
    by (apply consistent_spec; reflexivity).
  destruct (catalog_user_outcomes Sample.Number "7" Sample.dump 7
              eq_refl eq_refl K) as (Hmissing & _).
  destruct (catalog_user_outcomes Sample.Number "1" Sample.dump 1
              eq_refl eq_refl K) as (_ & Hfound).
  split.
  - apply Hmissing. simpl. intros [H|[]]. discriminate H.
  - apply (Hfound Sample.admin); [now left | reflexivity].
Defined.

(** ** The checks of the search *)

Lemma includes_In (arr : list string) (x : string) :
  JS.includes arr x = true <-> In x arr.
Proof. apply existsb_eqb_In. Qed.

(** X11. The search is turned down with status 400, before anything is
    sent to the store, exactly when [q] is missing or empty, or [cols] is
    missing or empty, or none of the pieces of [cols] between commas is,
    letter for letter, one of title, description, tags, username. *)
Theorem search_validation (fts : SQL.text_search) (q cols : option string)
    (d : db) :
  (exists message,
     get_posts_search fts q cols d = without_query (ClientError 400 message) d)
  <-> JS.falsy q = true
      \/ JS.falsy cols = true
      \/ forall c, In c ["title"; "description"; "tags"; "username"] ->
                   ~ In c (JS.split "," (JS.value cols)).
Proof.
  unfold get_posts_search.
  destruct (JS.falsy q); [split; eauto|].
  destruct (JS.falsy cols); [split; eauto|].
  unfold columns_of. cbn [SQL.cfg_title SQL.cfg_description SQL.cfg_tags
                          SQL.cfg_username].
  set (arr := JS.split "," (JS.value cols)).
  destruct (JS.includes arr "title") eqn:E1;
  destruct (JS.includes arr "description") eqn:E2;
  destruct (JS.includes arr "tags") eqn:E3;
  destruct (JS.includes arr "username") eqn:E4; simpl;
  try (split;
       [ intros (m & H); rewrite reading_reply in H; discriminate H
       | intros [H|[H|H]]; try discriminate H; exfalso;
         first [ apply (H "title"); [simpl; tauto | now apply includes_In]
               | apply (H "description"); [simpl; tauto | now apply includes_In]
               | apply (H "tags"); [simpl; tauto | now apply includes_In]
               | apply (H "username"); [simpl; tauto | now apply includes_In] ] ]).
  split; [|eauto]. intros _. right. right.
  intros c [<-|[<-|[<-|[<-|[]]]]] Hin; apply includes_In in Hin; congruence.
Qed.

(** ** What a create request does *)

Lemma upsert_tag_adds (vocabulary : list string) (name : string) :
  In name (SQL.upsert_tag vocabulary name).
Proof.
  unfold SQL.upsert_tag.
  destruct (existsb (String.eqb name) vocabulary) eqn:E.
  - now apply existsb_eqb_In.
  - apply in_or_app. right. now left.
Qed.

Lemma upsert_all_contains (names vocabulary : list string) (n : string) :
  In n names -> In n (fold_left SQL.upsert_tag names vocabulary).
Proof.
  revert vocabulary; induction names as [|x names IH]; simpl;
    intros v H; [contradiction|].
  destruct H as [->|H]; [|now apply IH].
  apply upsert_all_keeps, upsert_tag_adds.
Qed.

Lemma check_tagging_fkeys_pass (id : Z) (names : list string) (t : tables) :
  existsb (fun p => postId p =? id) (posts t) = true ->
  (forall n, In n names -> In n (tags t)) ->
  SQL.check_tagging_fkeys
    (map (fun name => {| tagName := name; tagging_postId := id |}) names) t
  = Ok tt.
Proof.
  intros Hp. induction names as [|n names IH]; simpl; intros Hin;
    [reflexivity|].
  unfold SQL.tagging_fkeys_ok. simpl. rewrite Hp. simpl.
  assert (E : existsb (String.eqb n) (tags t) = true)
    by (apply existsb_eqb_In, Hin; now left).
  rewrite E. simpl. apply IH. auto.
Qed.

Lemma check_tagging_fkeys_inv (rows : list tagging_row) (t : tables) :
  SQL.check_tagging_fkeys rows t = Ok tt ->
  forall r, In r rows ->
    In (tagging_postId r) (map postId (posts t)) /\ In (tagName r) (tags t).
Proof.
  induction rows as [|x rows IH]; simpl; [contradiction|].
  unfold SQL.tagging_fkeys_ok.
  destruct (existsb (fun p => postId p =? tagging_postId x) (posts t)) eqn:E1;
    simpl; [|discriminate].
  destruct (existsb (String.eqb (tagName x)) (tags t)) eqn:E2; simpl;
    [|discriminate].
  intros H r [<-|Hr]; [|now apply IH].
  split; [now apply existsb_key | now apply existsb_eqb_In].
Qed.

Section Upload.
Variable now : Z.
Variable p : SQL.upload_params.
Variable t : tables.
Variable sq : sequences.

Let fid := files_fileId_seq sq + 1.
Let pid := posts_postId_seq sq + 1.

(** The tables and sequences a create statement commits. *)
Let committed (sound layers : option Z) (ttl : string) :=
  let new_file :=
    {| fileId := fid; fileObjectKey := SQL.up_fileObjectKey p;
       previewImagePath := SQL.up_previewImagePath p;
       filePropsName := SQL.up_filePropsName p;
       filePropsSound := sound; filePropsLayerCount := layers |} in
  let new_post :=
    {| postId := pid; post_fileId := fid; post_userId := SQL.up_userId p;
       createdAt := now; title := ttl;
       description := Some (SQL.up_description p) |} in
  ({| files_fileId_seq := fid; posts_postId_seq := pid;
      users_userId_seq := users_userId_seq sq |},
   Ok ({| files := files t ++ [new_file];
          posts := posts t ++ [new_post];
          taggings :=
            taggings t
            ++ map (fun name => {| tagName := name; tagging_postId := pid |})
                   (SQL.up_tags p);
          tags := fold_left SQL.upsert_tag (SQL.up_tags p) (tags t);
          users := users t |},
       [(new_post, new_file)])).

Lemma upload_succeeds (sound layers : option Z) (ttl : string) :
  int4in_null (SQL.up_filePropsSound p) = Ok sound ->
  int4in_null (SQL.up_filePropsLayerCount p) = Ok layers ->
  in_int4 (SQL.up_userId p) = true ->
  fid <= int4_max ->
  ~ In fid (map fileId (files t)) ->
  pid <= int4_max ->
  SQL.up_title p = Some ttl ->
  ~ In pid (map postId (posts t)) ->
  In (SQL.up_userId p) (map userId (users t)) ->
  SQL.upload now p t sq = committed sound layers ttl.
Proof.
  intros Hs Hl Hu Hfid Hffresh Hpid Httl Hpfresh Huser.
  unfold SQL.upload, bind, lift, ret, committed.
  rewrite Hs, Hl. unfold SQL.int4_param. rewrite Hu.
  unfold SQL.nextval_files. fold fid.
  apply Z.leb_le in Hfid. rewrite Hfid.
  unfold SQL.insert_file at 1. cbn [fileId].
  apply existsb_key_false in Hffresh. rewrite Hffresh.
  unfold SQL.nextval_posts. cbn [posts_postId_seq]. fold pid.
  apply Z.leb_le in Hpid. rewrite Hpid. rewrite Httl. cbn [SQL.not_null].
  unfold SQL.insert_post at 1. cbn [postId posts].
  apply existsb_key_false in Hpfresh. rewrite Hpfresh.
  unfold SQL.check_post_fkeys.
  cbn [SQL.add_taggings SQL.upsert_tags files users post_fileId post_userId].
  rewrite existsb_app. cbn [existsb fileId]. rewrite Z.eqb_refl, orb_true_r.
  cbn [negb]. apply existsb_key in Huser. rewrite Huser. cbn [negb].
  rewrite check_tagging_fkeys_pass; [reflexivity| |].
  - cbn [posts SQL.add_taggings SQL.upsert_tags].
    rewrite existsb_app. cbn [existsb postId].
    now rewrite Z.eqb_refl, orb_true_r.
  - cbn [tags SQL.add_taggings SQL.upsert_tags].
    intros n Hn. now apply upsert_all_contains.
Qed.

Lemma upload_succeeds_inv (sq' : sequences) (t' : tables)
    (rows : list (post_row * file_row)) :
  SQL.upload now p t sq = (sq', Ok (t', rows)) ->
  exists sound layers ttl,
    int4in_null (SQL.up_filePropsSound p) = Ok sound
    /\ int4in_null (SQL.up_filePropsLayerCount p) = Ok layers
    /\ in_int4 (SQL.up_userId p) = true
    /\ fid <= int4_max
    /\ ~ In fid (map fileId (files t))
    /\ pid <= int4_max
    /\ SQL.up_title p = Some ttl
    /\ ~ In pid (map postId (posts t))
    /\ In (SQL.up_userId p) (map userId (users t))
    /\ (sq', Ok (t', rows)) = committed sound layers ttl.
Proof.
  intros H.
  assert (H0 := H). revert H0.
  unfold SQL.upload, bind, lift, ret.
  destruct (int4in_null (SQL.up_filePropsSound p)) as [sound|] eqn:Es;
    [|discriminate].
  destruct (int4in_null (SQL.up_filePropsLayerCount p)) as [layers|] eqn:El;
    [|discriminate].
  unfold SQL.int4_param.
  destruct (in_int4 (SQL.up_userId p)) eqn:Eu; [|discriminate].
  unfold SQL.nextval_files. fold fid.
  destruct (fid <=? int4_max) eqn:Efid; [|discriminate].
  unfold SQL.insert_file at 1. cbn [fileId].
  destruct (existsb (fun f => fileId f =? fid) (files t)) eqn:Eff;
    [discriminate|].
  unfold SQL.nextval_posts. cbn [posts_postId_seq]. fold pid.
  destruct (pid <=? int4_max) eqn:Epid; [|discriminate].
  destruct (SQL.up_title p) as [ttl|] eqn:Ettl; [|discriminate].
  cbn [SQL.not_null].
  unfold SQL.insert_post at 1. cbn [postId posts].
  destruct (existsb (fun x => postId x =? pid) (posts t)) eqn:Epf;
    [discriminate|].
  unfold SQL.check_post_fkeys.
  cbn [SQL.add_taggings SQL.upsert_tags files users post_fileId post_userId].
  destruct (negb (existsb _ (files t ++ _))); [discriminate|].
  destruct (existsb (fun u => userId u =? SQL.up_userId p) (users t)) eqn:Euser;
    [|discriminate].
  intros _. exists sound, layers, ttl.
  apply Z.leb_le in Efid, Epid.
  apply existsb_key_false in Eff, Epf. apply existsb_key in Euser.
  repeat (split; [assumption || reflexivity|]).
  rewrite <- H.
  apply upload_succeeds; assumption.
Qed.

End Upload.

Section PostUpload.
Variable now : Z.
Variable req : upload_request.
Variable d : db.

Let acting_user : Z := match req_userId req with None => 1 | Some u => u end.
Let fid := files_fileId_seq (db_sequences d) + 1.
Let pid := posts_postId_seq (db_sequences d) + 1.

Let new_file (sound layers : option Z) : file_row :=
  {| fileId := fid; fileObjectKey := sar_key req;
     previewImagePath := thumbnail_location req;
     filePropsName := body_filePropsName req;
     filePropsSound := sound; filePropsLayerCount := layers |}.

Let new_post (ttl : string) : post_row :=
  {| postId := pid; post_fileId := fid; post_userId := acting_user;
     createdAt := now; title := ttl;
     description := Some (description_or_empty (body_description req)) |}.

(** X12. A create request with a tag string and a title, whose sound and
    layer count are absent or integers, whose acting user (user 1 for an
    anonymous request) exists, and for which the next values of the two
    sequences are free, answers 200 with the new post and file and commits
    exactly this: the file and the post appended with those identities,
    the post owned by the acting user, stamped [now], its description the
    empty string when none was given; one tagging per trimmed piece of the
    tag string; the new tag names appended to the vocabulary; both
    sequences advanced by one. *)
Theorem upload_effect (rawTags ttl : string) (sound layers : option Z) :
  body_tags req = Some rawTags ->
  body_title req = Some ttl ->
  int4in_null (body_filePropsSound req) = Ok sound ->
  int4in_null (body_filePropsLayerCount req) = Ok layers ->
  in_int4 acting_user = true ->
  fid <= int4_max -> ~ In fid (map fileId (files (db_tables d))) ->
  pid <= int4_max -> ~ In pid (map postId (posts (db_tables d))) ->
  In acting_user (map userId (users (db_tables d))) ->
  post_upload now req d
  = {| response := Sent 200 [(new_post ttl, new_file sound layers)];
       store :=
         {| db_tables :=
              {| files := files (db_tables d) ++ [new_file sound layers];
                 posts := posts (db_tables d) ++ [new_post ttl];
                 taggings :=
                   taggings (db_tables d)
                   ++ map (fun name => {| tagName := name; tagging_postId := pid |})
                          (map JS.trim (JS.split "," rawTags));
                 tags := fold_left SQL.upsert_tag
                           (map JS.trim (JS.split "," rawTags))
                           (tags (db_tables d));
                 users := users (db_tables d) |};
            db_sequences :=
              {| files_fileId_seq := fid; posts_postId_seq := pid;
                 users_userId_seq := users_userId_seq (db_sequences d) |} |};
       queries := 1 |}.
Proof.
  intros Ht Httl Hs Hl Hu Hfid Hff Hpid Hpf Huser.
  unfold post_upload. rewrite Ht. unfold db_query, SQL.query.
  rewrite (upload_succeeds now _ (db_tables d) (db_sequences d) sound layers ttl);
    try assumption.
  reflexivity.
Qed.

(** X13. A create request answers 200 only under those conditions: the
    tag string and the title are there, sound and layer count are absent
    or integers, the acting user exists, and the next values of both
    sequences are within [integer] and free. *)
Theorem upload_succeeds_only_if (rows : list (post_row * file_row)) :
  response (post_upload now req d) = Sent 200 rows ->
  exists rawTags ttl sound layers,
    body_tags req = Some rawTags
    /\ body_title req = Some ttl
    /\ int4in_null (body_filePropsSound req) = Ok sound
    /\ int4in_null (body_filePropsLayerCount req) = Ok layers
    /\ in_int4 acting_user = true
    /\ fid <= int4_max /\ ~ In fid (map fileId (files (db_tables d)))
    /\ pid <= int4_max /\ ~ In pid (map postId (posts (db_tables d)))
    /\ In acting_user (map userId (users (db_tables d)))
    /\ rows = [(new_post ttl, new_file sound layers)].
Proof.
  intros H. apply post_upload_sent in H as (rawTags & sq & Ht & H).
  apply upload_succeeds_inv in H
    as (sound & layers & ttl & Hs & Hl & Hu & Hfid & Hff & Hpid & Httl
        & Hpf & Huser & E).
  exists rawTags, ttl, sound, layers.
  repeat (split; [assumption|]).
  now injection E as _ _ ->.
Qed.

End PostUpload.

Lemma upload_effect_witness :
  post_upload 1700000000 Sample.tagged_upload Sample.dump
  = {| response :=
         Sent 200
           [({| postId := 9; post_fileId := 9; post_userId := 1;
                createdAt := 1700000000; title := "Matoi";
                description := Some "episode 2" |},
             {| fileId := 9; fileObjectKey := "77aa.sar";
                previewImagePath :=
                  "https://symbol-art-vault.s3.us-west-1.amazonaws.com/77aa.png";
                filePropsName := None; filePropsSound := Some 3;
                filePropsLayerCount := Some 64 |})];
       store := store (post_upload 1700000000 Sample.tagged_upload Sample.dump);
       queries := 1 |}
  /\ map postId (posts (db_tables
        (store (post_upload 1700000000 Sample.tagged_upload Sample.dump))))
     = [4; 6; 9].
Proof.
  split; [|reflexivity].
  rewrite (upload_effect 1700000000 Sample.tagged_upload Sample.dump
             "pso2, pso2 , meme,  " "Matoi" (Some 3) (Some 64));
    try reflexivity; try (vm_compute; discriminate).
  - simpl. intros [H|[H|[]]]; discriminate H.
  - simpl. intros [H|[H|[]]]; discriminate H.
  - simpl. now left.
Defined.

Lemma upload_succeeds_only_if_witness :
  exists rawTags ttl sound layers,
    body_tags Sample.tagged_upload = Some rawTags
    /\ body_title Sample.tagged_upload = Some ttl
    /\ int4in_null (body_filePropsSound Sample.tagged_upload) = Ok sound
    /\ int4in_null (body_filePropsLayerCount Sample.tagged_upload) = Ok layers
    /\ in_int4 1 = true
    /\ 9 <= int4_max /\ ~ In 9 (map fileId (files (db_tables Sample.dump)))
    /\ 9 <= int4_max /\ ~ In 9 (map postId (posts (db_tables Sample.dump)))
    /\ In 1 (map userId (users (db_tables Sample.dump))).
Proof.
  destruct (upload_succeeds_only_if 1700000000 Sample.tagged_upload Sample.dump
              (match response (post_upload 1700000000 Sample.tagged_upload
                                 Sample.dump) with
               | Sent _ rows => rows
               | _ => []
               end) eq_refl)
    as (rawTags & ttl & sound & layers & H1 & H2 & H3 & H4 & H5 & H6 & H7
        & H8 & H9 & H10 & _).
  exists rawTags, ttl, sound, layers. repeat (split; [assumption|]). exact H10.
Defined.

(** ** The writes keep the constraints of the schema *)

Lemma NoDup_snoc {T} (l : list T) (x : T) :
  NoDup l -> ~ In x l -> NoDup (l ++ [x]).
Proof.
  intros Hl Hx. apply NoDup_rev in Hl.
  rewrite <- (rev_involutive (l ++ [x])). apply NoDup_rev.
  rewrite rev_app_distr. simpl. constructor; [|exact Hl].
  now rewrite <- in_rev.
Qed.

Lemma In_map_snoc {T U} (h : T -> U) (l : list T) (x : T) (y : U) :
  In y (map h l) -> In y (map h (l ++ [x])).
Proof. intros H. rewrite map_app. apply in_or_app. now left. Qed.

Lemma upload_keeps_constraints (t : tables) (f : file_row) (p : post_row)
    (names : list string) :
  Consistent t ->
  ~ In (fileId f) (map fileId (files t)) ->
  ~ In (postId p) (map postId (posts t)) ->
  post_fileId p = fileId f ->
  In (post_userId p) (map userId (users t)) ->
  Consistent
    {| files := files t ++ [f];
       posts := posts t ++ [p];
       taggings :=
         taggings t
         ++ map (fun name => {| tagName := name; tagging_postId := postId p |})
                names;
       tags := fold_left SQL.upsert_tag names (tags t);
       users := users t |}.
Proof.
  intros [K1 K2 K3 K4 K5 K6 K7 K8 K9 K10] Hf Hp Hpf Hu.
  constructor; simpl; auto.
  - rewrite map_app. simpl. now apply NoDup_snoc.
  - rewrite map_app. simpl. now apply NoDup_snoc.
  - now apply upsert_all_NoDup.
  - intros x Hx. apply in_app_or in Hx as [Hx|[<-|[]]].
    + now apply In_map_snoc, K7.
    + rewrite Hpf, map_app. apply in_or_app. right. now left.
  - intros x Hx. apply in_app_or in Hx as [Hx|[<-|[]]]; auto.
  - intros r Hr. apply in_app_or in Hr as [Hr|Hr].
    + now apply In_map_snoc, K9.
    + apply in_map_iff in Hr as (n & <- & _). simpl.
      rewrite map_app. apply in_or_app. right. now left.
  - intros r Hr. apply in_app_or in Hr as [Hr|Hr].
    + now apply upsert_all_keeps, K10.
    + apply in_map_iff in Hr as (n & <- & Hn). simpl.
      now apply upsert_all_contains.
Qed.

Lemma post_upload_keeps_constraints now (req : upload_request) (d : db) :
  Consistent (db_tables d) ->
  Consistent (db_tables (store (post_upload now req d))).
Proof.
  intros K.
  destruct (post_upload_store now req d)
    as [E|(rawTags & sq & rows & _ & _ & H)]; [now rewrite E|].
  apply upload_succeeds_inv in H
    as (sound & layers & ttl & _ & _ & _ & _ & Hff & _ & _ & Hpf & Hu & E).
  injection E as _ -> _.
  apply (upload_keeps_constraints (db_tables d)
           {| fileId := files_fileId_seq (db_sequences d) + 1;
              fileObjectKey := sar_key req;
              previewImagePath := thumbnail_location req;
              filePropsName := body_filePropsName req;
              filePropsSound := sound; filePropsLayerCount := layers |}
           {| postId := posts_postId_seq (db_sequences d) + 1;
              post_fileId := files_fileId_seq (db_sequences d) + 1;
              post_userId := match req_userId req with None => 1 | Some u => u end;
              createdAt := now; title := ttl;
              description := Some (description_or_empty (body_description req)) |}
           (upload_tags rawTags) K); auto.
Qed.

Lemma references_keys (l l' : list post_row) :
  map references l' = map references l ->
  map postId l' = map postId l
  /\ map post_fileId l' = map post_fileId l
  /\ map post_userId l' = map post_userId l.
Proof.
  intros E.
  pose proof (f_equal (map (fun r : Z * Z * Z * Z => fst (fst (fst r)))) E) as E1.
  pose proof (f_equal (map (fun r : Z * Z * Z * Z => snd (fst (fst r)))) E) as E2.
  pose proof (f_equal (map (fun r : Z * Z * Z * Z => snd (fst r))) E) as E3.
  rewrite !map_map in E1, E2, E3. auto.
Qed.

(** What a committed edit statement has checked, besides what it did. *)
Lemma edit_succeeds_inv (p : SQL.edit_params) (t t' : tables) sq sq' rows :
  SQL.edit p t sq = (sq', Ok (t', rows)) ->
  exists id updated,
    int4in (SQL.ed_id p) = Ok id
    /\ SQL.update_posts id (SQL.ed_title p) (SQL.ed_description p) (posts t)
       = Ok updated
    /\ (SQL.ed_tags p <> [] -> In id (map postId (posts t)))
    /\ sq' = sq
    /\ t' = {| files := files t;
               posts := updated;
               taggings :=
                 filter (fun r => negb (tagging_postId r =? id)) (taggings t)
                 ++ map (fun name => {| tagName := name; tagging_postId := id |})
                        (SQL.ed_tags p);
               tags := fold_left SQL.upsert_tag (SQL.ed_tags p) (tags t);
               users := users t |}
    /\ rows = filter (fun v => SQL.Projection.postId v =? id)
                (SQL.joined_posts t
                   [(id, SQL.array_agg (SQL.ed_tags p))]).
Proof.
  unfold SQL.edit, bind, lift, ret.
  destruct (int4in (SQL.ed_id p)) as [id|] eqn:Eid; [|discriminate].
  destruct (SQL.update_posts id _ _ _) as [updated|] eqn:Eu; [|discriminate].
  destruct (SQL.check_tagging_fkeys _ _) eqn:Ec; [|discriminate].
  intros H. injection H as <- <- <-. exists id, updated.
  repeat split; auto.
  - intros Hne. destruct (SQL.ed_tags p) as [|n names]; [now elim Hne|].
    destruct a.
    destruct (check_tagging_fkeys_inv _ _ Ec
                {| tagName := n; tagging_postId := id |}) as (Hfk & _);
      [now left|].
    simpl in Hfk.
    pose proof (update_posts_references _ _ _ _ _ Eu) as Er.
    apply references_keys in Er as (Eids & _).
    now rewrite <- Eids.
  - rewrite map_map. simpl. now rewrite map_id.
Qed.

Lemma put_posts_edit_keeps_constraints (req : edit_request) (d : db) :
  Consistent (db_tables d) ->
  Consistent (db_tables (store (put_posts_edit req d))).
Proof.
  intros K.
  destruct (put_posts_edit_store req d)
    as [E|(rawTags & sq & rows & _ & H)]; [now rewrite E|].
  assert (H0 := H).
  apply edit_succeeds_inv in H as (id & updated & _ & Hu & Hid & _ & E & _).
  apply update_posts_references, references_keys in Hu as (E1 & E2 & E3).
  rewrite E. clear E H0.
  destruct K as [K1 K2 K3 K4 K5 K6 K7 K8 K9 K10].
  constructor; simpl; auto.
  - now rewrite E1.
  - now apply upsert_all_NoDup.
  - intros x Hx. apply (in_map post_fileId) in Hx. rewrite E2 in Hx.
    apply in_map_iff in Hx as (y & <- & Hy). now apply K7.
  - intros x Hx. apply (in_map post_userId) in Hx. rewrite E3 in Hx.
    apply in_map_iff in Hx as (y & <- & Hy). now apply K8.
  - intros r Hr. rewrite E1. apply in_app_or in Hr as [Hr|Hr].
    + apply filter_In in Hr as (Hr & _). now apply K9.
    + apply in_map_iff in Hr as (n & <- & Hn). simpl.
      apply Hid. cbn [SQL.ed_tags]. intros Hnil. rewrite Hnil in Hn.
      contradiction.
  - intros r Hr. apply in_app_or in Hr as [Hr|Hr].
    + apply filter_In in Hr as (Hr & _). now apply upsert_all_keeps, K10.
    + apply in_map_iff in Hr as (n & <- & Hn). simpl.
      now apply upsert_all_contains.
Qed.

(** ** Sign-up and sign-in *)

Section InsertUser.
Variable now : Z.
Variables name hashed : string.
Variable t : tables.
Variable sq : sequences.

Let uid := users_userId_seq sq + 1.
Let advanced : sequences :=
  {| files_fileId_seq := files_fileId_seq sq;
     posts_postId_seq := posts_postId_seq sq;
     users_userId_seq := uid |}.

Lemma insert_user_taken :
  uid <= int4_max ->
  In name (map username (users t)) ->
  Auth.insert_user now name hashed t sq = (advanced, Ok (t, [])).
Proof.
  intros Hu Hn. unfold Auth.insert_user, bind, Auth.nextval_users. fold uid.
  apply Z.leb_le in Hu. rewrite Hu.
  apply existsb_text in Hn. now rewrite Hn.
Qed.

Lemma insert_user_new :
  uid <= int4_max ->
  ~ In name (map username (users t)) ->
  ~ In uid (map userId (users t)) ->
  ~ In hashed (map hashedPassword (users t)) ->
  Auth.insert_user now name hashed t sq
  = (advanced,
     Ok ({| files := files t; posts := posts t; taggings := taggings t;
            tags := tags t;
            users := users t ++ [ {| userId := uid; username := name;
                                     hashedPassword := hashed;
                                     user_createdAt := now |} ] |},
         [(uid, name)])).
Proof.
  intros Hu Hn Hi Hh. unfold Auth.insert_user, bind, Auth.nextval_users.
  fold uid. apply Z.leb_le in Hu. rewrite Hu.
  destruct (existsb (fun u => String.eqb (username u) name) (users t)) eqn:E1;
    [now apply existsb_text in E1|].
  apply existsb_key_false in Hi. rewrite Hi.
  destruct (existsb (fun u => String.eqb (hashedPassword u) hashed) (users t))
    eqn:E3; [now apply existsb_text in E3|].
  reflexivity.
Qed.

Lemma insert_user_inv (sq' : sequences) (t' : tables) (rows : list (Z * string)) :
  Auth.insert_user now name hashed t sq = (sq', Ok (t', rows)) ->
  uid <= int4_max /\ sq' = advanced
  /\ ((In name (map username (users t)) /\ t' = t /\ rows = [])
      \/ (~ In name (map username (users t))
          /\ ~ In uid (map userId (users t))
          /\ ~ In hashed (map hashedPassword (users t))
          /\ t' = {| files := files t; posts := posts t;
                     taggings := taggings t; tags := tags t;
                     users := users t ++ [ {| userId := uid; username := name;
                                              hashedPassword := hashed;
                                              user_createdAt := now |} ] |}
          /\ rows = [(uid, name)])).
Proof.
  unfold Auth.insert_user, bind, Auth.nextval_users, lift, ret. fold uid.
  destruct (uid <=? int4_max) eqn:Eu; [|discriminate].
  apply Z.leb_le in Eu.
  destruct (existsb (fun u => String.eqb (username u) name) (users t)) eqn:E1.
  - intros [= <- <- <-]. apply existsb_text in E1.
    split; [exact Eu|]. split; [reflexivity|]. left. auto.
  - destruct (existsb (fun u => userId u =? uid) (users t)) eqn:E2;
      [discriminate|].
    destruct (existsb (fun u => String.eqb (hashedPassword u) hashed) (users t))
      eqn:E3; [discriminate|].
    intros [= <- <- <-]. split; [exact Eu|]. split; [reflexivity|]. right.
    apply existsb_key_false in E2.
    repeat split; auto.
    + intros H. apply existsb_text in H. congruence.
    + intros H. apply existsb_text in H. congruence.
Qed.

End InsertUser.

Lemma sign_up_keeps_constraints (hash : string -> string -> string) now salt
    (name password : option string) (d : db) :
  Consistent (db_tables d) ->
  Consistent (db_tables (store (Auth.post_auth_sign_up hash now salt name password d))).
Proof.
  intros K. unfold Auth.post_auth_sign_up.
  destruct (JS.falsy name || JS.falsy password); [exact K|].
  unfold db_query, SQL.query.
  destruct (Auth.insert_user _ _ _ _ _) as [sq [[t' rows]|e]] eqn:E; simpl;
    [|exact K].
  apply insert_user_inv in E
    as (_ & _ & [(_ & -> & _)|(Hn & Hi & Hh & -> & _)]); [exact K|].
  destruct K as [K1 K2 K3 K4 K5 K6 K7 K8 K9 K10].
  constructor; simpl; auto.
  - rewrite map_app. simpl. now apply NoDup_snoc.
  - rewrite map_app. simpl. now apply NoDup_snoc.
  - rewrite map_app. simpl. now apply NoDup_snoc.
  - intros x Hx. now apply In_map_snoc, K8.
Qed.

(** X14. A store that keeps the primary keys, unique keys and foreign keys
    of the schema still keeps them after any sequence of create, edit and
    sign-up requests, whichever of them fail. *)
Theorem writes_keep_constraints (hash : string -> string -> string)
    (ws : list Writes.write) (d : db) :
  Consistent (db_tables d) ->
  Consistent (db_tables (Writes.apply_all hash ws d)).
Proof.
  unfold Writes.apply_all. revert d.
  induction ws as [|w ws IH]; simpl; intros d K; [exact K|].
  apply IH. destruct w as [now req|req|now salt name password]; simpl.
  - now apply post_upload_keeps_constraints.
  - now apply put_posts_edit_keeps_constraints.
  - now apply sign_up_keeps_constraints.
Qed.

Lemma writes_keep_constraints_witness :
  Consistent (db_tables Sample.dump)
  /\ Consistent (db_tables (Writes.apply_all Fixture.hash Fixture.busy_day
                              Sample.dump))
  /\ map username
       (users (db_tables (Writes.apply_all Fixture.hash Fixture.busy_day
                            Sample.dump)))
     = ["admin"; "quna"]
  /\ map postId
       (posts (db_tables (Writes.apply_all Fixture.hash Fixture.busy_day
                            Sample.dump)))
     = [4; 6; 9].
Proof.
  assert (K : Consistent (db_tables Sample.dump))
    by (apply consistent_spec; reflexivity).
  split; [exact K|].
  split; [exact (writes_keep_constraints Fixture.hash Fixture.busy_day
                   Sample.dump K)|].
  split; reflexivity.
Defined.

Lemma filter_unique_text (T : Type) (key : T -> string) (l : list T) (x : T) :
  NoDup (map key l) -> In x l ->
  filter (fun y => String.eqb (key y) (key x)) l = [x].
Proof.
  induction l as [|a l IH]; simpl; [contradiction|].
  intros Hnd Hin. inversion Hnd as [|? ? Ha Hl]; subst.
  destruct Hin as [->|Hin].
  - rewrite String.eqb_refl. f_equal. apply filter_none.
    intros y Hy. apply String.eqb_neq. intros E. apply Ha. rewrite <- E.
    now apply in_map.
  - assert (E : String.eqb (key a) (key x) = false).
    { apply String.eqb_neq. intros E. apply Ha. rewrite E. now apply in_map. }
    rewrite E. now apply IH.
Qed.

Lemma filter_absent_text (T : Type) (key : T -> string) (l : list T) (k : string) :
  ~ In k (map key l) -> filter (fun y => String.eqb (key y) k) l = [].
Proof.
  intros H. apply filter_none. intros y Hy. apply String.eqb_neq.
  intros E. apply H. rewrite <- E. now apply in_map.
Qed.

Section SignUp.
Variable hash : string -> string -> string.
Variable now : Z.
Variable salt : string.
Variables name password : option string.
Variable d : db.

Let uid := users_userId_seq (db_sequences d) + 1.
Let advanced : sequences :=
  {| files_fileId_seq := files_fileId_seq (db_sequences d);
     posts_postId_seq := posts_postId_seq (db_sequences d);
     users_userId_seq := uid |}.

(** X15. A sign-up with a username and a password, the username not yet
    taken and the next value of the sequence free, answers 201 with the
    username and the new identity and appends one user with that identity,
    that username, the digest [argon2.hash] made of the password, and the
    time of the request; no other table changes. *)
Theorem sign_up_creates_user :
  JS.falsy name = false -> JS.falsy password = false ->
  uid <= int4_max ->
  ~ In (JS.value name) (map username (users (db_tables d))) ->
  ~ In uid (map userId (users (db_tables d))) ->
  ~ In (hash salt (JS.value password))
       (map hashedPassword (users (db_tables d))) ->
  Auth.post_auth_sign_up hash now salt name password d
  = {| response := Sent 201 (JS.value name, uid);
       store :=
         {| db_tables :=
              {| files := files (db_tables d); posts := posts (db_tables d);
                 taggings := taggings (db_tables d); tags := tags (db_tables d);
                 users :=
                   users (db_tables d)
                   ++ [ {| userId := uid; username := JS.value name;
                           hashedPassword := hash salt (JS.value password);
                           user_createdAt := now |} ] |};
            db_sequences := advanced |};
       queries := 1 |}.
Proof.
  intros Hn Hp Hu Hfresh Hid Hh. unfold Auth.post_auth_sign_up.
  rewrite Hn, Hp. simpl. unfold db_query, SQL.query.
  now rewrite (insert_user_new now _ _ (db_tables d) (db_sequences d)
                 Hu Hfresh Hid Hh).
Qed.

(** X16. A sign-up without a username or without a password is turned
    down with status 400 before anything is sent to the store.  A sign-up
    for a username that is taken answers 409 and leaves every table as it
    is; the identity drawn from the sequence for it is not given back. *)
Theorem sign_up_refusals :
  (JS.falsy name = true \/ JS.falsy password = true ->
     Auth.post_auth_sign_up hash now salt name password d
     = without_query (ClientError 400 Auth.required) d)
  /\ (JS.falsy name = false -> JS.falsy password = false ->
      uid <= int4_max ->
      In (JS.value name) (map username (users (db_tables d))) ->
      Auth.post_auth_sign_up hash now salt name password d
      = {| response := ClientError 409 "username already taken";
           store := {| db_tables := db_tables d; db_sequences := advanced |};
           queries := 1 |}).
Proof.
  unfold Auth.post_auth_sign_up. split.
  - intros [H|H]; rewrite H; [reflexivity | now rewrite orb_true_r].
  - intros Hn Hp Hu Htaken. rewrite Hn, Hp. simpl. unfold db_query, SQL.query.
    now rewrite (insert_user_taken now _ _ (db_tables d) (db_sequences d)
                   Hu Htaken).
Qed.

End SignUp.

Lemma sign_up_creates_user_witness :
  Auth.post_auth_sign_up Fixture.hash 1700000000 "c2FsdA"
    (Some "quna") (Some "idol") Sample.dump
  = {| response := Sent 201 ("quna", 2);
       store :=
         {| db_tables :=
              {| files := files (db_tables Sample.dump);
                 posts := posts (db_tables Sample.dump);
                 taggings := taggings (db_tables Sample.dump);
                 tags := tags (db_tables Sample.dump);
                 users :=
                   [ Sample.admin;
                     {| userId := 2; username := "quna";
                        hashedPassword := "$c2FsdA$idol";
                        user_createdAt := 1700000000 |} ] |};
            db_sequences :=
              {| files_fileId_seq := 8; posts_postId_seq := 8;
                 users_userId_seq := 2 |} |};
       queries := 1 |}.
Proof.
  apply (sign_up_creates_user Fixture.hash 1700000000 "c2FsdA"
           (Some "quna") (Some "idol") Sample.dump);
    try reflexivity; try (vm_compute; discriminate);
    simpl; intros [H|[]]; discriminate H.
Defined.

Lemma sign_up_refusals_witness :
  Auth.post_auth_sign_up Fixture.hash 1700000000 "c2FsdA"
    (Some "quna") None Sample.dump
  = without_query (ClientError 400 Auth.required) Sample.dump
  /\ Auth.post_auth_sign_up Fixture.hash 1700000000 "c2FsdA"
       (Some "admin") (Some "idol") Sample.dump
     = {| response := ClientError 409 "username already taken";
          store :=
            {| db_tables := db_tables Sample.dump;
               db_sequences :=
                 {| files_fileId_seq := 8; posts_postId_seq := 8;
                    users_userId_seq := 2 |} |};
          queries := 1 |}.
Proof.
  split.
  - apply (sign_up_refusals Fixture.hash 1700000000 "c2FsdA"
             (Some "quna") None Sample.dump). now right.
  - apply (sign_up_refusals Fixture.hash 1700000000 "c2FsdA"
             (Some "admin") (Some "idol") Sample.dump);
      try reflexivity; [vm_compute; discriminate | now left].
Defined.

Section SignIn.
Variable verify : string -> string -> option bool.
Variable sign : Z -> string -> string.
Variables name password : option string.
Variable d : db.

(** X17. Sign-in never changes the store.  Without a username or a
    password it answers 400 and sends nothing.  For a username no user
    has, it answers 401 [invalid login].  For the username of user [u], in
    a store that keeps usernames unique, it answers by what
    [argon2.verify] says of the stored digest and the password: 200 with
    the token signed for [u] and the identity and name of [u]; the same
    401 [invalid login] as for an unknown username; or, when [verify]
    rejects the digest, an error for the error middleware. *)
Theorem sign_in_outcomes :
  (JS.falsy name = true \/ JS.falsy password = true ->
     Auth.post_auth_sign_in verify sign name password d
     = without_query (ClientError 400 Auth.required) d)
  /\ (JS.falsy name = false -> JS.falsy password = false ->
      ~ In (JS.value name) (map username (users (db_tables d))) ->
      Auth.post_auth_sign_in verify sign name password d
      = {| response := ClientError 401 "invalid login";
           store := d; queries := 1 |})
  /\ (JS.falsy name = false -> JS.falsy password = false ->
      NoDup (map username (users (db_tables d))) ->
      forall u, In u (users (db_tables d)) -> username u = JS.value name ->
      Auth.post_auth_sign_in verify sign name password d
      = {| response :=
             match verify (hashedPassword u) (JS.value password) with
             | Some true =>
                 Sent 200 {| Auth.token := sign (userId u) (username u);
                             Auth.user := (userId u, username u) |}
             | Some false => ClientError 401 "invalid login"
             | None =>
                 Errored (JS.TypeError "argon2.verify(hashedPassword, password)")
             end;
           store := d; queries := 1 |}).
Proof.
  unfold Auth.post_auth_sign_in. split; [|split].
  - intros [H|H]; rewrite H; [reflexivity | now rewrite orb_true_r].
  - intros Hn Hp Hmiss. rewrite Hn, Hp. simpl. rewrite reading_reply.
    unfold Auth.select_user. now rewrite filter_absent_text.
  - intros Hn Hp Hnd u Hu Eu. rewrite Hn, Hp. simpl. rewrite reading_reply.
    unfold Auth.select_user. rewrite <- Eu.
    rewrite (filter_unique_text _ username _ u Hnd Hu).
    now destruct (verify (hashedPassword u) (JS.value password)) as [[|]|].
Qed.

End SignIn.

Lemma sign_in_outcomes_witness :
  Auth.post_auth_sign_in Fixture.verify Fixture.sign (Some "quna") (Some "idol")
    Sample.dump
  = {| response := ClientError 401 "invalid login";
       store := Sample.dump; queries := 1 |}
  /\ Auth.post_auth_sign_in Fixture.verify Fixture.sign (Some "admin")
       (Some "fakepassword") Sample.dump
     = {| response :=
            Errored (JS.TypeError "argon2.verify(hashedPassword, password)");
          store := Sample.dump; queries := 1 |}
  /\ Auth.post_auth_sign_in Fixture.verify Fixture.sign (Some "admin") None
       Sample.dump
     = without_query (ClientError 400 Auth.required) Sample.dump.
Proof.
  destruct (sign_in_outcomes Fixture.verify Fixture.sign (Some "quna")
              (Some "idol") Sample.dump) as (_ & Hunknown & _).
  destruct (sign_in_outcomes Fixture.verify Fixture.sign (Some "admin")
              (Some "fakepassword") Sample.dump) as (_ & _ & Hknown).
  destruct (sign_in_outcomes Fixture.verify Fixture.sign (Some "admin")
              None Sample.dump) as (Hmissing & _).
  split; [|split].
  - apply Hunknown; try reflexivity. simpl. intros [H|[]]. discriminate H.
  - assert (Hnd : NoDup (map username (users (db_tables Sample.dump))))
      by (apply distinct_names_NoDup; reflexivity).
    rewrite (Hknown eq_refl eq_refl Hnd Sample.admin (or_introl eq_refl)
               eq_refl).
    reflexivity.
  - apply Hmissing. now right.
Defined.

Lemma sign_up_sent_inv (hash : string -> string -> string) (now : Z)
    (salt : string) (name password : option string) (d : db)
    (n : string) (uid : Z) :
  response (Auth.post_auth_sign_up hash now salt name password d)
    = Sent 201 (n, uid) ->
  JS.falsy name = false /\ JS.falsy password = false
  /\ n = JS.value name
  /\ uid = users_userId_seq (db_sequences d) + 1
  /\ ~ In n (map username (users (db_tables d)))
  /\ users (db_tables (store (Auth.post_auth_sign_up hash now salt name password d)))
     = users (db_tables d)
       ++ [ {| userId := uid; username := n;
               hashedPassword := hash salt (JS.value password);
               user_createdAt := now |} ].
Proof.
  unfold Auth.post_auth_sign_up.
  destruct (JS.falsy name) eqn:Hn; [discriminate|].
  destruct (JS.falsy password) eqn:Hp; [discriminate|].
  cbn [orb]. unfold db_query, SQL.query.
  destruct (Auth.insert_user _ _ _ _ _) as [sq [[t' rows]|e]] eqn:E;
    cbn [response store]; [|discriminate].
  apply insert_user_inv in E
    as (_ & _ & [(_ & _ & ->)|(Hfresh & _ & _ & -> & ->)]); [discriminate|].
  intros H. apply Sent_inj in H. injection H as <- <-.
  repeat split; auto.
Qed.

(** X18. After a sign-up that answered 201, a sign-in under the same
    username on the store it left finds exactly the new user: it answers
    200 with the token signed for the new identity and name when
    [argon2.verify] accepts the attempted password against the digest made
    at sign-up, and 401 [invalid login] when it does not. *)
Theorem sign_up_then_sign_in (hash : string -> string -> string)
    (verify : string -> string -> option bool) (sign : Z -> string -> string)
    (now : Z) (salt : string) (name password attempt : option string)
    (d : db) (n : string) (uid : Z) (ok : bool) :
  response (Auth.post_auth_sign_up hash now salt name password d)
    = Sent 201 (n, uid) ->
  JS.falsy attempt = false ->
  verify (hash salt (JS.value password)) (JS.value attempt) = Some ok ->
  response
    (Auth.post_auth_sign_in verify sign name attempt
       (store (Auth.post_auth_sign_up hash now salt name password d)))
  = if ok
    then Sent 200 {| Auth.token := sign uid n; Auth.user := (uid, n) |}
    else ClientError 401 "invalid login".
Proof.
  intros H Ha Hv.
  apply sign_up_sent_inv in H as (Hn & _ & -> & _ & Hfresh & Husers).
  unfold Auth.post_auth_sign_in. rewrite Hn, Ha. cbn [orb].
  rewrite reading_reply. cbn [response].
  unfold Auth.select_user. rewrite Husers.
  rewrite filter_app, filter_absent_text by exact Hfresh.
  cbn [filter app username hashedPassword userId].
  rewrite String.eqb_refl. cbn [hashedPassword userId username].
  rewrite Hv. now destruct ok.
Qed.

Lemma sign_up_then_sign_in_witness :
  let signed_up :=
    store (Auth.post_auth_sign_up Fixture.hash 1700000000 "c2FsdA"
             (Some "quna") (Some "idol") Sample.dump) in
  response (Auth.post_auth_sign_in Fixture.verify Fixture.sign
              (Some "quna") (Some "idol") signed_up)
    = Sent 200 {| Auth.token := "token of quna"; Auth.user := (2, "quna") |}
  /\ response (Auth.post_auth_sign_in Fixture.verify Fixture.sign
                 (Some "quna") (Some "idle") signed_up)
     = ClientError 401 "invalid login".
Proof.
  intros signed_up. split.
  - apply (sign_up_then_sign_in Fixture.hash Fixture.verify Fixture.sign
             1700000000 "c2FsdA" (Some "quna") (Some "idol") (Some "idol")
             Sample.dump "quna" 2 true); reflexivity.
  - apply (sign_up_then_sign_in Fixture.hash Fixture.verify Fixture.sign
             1700000000 "c2FsdA" (Some "quna") (Some "idol") (Some "idle")
             Sample.dump "quna" 2 false); reflexivity.
Defined.

(** ** A post that was just created *)

Lemma fresh_post_has_no_tagging (t : tables) (id : Z) :
  Consistent t -> ~ In id (map postId (posts t)) ->
  filter (fun r => tagging_postId r =? id) (taggings t) = [].
Proof.
  intros K Hfresh. apply filter_none. intros r Hr. apply Z.eqb_neq.
  intros E. apply Hfresh. rewrite <- E. now apply (taggings_postId_fkey t K).
Qed.

(** X19. In a store that keeps its constraints, a post that a create
    request has just made can be read back at once: the lookup of its
    identity answers 200 with the title, description and time of that
    post, the fields of the file made with it, the name of the acting user
    and, as tags, the trimmed pieces of the submitted tag string; and the
    full listing has that same row, once. *)
Theorem create_then_read (Number : string -> JS.number) (now : Z)
    (req : upload_request) (d : db) (rawTags : string)
    (p : post_row) (f : file_row) (id : string) :
  Consistent (db_tables d) ->
  body_tags req = Some rawTags ->
  response (post_upload now req d) = Sent 200 [(p, f)] ->
  @check_id Number SQL.Projection.t id = None ->
  int4in id = Ok (postId p) ->
  exists u rows,
    In u (users (db_tables d)) /\ userId u = post_userId p
    /\ get_posts_view Number id (store (post_upload now req d))
       = {| response :=
              Sent 200 (SQL.project p f u (Some (map JS.trim (JS.split "," rawTags))));
            store := store (post_upload now req d); queries := 1 |}
    /\ response (get_catalog (store (post_upload now req d))) = Sent 200 rows
    /\ filter (fun v => SQL.Projection.postId v =? postId p) rows
       = [SQL.project p f u (Some (map JS.trim (JS.split "," rawTags)))].
Proof.
  intros K Ht Hs Hc Hid.
  pose proof (post_upload_keeps_constraints now req d K) as K'.
  apply post_upload_sent in Hs as (raw & sq & Ht' & Hs).
  rewrite Ht in Ht'. injection Ht' as <-.
  apply upload_succeeds_inv in Hs
    as (sound & layers & ttl & _ & _ & _ & _ & _ & _ & _ & Hpf & Hu & E).
  injection E. intros -> -> Et _.
  apply in_map_iff in Hu as (u & Eu & Hu).
  set (d' := store (post_upload now req d)) in *.
  assert (Hp' : In {| postId := posts_postId_seq (db_sequences d) + 1;
                      post_fileId := files_fileId_seq (db_sequences d) + 1;
                      post_userId := match req_userId req with
                                     | Some u0 => u0 | None => 1 end;
                      createdAt := now; title := ttl;
                      description :=
                        Some (description_or_empty (body_description req)) |}
                   (posts (db_tables d')))
    by (rewrite Et; simpl; apply in_or_app; right; now left).
  assert (Hf' : In {| fileId := files_fileId_seq (db_sequences d) + 1;
                      fileObjectKey := sar_key req;
                      previewImagePath := thumbnail_location req;
                      filePropsName := body_filePropsName req;
                      filePropsSound := sound; filePropsLayerCount := layers |}
                   (files (db_tables d')))
    by (rewrite Et; simpl; apply in_or_app; right; now left).
  assert (Hu' : In u (users (db_tables d'))) by (rewrite Et; exact Hu).
  assert (Etags : tags_of (posts_postId_seq (db_sequences d) + 1) (db_tables d')
                  = map JS.trim (JS.split "," rawTags)).
  { unfold tags_of. rewrite Et. cbn [taggings SQL.up_tags].
    apply added_taggings_read_back. now apply fresh_post_has_no_tagging. }
  assert (Hne : tags_of (posts_postId_seq (db_sequences d) + 1) (db_tables d')
                <> []).
  { rewrite Etags. intros Enil. apply map_eq_nil in Enil.
    now apply split_not_empty in Enil. }
  pose proof (formatted_post _ K' _ _ u Hp' Hf' eq_refl Hu' Eu Hne) as Hrow.
  cbn [postId] in Hrow, Hid. rewrite Etags in Hrow.
  exists u,
    (SQL.order_by SQL.newest_first (SQL.formatted_posts (db_tables d'))).
  split; [exact Hu|]. split; [exact Eu|]. split; [|split].
  - unfold get_posts_view. rewrite Hc, reading_reply. unfold SQL.view.
    cbn [postId]. now rewrite Hid, Hrow.
  - unfold get_catalog. now rewrite reading_reply.
  - cbn [postId]. apply Permutation_length_1_inv. rewrite <- Hrow.
    apply Permutation_filter. symmetry. apply order_by_Permutation.
Qed.

Lemma create_then_read_witness :
  let created := store (post_upload 1700000000 Sample.tagged_upload Sample.dump) in
  exists p f u rows,
    response (post_upload 1700000000 Sample.tagged_upload Sample.dump)
      = Sent 200 [(p, f)]
    /\ get_posts_view Sample.Number "9" created
       = {| response :=
              Sent 200 (SQL.project p f u
                          (Some (map JS.trim (JS.split "," "pso2, pso2 , meme,  "))));
            store := created; queries := 1 |}
    /\ response (get_catalog created) = Sent 200 rows
    /\ filter (fun v => SQL.Projection.postId v =? 9) rows
       = [SQL.project p f u
            (Some (map JS.trim (JS.split "," "pso2, pso2 , meme,  ")))].
Proof.
  intros created.
  assert (K : Consistent (db_tables Sample.dump))
    by (apply consistent_spec; reflexivity).
  eexists. eexists.
  destruct (create_then_read Sample.Number 1700000000 Sample.tagged_upload
              Sample.dump "pso2, pso2 , meme,  " _ _ "9" K eq_refl eq_refl
              eq_refl eq_refl)
    as (u & rows & _ & _ & Hview & Hcat & Hrow).
  exists u, rows. split; [reflexivity|]. split; [exact Hview|].
  split; [exact Hcat | exact Hrow].
Defined.

(** ** What an edit request does *)

Lemma update_posts_hit id (ttl descr : string) (l : list post_row) :
  SQL.update_posts id (Some ttl) descr l
  = Ok (map (fun p => if postId p =? id
                      then {| postId := postId p; post_fileId := post_fileId p;
                              post_userId := post_userId p;
                              createdAt := createdAt p;
                              title := ttl; description := Some descr |}
                      else p) l).
Proof.
  induction l as [|p l IH]; simpl; [reflexivity|].
  rewrite IH. unfold SQL.update_post. now destruct (postId p =? id).
Qed.

Lemma update_posts_null id (descr : string) (l : list post_row) :
  In id (map postId l) ->
  SQL.update_posts id None descr l = Err (not_null_violation "title").
Proof.
  induction l as [|p l IH]; simpl; [contradiction|].
  unfold SQL.update_post. destruct (postId p =? id) eqn:E; [reflexivity|].
  intros [H|H]; [apply Z.eqb_neq in E; contradiction|].
  now rewrite IH.
Qed.

(** X20. In a store that keeps its constraints, an edit request with a
    title and a tag array for the identity of an existing post always
    succeeds.  It commits the new title and the new description (the empty
    string when none is given) to that post and to no other, replaces the
    taggings of that post by one per trimmed entry of the array, leaves
    the taggings of other posts, the files, the users and the sequences as
    they are, and appends the new tag names to the vocabulary.  The row it
    answers with, however, carries the title and description the post had
    before the edit, beside the new tags. *)
Theorem edit_effect (req : edit_request) (d : db) (rawTags : list string)
    (ttl : string) (p : post_row) (f : file_row) (u : user_row) :
  Consistent (db_tables d) ->
  edit_tags req = Some rawTags ->
  edit_title req = Some ttl ->
  int4in (params_id req) = Ok (postId p) ->
  In p (posts (db_tables d)) ->
  In f (files (db_tables d)) -> fileId f = post_fileId p ->
  In u (users (db_tables d)) -> userId u = post_userId p ->
  put_posts_edit req d
  = {| response :=
         Sent 200 [SQL.project p f u (SQL.array_agg (map JS.trim rawTags))];
       store :=
         {| db_tables :=
              {| files := files (db_tables d);
                 posts :=
                   map (fun x =>
                          if postId x =? postId p
                          then {| postId := postId x;
                                  post_fileId := post_fileId x;
                                  post_userId := post_userId x;
                                  createdAt := createdAt x;
                                  title := ttl;
                                  description :=
                                    Some (description_or_empty
                                            (edit_description req)) |}
                          else x)
                       (posts (db_tables d));
                 taggings :=
                   filter (fun r => negb (tagging_postId r =? postId p))
                          (taggings (db_tables d))
                   ++ map (fun name => {| tagName := name;
                                          tagging_postId := postId p |})
                          (map JS.trim rawTags);
                 tags := fold_left SQL.upsert_tag (map JS.trim rawTags)
                           (tags (db_tables d));
                 users := users (db_tables d) |};
            db_sequences := db_sequences d |};
       queries := 1 |}.
Proof.
  intros K Ht Httl Hid Hp Hf Hpf Hu Hpu.
  unfold put_posts_edit. rewrite Ht, Httl.
  unfold db_query, SQL.query, SQL.edit, bind, lift, ret.
  cbn [SQL.ed_id SQL.ed_title SQL.ed_description SQL.ed_tags].
  rewrite Hid, update_posts_hit. unfold edit_tags_of.
  rewrite check_tagging_fkeys_pass.
  - rewrite map_map. cbn [tagName]. rewrite map_id.
    rewrite (joined_post _ K p f u Hp Hf Hpf Hu Hpu
               [(postId p, SQL.array_agg (map JS.trim rawTags))]
               (SQL.array_agg (map JS.trim rawTags)));
      [reflexivity|].
    simpl. now rewrite Z.eqb_refl.
  - cbn [posts SQL.add_taggings SQL.upsert_tags].
    apply existsb_exists.
    exists {| postId := postId p; post_fileId := post_fileId p;
              post_userId := post_userId p; createdAt := createdAt p;
              title := ttl;
              description := Some (description_or_empty (edit_description req)) |}.
    split; [|apply Z.eqb_refl].
    apply in_map_iff. exists p. now rewrite Z.eqb_refl.
  - cbn [tags SQL.add_taggings SQL.upsert_tags].
    intros n Hn. now apply upsert_all_contains.
Qed.

Lemma edit_effect_witness :
  let edited :=
    put_posts_edit (Sample.edit_of "4" ["drake"; " meme "]) Sample.dump in
  response edited
    = Sent 200 [SQL.project Sample.drake_post Sample.drake_file Sample.admin
                  (Some ["drake"; "meme"])]
  /\ posts (db_tables (store edited))
     = [ {| postId := 4; post_fileId := 4; post_userId := 1;
            createdAt := 1654213670; title := "Lobby Grinding";
            description := Some "Drake Meme" |};
         Sample.rappy_post ]
  /\ taggings (db_tables (store edited))
     = [ {| tagName := "rappy"; tagging_postId := 6 |};
         {| tagName := "meme form"; tagging_postId := 6 |};
         {| tagName := "drake"; tagging_postId := 4 |};
         {| tagName := "meme"; tagging_postId := 4 |} ].
Proof.
  intros edited. subst edited.
  rewrite (edit_effect (Sample.edit_of "4" ["drake"; " meme "]) Sample.dump
             ["drake"; " meme "] "Lobby Grinding"
             Sample.drake_post Sample.drake_file Sample.admin);
    try reflexivity.
  - repeat split.
  - apply consistent_spec. reflexivity.
  - now left.
  - now left.
  - now left.
Defined.

(** X21. An edit request with a tag array but no title, for the identity
    of an existing post, fails on the [not null] constraint of the title;
    the handler has no [catch], so nothing is answered, and the store is
    left as it was. *)
Theorem edit_requires_title (req : edit_request) (d : db)
    (rawTags : list string) (id : Z) :
  edit_tags req = Some rawTags ->
  edit_title req = None ->
  int4in (params_id req) = Ok id ->
  In id (map postId (posts (db_tables d))) ->
  put_posts_edit req d
  = {| response := Unhandled (JS.StoreError (not_null_violation "title"));
       store := d; queries := 1 |}.
Proof.
  intros Ht Httl Hid Hin. unfold put_posts_edit. rewrite Ht, Httl.
  unfold db_query, SQL.query, SQL.edit, bind, lift, ret.
  cbn [SQL.ed_id SQL.ed_title SQL.ed_description SQL.ed_tags].
  rewrite Hid, (update_posts_null _ _ _ Hin). now destruct d.
Qed.

Lemma edit_requires_title_witness :
  put_posts_edit
    {| params_id := "6"; edit_title := None; edit_tags := Some ["rappy"];
       edit_description := Some "my beloved" |} Sample.dump
  = {| response := Unhandled (JS.StoreError (not_null_violation "title"));
       store := Sample.dump; queries := 1 |}.
Proof.
  apply (edit_requires_title _ Sample.dump ["rappy"] 6); try reflexivity.
  simpl. right. now left.
Defined.

(** ** Sequences *)

Lemma not_before_refl (sq : sequences) : not_before sq sq.
Proof. unfold not_before. lia. Qed.

Lemma not_before_trans (a b c : sequences) :
  not_before a b -> not_before b c -> not_before a c.
Proof. unfold not_before. lia. Qed.

Lemma query_sequences {R} (s : tables -> stmt (tables * R)) (d : db) :
  db_sequences (fst (SQL.query s d)) = fst (s (db_tables d) (db_sequences d)).
Proof.
  unfold SQL.query.
  now destruct (s (db_tables d) (db_sequences d)) as [sq [[t a]|e]].
Qed.

Lemma db_query_sequences {R Body} (s : tables -> stmt (tables * R)) (d : db)
    (k : result R -> outcome Body) :
  db_sequences (store (db_query s d k))
  = fst (s (db_tables d) (db_sequences d)).
Proof.
  destruct (db_query_response s d k) as (_ & -> & _). apply query_sequences.
Qed.

Ltac step_statement :=
  match goal with
  | |- context [match ?x with _ => _ end] =>
      lazymatch x with
      | context [match _ with _ => _ end] => fail
      | _ => destruct x eqn:?
      end
  end.

Lemma upload_sequences now (p : SQL.upload_params) (t : tables) (sq : sequences) :
  not_before sq (fst (SQL.upload now p t sq)).
Proof.
  unfold SQL.upload, bind, lift, ret, SQL.nextval_files, SQL.nextval_posts,
    not_before.
  repeat step_statement; simpl; lia.
Qed.

Lemma edit_sequences (p : SQL.edit_params) (t : tables) (sq : sequences) :
  fst (SQL.edit p t sq) = sq.
Proof.
  unfold SQL.edit, bind, lift, ret. now repeat step_statement.
Qed.

Lemma insert_user_sequences now name hashed (t : tables) (sq : sequences) :
  not_before sq (fst (Auth.insert_user now name hashed t sq)).
Proof.
  unfold Auth.insert_user, bind, lift, ret, Auth.nextval_users, not_before.
  repeat step_statement; simpl; lia.
Qed.

Lemma apply_sequences (hash : string -> string -> string) (d : db)
    (w : Writes.write) :
  not_before (db_sequences d) (db_sequences (Writes.apply hash d w)).
Proof.
  destruct w as [now req|req|now salt name password]; simpl.
  - unfold post_upload. destruct (body_tags req); [|apply not_before_refl].
    rewrite db_query_sequences. apply upload_sequences.
  - unfold put_posts_edit. destruct (edit_tags req); [|apply not_before_refl].
    rewrite db_query_sequences, edit_sequences. apply not_before_refl.
  - unfold Auth.post_auth_sign_up.
    destruct (JS.falsy name || JS.falsy password); [apply not_before_refl|].
    rewrite db_query_sequences. apply insert_user_sequences.
Qed.

(** X22. Over any sequence of create, edit and sign-up requests no
    sequence ever goes back, so an identity that was handed out is never
    handed out again; and a create request whose parameters the store can
    read draws its file identity even when the statement then fails: the
    file sequence stands one higher afterwards, whatever the outcome. *)
Theorem sequences_never_go_back (hash : string -> string -> string) :
  (forall ws d,
     not_before (db_sequences d)
                (db_sequences (Writes.apply_all hash ws d)))
  /\ (forall now req d rawTags sound layers,
        body_tags req = Some rawTags ->
        int4in_null (body_filePropsSound req) = Ok sound ->
        int4in_null (body_filePropsLayerCount req) = Ok layers ->
        in_int4 (match req_userId req with None => 1 | Some u => u end) = true ->
        files_fileId_seq (db_sequences d) + 1 <= int4_max ->
        files_fileId_seq (db_sequences (store (post_upload now req d)))
        = files_fileId_seq (db_sequences d) + 1).
Proof.
  split.
  - unfold Writes.apply_all. intros ws.
    induction ws as [|w ws IH]; simpl; intros d; [apply not_before_refl|].
    eapply not_before_trans; [apply apply_sequences | apply IH].
  - intros now req d rawTags sound layers Ht Hs Hl Hu Hmax.
    unfold post_upload. rewrite Ht, db_query_sequences.
    unfold SQL.upload, bind, lift, ret, SQL.int4_param, SQL.nextval_files,
      SQL.nextval_posts.
    cbn [SQL.up_filePropsSound SQL.up_filePropsLayerCount SQL.up_userId].
    rewrite Hs, Hl, Hu. apply Z.leb_le in Hmax. rewrite Hmax.
    repeat step_statement; reflexivity.
Qed.

Lemma sequences_never_go_back_witness :
  not_before (db_sequences Sample.dump)
             (db_sequences (Writes.apply_all Fixture.hash Fixture.busy_day
                              Sample.dump))
  /\ db_sequences (Writes.apply_all Fixture.hash Fixture.busy_day Sample.dump)
     = {| files_fileId_seq := 10; posts_postId_seq := 10;
          users_userId_seq := 2 |}
  /\ files_fileId_seq
       (db_sequences (store (post_upload 1700000000 Sample.orphan_upload
                               Sample.dump)))
     = 9.
Proof.
  destruct (sequences_never_go_back Fixture.hash) as (Hall & Hburn).
  split; [apply Hall|]. split; [reflexivity|].
  apply (Hburn 1700000000 Sample.orphan_upload Sample.dump "pso2,idol"
           (Some 3) (Some 120)); try reflexivity.
  vm_compute. discriminate.
Defined.

(** ** The tags of a tag string *)

Lemma trimStart_length (s : string) :
  (String.length (JS.trimStart s) <= String.length s)%nat.
Proof.
  induction s as [|c r IH]; simpl; [lia|].
  destruct (JS.is_white_space c); simpl; lia.
Qed.

Lemma trimStart_fixed (c : ascii) (r : string) :
  JS.trimStart (String c r) = String c r -> JS.is_white_space c = false.
Proof.
  simpl. destruct (JS.is_white_space c); [|reflexivity].
  intros E. pose proof (trimStart_length r) as H. rewrite E in H.
  simpl in H. lia.
Qed.

Lemma trimStart_idempotent (s : string) :
  JS.trimStart (JS.trimStart s) = JS.trimStart s.
Proof.
  induction s as [|c r IH]; simpl; [reflexivity|].
  destruct (JS.is_white_space c) eqn:E; [exact IH|].
  simpl. now rewrite E.
Qed.

Lemma trimEnd_cons (c : ascii) (r : string) :
  JS.trimEnd (String c r)
  = match JS.trimEnd r with
    | EmptyString => if JS.is_white_space c then EmptyString
                     else String c EmptyString
    | String c' r' => String c (String c' r')
    end.
Proof. reflexivity. Qed.

Lemma trimEnd_idempotent (s : string) :
  JS.trimEnd (JS.trimEnd s) = JS.trimEnd s.
Proof.
  induction s as [|c r IH]; [reflexivity|].
  rewrite trimEnd_cons.
  destruct (JS.trimEnd r) as [|c' r'] eqn:E.
  - destruct (JS.is_white_space c) eqn:Ec; [reflexivity|].
    rewrite trimEnd_cons. simpl. now rewrite Ec.
  - rewrite trimEnd_cons, IH. reflexivity.
Qed.

Lemma trimStart_trimEnd (s : string) :
  JS.trimStart s = s -> JS.trimStart (JS.trimEnd s) = JS.trimEnd s.
Proof.
  destruct s as [|c r]; [reflexivity|].
  intros H. apply trimStart_fixed in H. rewrite trimEnd_cons.
  destruct (JS.trimEnd r); [rewrite H|]; simpl; now rewrite H.
Qed.

Lemma trim_idempotent (s : string) : JS.trim (JS.trim s) = JS.trim s.
Proof.
  unfold JS.trim.
  rewrite (trimStart_trimEnd _ (trimStart_idempotent s)).
  apply trimEnd_idempotent.
Qed.

Lemma trimStart_characters (s : string) (c : ascii) :
  In c (list_ascii_of_string (JS.trimStart s)) ->
  In c (list_ascii_of_string s).
Proof.
  induction s as [|a r IH]; simpl; [tauto|].
  destruct (JS.is_white_space a); simpl; auto.
Qed.

Lemma trimEnd_characters (s : string) (c : ascii) :
  In c (list_ascii_of_string (JS.trimEnd s)) ->
  In c (list_ascii_of_string s).
Proof.
  induction s as [|a r IH]; simpl; [tauto|].
  destruct (JS.trimEnd r) as [|a' r'].
  - destruct (JS.is_white_space a); simpl; tauto.
  - simpl in *. tauto.
Qed.

Lemma concat_cons (sep x : string) (xs : list string) :
  xs <> [] ->
  String.concat sep (x :: xs) = (x ++ sep ++ String.concat sep xs)%string.
Proof. destruct xs; [congruence | reflexivity]. Qed.

Lemma split_cons (sep c : ascii) (r : string) :
  JS.split sep (String c r)
  = if Ascii.eqb c sep then EmptyString :: JS.split sep r
    else match JS.split sep r with
         | piece :: rest => String c piece :: rest
         | [] => [String c EmptyString]
         end.
Proof. reflexivity. Qed.

Lemma split_no_separator (sep : ascii) (s : string) (piece : string) :
  In piece (JS.split sep s) -> ~ In sep (list_ascii_of_string piece).
Proof.
  revert piece; induction s as [|c r IH]; intros piece.
  - intros [<-|[]]. simpl. tauto.
  - rewrite split_cons. destruct (Ascii.eqb_spec c sep) as [->|Hne].
    + intros [<-|H]; [simpl; tauto | now apply IH].
    + destruct (JS.split sep r) as [|x l] eqn:E;
        [now apply split_not_empty in E|].
      intros [<-|H].
      * simpl. intros [H|H]; [congruence|]. apply (IH x); [now left | exact H].
      * apply IH. now right.
Qed.

Lemma split_length (sep : ascii) (s : string) :
  List.length (JS.split sep s)
  = S (count_occ ascii_dec (list_ascii_of_string s) sep).
Proof.
  induction s as [|c r IH]; [reflexivity|].
  rewrite split_cons. cbn [list_ascii_of_string count_occ].
  destruct (Ascii.eqb_spec c sep) as [->|Hne].
  - destruct (ascii_dec sep sep) as [_|H]; [|now elim H].
    simpl. now rewrite IH.
  - destruct (ascii_dec c sep) as [H|_]; [contradiction|].
    destruct (JS.split sep r) as [|x l] eqn:E;
      [now apply split_not_empty in E|].
    simpl in *. exact IH.
Qed.

Lemma split_join (sep : ascii) (s : string) :
  String.concat (String sep EmptyString) (JS.split sep s) = s.
Proof.
  induction s as [|c r IH]; [reflexivity|].
  rewrite split_cons. destruct (Ascii.eqb_spec c sep) as [->|Hne].
  - rewrite concat_cons by apply split_not_empty. simpl. now rewrite IH.
  - destruct (JS.split sep r) as [|x l] eqn:E;
      [now apply split_not_empty in E|].
    destruct l as [|y l].
    + simpl in *. now rewrite IH.
    + rewrite concat_cons by discriminate.
      rewrite concat_cons in IH by discriminate.
      cbn [append] in *. now rewrite IH.
Qed.

(** X23. The tags a create request submits, as the handler computes them
    from the tag string: there is one more of them than the string has
    commas, so never none; none contains a comma; each is free of white
    space at both ends, so trimming it again changes nothing; and joining
    the untrimmed pieces with commas gives the tag string back. *)
Theorem upload_tags_shape (rawTags : string) :
  List.length (upload_tags rawTags)
  = S (count_occ ascii_dec (list_ascii_of_string rawTags) ","%char)
  /\ (forall tag, In tag (upload_tags rawTags) ->
        JS.trim tag = tag
        /\ ~ In ","%char (list_ascii_of_string tag))
  /\ String.concat "," (JS.split "," rawTags) = rawTags.
Proof.
  unfold upload_tags. split; [|split].
  - rewrite length_map. apply split_length.
  - intros tag Htag. apply in_map_iff in Htag as (piece & <- & Hp).
    split; [apply trim_idempotent|].
    intros Hc. apply (split_no_separator _ _ _ Hp).
    unfold JS.trim in Hc.
    now apply trimStart_characters, trimEnd_characters.
  - apply (split_join ","%char).
Qed.

(** ** What a search finds *)

Lemma firstn_short {T} (n : nat) (l : list T) :
  (List.length (firstn n l) < n)%nat -> firstn n l = l.
Proof. rewrite length_firstn. intros H. apply firstn_all2. lia. Qed.

Lemma Some_inj {T} (a b : T) : Some a = Some b -> a = b.
Proof. congruence. Qed.

Lemma above_threshold_Some (r : option Q) (rank : Q) :
  SQL.above_threshold r = Some rank <-> r = Some rank /\ (1 # 100 < rank)%Q.
Proof.
  unfold SQL.above_threshold. destruct r as [x|];
    [|split; [discriminate | intros (H & _); discriminate]].
  destruct (Qle_bool x (1 # 100)) eqn:E.
  - split; [discriminate|]. intros (H & Hlt). apply Some_inj in H. subst x.
    apply Qle_bool_iff in E. exfalso. now apply (Qlt_not_le _ _ Hlt).
  - split.
    + intros H. apply Some_inj in H. subst x. split; [reflexivity|].
      apply Qnot_le_lt. intros H. apply Qle_bool_iff in H. congruence.
    + intros (H & _). exact H.
Qed.

Lemma tags_of_nonempty (id : Z) (t : tables) :
  tags_of id t <> [] <-> In id (map tagging_postId (taggings t)).
Proof.
  unfold tags_of. split.
  - intros Hne.
    destruct (filter _ (taggings t)) as [|r l] eqn:E; [now elim Hne|].
    assert (Hr : In r (r :: l)) by now left.
    rewrite <- E in Hr. apply filter_In in Hr as (Hr & Er).
    apply Z.eqb_eq in Er. subst id. now apply in_map.
  - intros H Hnil. apply in_map_iff in H as (r & E & Hr).
    apply map_eq_nil in Hnil.
    assert (Hin : In r (filter (fun r0 => tagging_postId r0 =? id) (taggings t))).
    { apply filter_In. split; [exact Hr | now apply Z.eqb_eq]. }
    rewrite Hnil in Hin. contradiction.
Qed.

Lemma posts_with_tags_In (t : tables) (p : post_row) (u : user_row)
    (a : Z * list string) :
  In (p, u, a) (SQL.posts_with_tags t)
  <-> In p (posts t) /\ In u (users t) /\ userId u = post_userId p
      /\ tags_of (postId p) t <> []
      /\ a = (postId p, tags_of (postId p) t).
Proof.
  unfold SQL.posts_with_tags. rewrite in_flat_map. split.
  - intros (p' & Hp & H). apply in_flat_map in H as (u' & Hu & H).
    apply in_map_iff in H as (a' & E & Ha). injection E as -> -> ->.
    apply filter_In in Hu as (Hu & Eu). apply Z.eqb_eq in Eu.
    apply filter_In in Ha as (Ha & Ea). apply Z.eqb_eq in Ea.
    destruct a as [id names]. simpl in Ea. subst id.
    apply tag_arrays_In in Ha as (Hid & ->).
    repeat split; auto. now apply tags_of_nonempty.
  - intros (Hp & Hu & Eu & Hne & ->). exists p. split; [exact Hp|].
    apply in_flat_map. exists u.
    split; [apply filter_In; split; [exact Hu | now apply Z.eqb_eq]|].
    apply in_map_iff. exists (postId p, tags_of (postId p) t).
    split; [reflexivity|].
    apply filter_In. split; [|apply Z.eqb_refl].
    apply tag_arrays_In. split; [now apply tags_of_nonempty | reflexivity].
Qed.

Lemma weights_null (fts : SQL.text_search) (cfg : SQL.columnsConfig)
    (p : post_row) (u : user_row) (names : list string) :
  SQL.cfg_description cfg = true -> description p = None ->
  SQL.weights fts cfg p u names = None.
Proof.
  intros Hc Hd. unfold SQL.weights. rewrite Hc, Hd.
  destruct (SQL.cfg_title cfg), (SQL.cfg_tags cfg), (SQL.cfg_username cfg);
    reflexivity.
Qed.

Section SearchHits.
Variable fts : SQL.text_search.
Variable cfg : SQL.columnsConfig.
Variable q : string.
Variable t : tables.
Hypothesis keeps : Consistent t.

Let rank_of (v : SQL.tsvector fts) : Q :=
  SQL.ts_rank fts v (SQL.plainto_tsquery fts q).

(** A row is a hit of the search when it is the projection of a post with
    a tagging, with the rank of that post, and the rank is above 0.01. *)
Let hit (r : SQL.search_row) : Prop :=
  exists p f u v,
    In p (posts t) /\ In f (files t) /\ fileId f = post_fileId p
    /\ In u (users t) /\ userId u = post_userId p
    /\ tags_of (postId p) t <> []
    /\ SQL.weights fts cfg p u (tags_of (postId p) t) = Some v
    /\ (1 # 100 < rank_of v)%Q
    /\ r = {| SQL.found := SQL.project p f u (Some (tags_of (postId p) t));
              SQL.ranks := rank_of v |}.

Lemma search_ranking_In (id : Z) (rank : option Q) :
  In (id, rank) (SQL.search_ranking fts cfg q t)
  <-> exists p u,
        In p (posts t) /\ In u (users t) /\ userId u = post_userId p
        /\ tags_of (postId p) t <> [] /\ id = postId p
        /\ rank = option_map rank_of
                    (SQL.weights fts cfg p u (tags_of (postId p) t)).
Proof.
  unfold SQL.search_ranking, SQL.weighted_posts. rewrite map_map, in_map_iff.
  split.
  - intros ([[p u] a] & E & H). apply posts_with_tags_In in H
      as (Hp & Hu & Eu & Hne & ->). simpl in E. injection E as <- <-.
    exists p, u. repeat split; auto.
  - intros (p & u & Hp & Hu & Eu & Hne & -> & ->).
    exists (p, u, (postId p, tags_of (postId p) t)). split; [reflexivity|].
    apply posts_with_tags_In. repeat split; auto.
Qed.

Lemma search_hits (rows : list SQL.search_row) :
  SQL.search fts cfg q t = Ok rows ->
  exists hits,
    rows = firstn 20 (SQL.order_by SQL.best_first hits)
    /\ forall r, In r hits <-> hit r.
Proof.
  unfold SQL.search. intros H. apply Ok_inj in H.
  eexists. split; [symmetry; exact H|]. clear H rows.
  intros r. rewrite in_flat_map. split.
  - intros ((id & rk) & Hx & Hr). simpl in Hr.
    destruct (SQL.above_threshold rk) as [rank|] eqn:Ea; [|contradiction].
    apply above_threshold_Some in Ea as (-> & Hlt).
    apply search_ranking_In in Hx as (p & u & Hp & Hu & Eu & Hne & -> & Er).
    destruct (SQL.weights fts cfg p u _) as [v|] eqn:Ew; [|discriminate Er].
    simpl in Er. apply Some_inj in Er. subst rank.
    destruct (Consistent_file t p keeps Hp) as (f & Hf & Ef).
    apply in_map_iff in Hr as (v' & <- & Hv').
    rewrite (formatted_post t keeps p f u Hp Hf Ef Hu Eu Hne) in Hv'.
    destruct Hv' as [<-|[]].
    exists p, f, u, v. repeat split; auto.
  - intros (p & f & u & v & Hp & Hf & Ef & Hu & Eu & Hne & Ew & Hlt & ->).
    exists (postId p, Some (rank_of v)). split.
    + apply search_ranking_In. exists p, u. rewrite Ew. repeat split; auto.
    + cbn [fst snd].
      rewrite (proj2 (above_threshold_Some (Some (rank_of v)) (rank_of v))
                 (conj eq_refl Hlt)).
      apply in_map_iff. eexists. split; [reflexivity|].
      rewrite (formatted_post t keeps p f u Hp Hf Ef Hu Eu Hne). now left.
Qed.

End SearchHits.

(** X24. In a store that keeps its constraints, every row of a search
    that answered 200 is the projection of a post of the store that has a
    tagging, with its own file, its owner and all its tags, and the rank
    of the row is [ts_rank] of the weighted columns of that very post
    against the query. *)
Theorem search_rows_are_ranked_posts (fts : SQL.text_search)
    (q cols : option string) (d : db) (rows : list SQL.search_row) :
  Consistent (db_tables d) ->
  response (get_posts_search fts q cols d) = Sent 200 rows ->
  forall r, In r rows ->
    exists p f u v,
      In p (posts (db_tables d))
      /\ In f (files (db_tables d)) /\ fileId f = post_fileId p
      /\ In u (users (db_tables d)) /\ userId u = post_userId p
      /\ SQL.found r
         = SQL.project p f u (Some (tags_of (postId p) (db_tables d)))
      /\ SQL.weights fts (columns_of (JS.value cols)) p u
           (tags_of (postId p) (db_tables d)) = Some v
      /\ SQL.ranks r
         = SQL.ts_rank fts v (SQL.plainto_tsquery fts (JS.value q)).
Proof.
  intros K H r Hr. apply search_response in H.
  apply (search_hits fts _ _ _ K) in H as (hits & -> & Hhits).
  apply firstn_In, order_by_In, Hhits in Hr
    as (p & f & u & v & Hp & Hf & Ef & Hu & Eu & _ & Ew & _ & ->).
  exists p, f, u, v. repeat split; auto.
Qed.

Lemma search_rows_are_ranked_posts_witness :
  let reply :=
    get_posts_search Sample.word_search (Some "Lobby") (Some "title,tags")
      Sample.dump in
  let rows := match response reply with Sent _ rows => rows | _ => [] end in
  Consistent (db_tables Sample.dump)
  /\ response reply = Sent 200 rows
  /\ map (fun r => SQL.Projection.postId (SQL.found r)) rows = [4]
  /\ forall r, In r rows ->
       exists p f u v,
         In p (posts (db_tables Sample.dump))
         /\ In f (files (db_tables Sample.dump)) /\ fileId f = post_fileId p
         /\ In u (users (db_tables Sample.dump)) /\ userId u = post_userId p
         /\ SQL.found r
            = SQL.project p f u
                (Some (tags_of (postId p) (db_tables Sample.dump)))
         /\ SQL.weights Sample.word_search (columns_of "title,tags") p u
              (tags_of (postId p) (db_tables Sample.dump)) = Some v
         /\ SQL.ranks r
            = SQL.ts_rank Sample.word_search v
                (SQL.plainto_tsquery Sample.word_search "Lobby").
Proof.
  intros reply rows.
  assert (K : Consistent (db_tables Sample.dump))
    by (apply consistent_spec; reflexivity).
  split; [exact K|]. split; [reflexivity|]. split; [reflexivity|].
  exact (search_rows_are_ranked_posts Sample.word_search (Some "Lobby")
           (Some "title,tags") Sample.dump rows K eq_refl).
Defined.

(** X25. In a store that keeps its constraints, a search that answered
    200 with fewer than twenty rows has left out no post: every post with
    a tagging whose rank against the query is above 0.01 is among the
    rows, with that rank. *)
Theorem search_below_cap_is_complete (fts : SQL.text_search)
    (q cols : option string) (d : db) (rows : list SQL.search_row)
    (p : post_row) (f : file_row) (u : user_row) (v : SQL.tsvector fts) :
  Consistent (db_tables d) ->
  response (get_posts_search fts q cols d) = Sent 200 rows ->
  (List.length rows < 20)%nat ->
  In p (posts (db_tables d)) ->
  In f (files (db_tables d)) -> fileId f = post_fileId p ->
  In u (users (db_tables d)) -> userId u = post_userId p ->
  tags_of (postId p) (db_tables d) <> [] ->
  SQL.weights fts (columns_of (JS.value cols)) p u
    (tags_of (postId p) (db_tables d)) = Some v ->
  (1 # 100 < SQL.ts_rank fts v (SQL.plainto_tsquery fts (JS.value q)))%Q ->
  In {| SQL.found :=
          SQL.project p f u (Some (tags_of (postId p) (db_tables d)));
        SQL.ranks :=
          SQL.ts_rank fts v (SQL.plainto_tsquery fts (JS.value q)) |}
     rows.
Proof.
  intros K H Hcap Hp Hf Ef Hu Eu Hne Ew Hlt. apply search_response in H.
  apply (search_hits fts _ _ _ K) in H as (hits & -> & Hhits).
  rewrite (firstn_short _ _ Hcap). apply order_by_In, Hhits.
  exists p, f, u, v. repeat split; auto.
Qed.

Lemma search_below_cap_is_complete_witness :
  let reply :=
    get_posts_search Sample.word_search (Some "rappy") (Some "tags")
      Sample.dump in
  let rows := match response reply with Sent _ rows => rows | _ => [] end in
  In {| SQL.found :=
          SQL.project Sample.rappy_post Sample.rappy_file Sample.admin
            (Some ["rappy"; "meme form"]);
        SQL.ranks := 1 # 5 |}
     rows.
Proof.
  intros reply rows.
  assert (K : Consistent (db_tables Sample.dump))
    by (apply consistent_spec; reflexivity).
  apply (search_below_cap_is_complete Sample.word_search (Some "rappy")
           (Some "tags") Sample.dump rows Sample.rappy_post Sample.rappy_file
           Sample.admin [("rappy", SQL.C); ("meme", SQL.C); ("form", SQL.C)] K).
  - reflexivity.
  - vm_compute. lia.
  - simpl. tauto.
  - simpl. tauto.
  - reflexivity.
  - simpl. tauto.
  - reflexivity.
  - vm_compute. discriminate.
  - reflexivity.
  - vm_compute. reflexivity.
Defined.

(** X26. The search puts no [coalesce] around the columns: in a store
    that keeps its constraints, a post whose description is NULL is in no
    row of a search that has ["description"] among its columns, whatever
    its title, tags and owner match. *)
Theorem search_skips_null_description (fts : SQL.text_search)
    (q cols : option string) (d : db) (rows : list SQL.search_row)
    (p : post_row) :
  Consistent (db_tables d) ->
  response (get_posts_search fts q cols d) = Sent 200 rows ->
  In p (posts (db_tables d)) ->
  description p = None ->
  JS.includes (JS.split "," (JS.value cols)) "description" = true ->
  forall r, In r rows -> SQL.Projection.postId (SQL.found r) <> postId p.
Proof.
  intros K H Hp Hd Hc r Hr E. apply search_response in H.
  apply (search_hits fts _ _ _ K) in H as (hits & -> & Hhits).
  apply firstn_In, order_by_In, Hhits in Hr
    as (p' & f & u & v & Hp' & _ & _ & _ & _ & _ & Ew & _ & ->).
  simpl in E.
  assert (Hin : In p' (filter (fun x => postId x =? postId p)
                         (posts (db_tables d))))
    by (apply filter_In; split; [exact Hp' | now apply Z.eqb_eq]).
  rewrite (post_of_id _ K p Hp) in Hin. destruct Hin as [<-|[]].
  rewrite weights_null in Ew; [discriminate | exact Hc | exact Hd].
Qed.

Lemma search_skips_null_description_witness :
  (exists rows,
     response (get_posts_search Sample.word_search (Some "rappy")
                 (Some "title") Fixture.undescribed) = Sent 200 rows
     /\ map (fun r => SQL.Projection.postId (SQL.found r)) rows = [6])
  /\ (exists rows,
        response (get_posts_search Sample.word_search (Some "rappy")
                    (Some "title,description") Fixture.undescribed)
        = Sent 200 rows
        /\ forall r, In r rows -> SQL.Projection.postId (SQL.found r) <> 6).
Proof.
  split.
  - eexists. split; [vm_compute; reflexivity | reflexivity].
  - eexists. split; [vm_compute; reflexivity|].
    apply (search_skips_null_description Sample.word_search (Some "rappy")
             (Some "title,description") Fixture.undescribed _
             {| postId := 6; post_fileId := 6; post_userId := 1;
                createdAt := 1654213704; title := "rappy my beloved";
                description := None |}).
    + apply consistent_spec. reflexivity.
    + vm_compute. reflexivity.
    + simpl. tauto.
    + reflexivity.
    + reflexivity.
Defined.

(** ** Descriptions *)

Lemma update_posts_descriptions id ttl descr (l l' : list post_row) :
  SQL.update_posts id ttl descr l = Ok l' ->
  forall p', In p' l' -> In p' l \/ description p' = Some descr.
Proof.
  revert l'; induction l as [|p l IH]; simpl; intros l' H.
  - apply Ok_inj in H. subst. contradiction.
  - destruct (SQL.update_post id ttl descr p) as [x|] eqn:Ex; [|discriminate].
    destruct (SQL.update_posts id ttl descr l) as [rest|] eqn:Er;
      [|discriminate].
    apply Ok_inj in H. subst l'. intros p' [<-|Hp'].
    + unfold SQL.update_post in Ex. destruct (postId p =? id).
      * destruct (SQL.not_null "title" ttl); [|discriminate].
        apply Ok_inj in Ex. subst x. now right.
      * apply Ok_inj in Ex. subst x. left. now left.
    + destruct (IH rest eq_refl p' Hp') as [H|H]; [left; now right | now right].
Qed.

Lemma write_keeps_descriptions (hash : string -> string -> string)
    (w : Writes.write) (d : db) :
  (forall p, In p (posts (db_tables d)) -> description p <> None) ->
  forall p, In p (posts (db_tables (Writes.apply hash d w))) ->
            description p <> None.
Proof.
  intros Hd. destruct w as [now req|req|now salt name password]; simpl.
  - destruct (post_upload_store now req d)
      as [E|(rawTags & sq & rows & _ & _ & H)]; [now rewrite E|].
    apply upload_succeeds_inv in H
      as (sound & layers & ttl & _ & _ & _ & _ & _ & _ & _ & _ & _ & E).
    injection E as _ -> _. simpl.
    intros p Hp. apply in_app_or in Hp as [Hp|[<-|[]]];
      [now apply Hd | discriminate].
  - destruct (put_posts_edit_store req d)
      as [E|(rawTags & sq & rows & _ & H)]; [now rewrite E|].
    apply edit_succeeds_inv in H as (id & updated & _ & Hu & _ & _ & E & _).
    rewrite E. simpl. intros p Hp.
    destruct (update_posts_descriptions _ _ _ _ _ Hu p Hp) as [H|H];
      [now apply Hd | rewrite H; discriminate].
  - unfold Auth.post_auth_sign_up.
    destruct (JS.falsy name || JS.falsy password); [exact Hd|].
    unfold db_query, SQL.query.
    destruct (Auth.insert_user _ _ _ _ _) as [sq [[t' rows]|e]] eqn:E; simpl;
      [|exact Hd].
    apply insert_user_inv in E
      as (_ & _ & [(_ & -> & _)|(_ & _ & _ & -> & _)]); exact Hd.
Qed.

(** X27. No create, edit or sign-up request stores a NULL description: a
    request without description stores the empty string, so a store whose
    posts all have a description still has only such posts after any
    sequence of these requests. *)
Theorem writes_never_store_null_description
    (hash : string -> string -> string) (ws : list Writes.write) (d : db) :
  (forall p, In p (posts (db_tables d)) -> description p <> None) ->
  forall p, In p (posts (db_tables (Writes.apply_all hash ws d))) ->
            description p <> None.
Proof.
  unfold Writes.apply_all. revert d.
  induction ws as [|w ws IH]; simpl; intros d Hd; [exact Hd|].
  apply IH. now apply write_keeps_descriptions.
Qed.

Lemma writes_never_store_null_description_witness :
  map description
    (posts (db_tables (Writes.apply_all Fixture.hash
                         [Writes.EditPost Sample.untag_rappy;
                          Writes.Upload 1700000000 Sample.orphan_upload;
                          Writes.Upload 1700000100
                            {| req_userId := None; sar_key := "77ab.sar";
                               thumbnail_location := "77ab.png";
                               body_title := Some "Matoi";
                               body_tags := Some "pso2";
                               body_filePropsSound := None;
                               body_filePropsLayerCount := None;
                               body_filePropsName := None;
                               body_description := None |}]
                         Sample.dump)))
  = [Some "Drake Meme but epic"; Some EmptyString; Some EmptyString]
  /\ forall p,
       In p (posts (db_tables (Writes.apply_all Fixture.hash Fixture.busy_day
                                 Sample.dump))) ->
       description p <> None.
Proof.
  split; [reflexivity|].
  apply (writes_never_store_null_description Fixture.hash Fixture.busy_day
           Sample.dump).
  intros p [<-|[<-|[]]]; discriminate.
Defined.
